(** * FortiGate edge ingestion: a shallow embedding of the pipeline

    The first part follows the layout of [edge/fortigate-ingest/bin]:
    - [Py]             the fragment of the Python runtime the sources rely on
                       (strings as code-point lists, [int()], UTF-8 codec,
                       text-mode reading, [datetime]);
    - [parser_fgt_v1]  the line parser (envelope, key/value body, timestamp);
    - [checkpoint]     the persisted progress state and the completed ledger;
    - [source_file]    rotated-file reader and active-file follower;
    - [main]           the router and the orchestrator loop;
    - [json_ref]       a reference instance of the [json] module;
    - [Examples], [ParserSpec], [LedgerSpec], [SourceSpec], [MainSpec]
                       concrete inputs and the vocabulary of the statements.

    The second part holds the properties: [PyFacts], [ParserFacts],
    [CheckpointFacts], [SourceFacts], [MainFacts].

    Python [str] values are lists of Unicode code points ([N]); [bytes] values
    are lists of octets, also in [N].  Operations that may raise return
    [option] (under a [try]/[except Exception]) or [result] (where the
    raise would propagate). *)

From Stdlib Require Import ZArith NArith List Ascii String DecimalString Lia ZifyBool ZifyN.
From Stdlib Require Import Sorted.
From Stdlib Require DecimalPos DecimalZ DecimalN.
From stdpp Require Import gmap list strings.

Set Default Proof Using "Type".
Local Open Scope N_scope.

Abbreviation str := (list N).
Abbreviation bytes := (list N).

(** ** The Python runtime fragment *)
Module Py.

(** Exceptions that the modelled library calls can raise. *)
Inductive exn := ValueError | OverflowError | FileNotFoundError | OSError.

(** Outcome of a call: it returns, it raises, or the model's loop budget
    ran out before the call finished. *)
Inductive result (A : Type) :=
| Return (a : A)
| Raise (e : exn)
| OutOfFuel.
Arguments Return {A} a.
Arguments Raise {A} e.
Arguments OutOfFuel {A}.

Definition bind {A B} (r : result A) (k : A -> result B) : result B :=
  match r with
  | Return a => k a
  | Raise e => Raise e
  | OutOfFuel => OutOfFuel
  end.

(** [try: r except Exception: h] *)
Definition try_except {A} (r : result A) (h : result A) : result A :=
  match r with
  | Raise _ => h
  | _ => r
  end.

Definition of_option {A} (e : exn) (o : option A) : result A :=
  match o with Some a => Return a | None => Raise e end.

(** A string literal of the sources, as code points. *)
Fixpoint pystr (s : string) : str :=
  match s with
  | EmptyString => []
  | String a s' => N_of_ascii a :: pystr s'
  end.

Definition LF : N := 10.
Definition CR : N := 13.
Definition SPACE : N := 32.
Definition DQUOTE : N := 34.
Definition PLUS : N := 43.
Definition MINUS : N := 45.
Definition DOT : N := 46.
Definition COLON : N := 58.
Definition EQUALS : N := 61.
Definition BACKSLASH : N := 92.
Definition UNDERSCORE : N := 95.
Definition PIPE : N := 124.

(** [str.isspace] on one character, which is also the class [\s] of [re] on
    [str] patterns (CPython's [_PyUnicode_IsWhitespace]). *)
Definition is_space (c : N) : bool :=
  ((9 <=? c) && (c <=? 13)) || ((28 <=? c) && (c <=? 32))
  || (c =? 133) || (c =? 160) || (c =? 5760)
  || ((8192 <=? c) && (c <=? 8202))
  || (c =? 8232) || (c =? 8233) || (c =? 8239) || (c =? 8287) || (c =? 12288).

Section spans.
Context {A : Type} (p : A -> bool).

Fixpoint take_while (l : list A) : list A :=
  match l with
  | x :: l' => if p x then x :: take_while l' else []
  | [] => []
  end.

Fixpoint drop_while (l : list A) : list A :=
  match l with
  | x :: l' => if p x then drop_while l' else l
  | [] => []
  end.

End spans.

(** [s.rstrip(chars)] and [s.strip(chars)] for a character class. *)
Definition rstrip (p : N -> bool) (s : str) : str := rev (drop_while p (rev s)).
Definition lstrip (p : N -> bool) (s : str) : str := drop_while p s.
Definition strip (p : N -> bool) (s : str) : str := rstrip p (lstrip p s).

(** [s.split(sep)] for a one-character separator. *)
Fixpoint split_on (sep : N) (s : str) : list str :=
  match s with
  | [] => [[]]
  | c :: s' =>
      if c =? sep then [] :: split_on sep s'
      else match split_on sep s' with
           | w :: ws => (c :: w) :: ws
           | [] => [[c]]
           end
  end.


(** *** UTF-8 and text-mode reading *)

(** [bytes] of [s.encode("utf-8", errors="replace")]: a lone surrogate
    becomes [?]. *)
Definition utf8_encode_char (c : N) : bytes :=
  if c <? 128 then [c]
  else if c <? 2048 then [192 + c / 64; 128 + c mod 64]
  else if (55296 <=? c) && (c <=? 57343) then [63]
  else if c <? 65536 then [224 + c / 4096; 128 + (c / 64) mod 64; 128 + c mod 64]
  else [240 + c / 262144; 128 + (c / 4096) mod 64; 128 + (c / 64) mod 64; 128 + c mod 64].

Definition utf8_encode (s : str) : bytes := concat (map utf8_encode_char s).

Definition REPLACEMENT : N := 65533.

Definition is_cont (b : N) : bool := (128 <=? b) && (b <=? 191).

(** Validity of the second byte after the lead [b0] of a three- or
    four-byte sequence (overlong forms, surrogates and values above
    U+10FFFF are excluded here). *)
Definition second_ok (b0 b1 : N) : bool :=
  is_cont b1
  && negb ((b0 =? 224) && (b1 <? 160)) && negb ((b0 =? 237) && (160 <=? b1))
  && negb ((b0 =? 240) && (b1 <? 144)) && negb ((b0 =? 244) && (144 <=? b1)).

(** [b.decode("utf-8", errors="replace")]: each maximal ill-formed run
    (an invalid lead byte, a lead byte with the valid continuation bytes
    that follow it, or a sequence cut by the end of the data) becomes one
    U+FFFD. *)
Fixpoint utf8_decode (bs : bytes) : str :=
  match bs with
  | [] => []
  | b0 :: r0 =>
      if b0 <? 128 then b0 :: utf8_decode r0
      else if (b0 <? 194) || (244 <? b0) then REPLACEMENT :: utf8_decode r0
      else if b0 <? 224 then
        match r0 with
        | [] => [REPLACEMENT]
        | b1 :: r1 =>
            if is_cont b1 then ((b0 - 192) * 64 + (b1 - 128)) :: utf8_decode r1
            else REPLACEMENT :: utf8_decode r0
        end
      else
        match r0 with
        | [] => [REPLACEMENT]
        | b1 :: r1 =>
            if negb (second_ok b0 b1) then REPLACEMENT :: utf8_decode r0
            else match r1 with
            | [] => [REPLACEMENT]
            | b2 :: r2 =>
                if negb (is_cont b2) then REPLACEMENT :: utf8_decode r1
                else if b0 <? 240 then
                  ((b0 - 224) * 4096 + (b1 - 128) * 64 + (b2 - 128)) :: utf8_decode r2
                else match r2 with
                | [] => [REPLACEMENT]
                | b3 :: r3 =>
                    if negb (is_cont b3) then REPLACEMENT :: utf8_decode r2
                    else ((b0 - 240) * 262144 + (b1 - 128) * 4096
                          + (b2 - 128) * 64 + (b3 - 128)) :: utf8_decode r3
                end
            end
        end
  end.

(** Universal newlines of a text-mode [open] ([newline=None]): [\r\n] and a
    lone [\r] are read as [\n]. *)
Fixpoint universal_newlines (s : str) : str :=
  match s with
  | [] => []
  | c :: r =>
      if c =? CR then
        LF :: match r with
              | d :: r' => if d =? LF then universal_newlines r' else universal_newlines r
              | [] => []
              end
      else c :: universal_newlines r
  end.

(** Iterating a text file: the lines, each with its closing [\n] except
    possibly the last; [cur] is the line being collected. *)
Fixpoint iter_lines (s : str) (cur : str) : list str :=
  match s with
  | [] => match cur with [] => [] | _ :: _ => [cur] end
  | c :: r =>
      if c =? LF then (cur ++ [c]) :: iter_lines r []
      else iter_lines r (cur ++ [c])
  end.

(** The lines read from [open(path, "r", encoding="utf-8", errors="replace")]. *)
Definition text_lines (data : bytes) : list str :=
  iter_lines (universal_newlines (utf8_decode data)) [].

(** *** Integers and their decimal form *)

(** [str(n)] / the [{n}] of an f-string, for an [int]. *)
Definition str_of_Z (z : Z) : str := pystr (NilZero.string_of_int (Z.to_int z)).

(** [n] in decimal, zero-padded on the left to width [w] (the [%0wd] of
    [isoformat], for non-negative [n]). *)
Definition zpad (w : nat) (n : Z) : str :=
  let ds := pystr (NilZero.string_of_uint (N.to_uint (Z.to_N n))) in
  repeat 48 (w - length ds) ++ ds.

(** The part of the interpreter that is fixed by its version and not by the
    sources: the Unicode decimal-digit table above ASCII, the ISO-8601
    reader of [datetime], SHA-256, the digit limit of [int()] and gzip. *)
Record datetime := {
  year : Z; month : Z; day : Z;
  hour : Z; minute : Z; second : Z; microsecond : Z;
  tzinfo : option Z   (* utcoffset in microseconds; [None] is a naive value *)
}.

Class Runtime := {
  (* [Py_UNICODE_TODECIMAL] on code points from 128 up *)
  unicode_decimal : N -> option N;
  (* [datetime.datetime.fromisoformat]; [None] when it raises *)
  fromisoformat : str -> option datetime;
  (* [hashlib.sha256(b).hexdigest()] *)
  sha256_hexdigest : bytes -> str;
  (* [sys.get_int_max_str_digits()]; 0 switches the limit off *)
  int_max_str_digits : nat;
  (* the bytes read through [gzip.open]; [None] when the stream is corrupt
     (the lines that are yielded before the error is met are left out) *)
  gzip_decompress : bytes -> option bytes
}.

Section with_runtime.
Context `{RT : Runtime}.

(** Decimal value of a character: the class [\d] of [re] and the digits
    accepted by [int()].  No decimal digit of Unicode is a whitespace
    character, and [int()] tests for whitespace first; the table is
    consulted for the remaining characters only. *)
Definition digit_value (c : N) : option N :=
  if c <? 128 then (if (48 <=? c) && (c <=? 57) then Some (c - 48) else None)
  else if is_space c then None
  else unicode_decimal c.

Definition is_digit (c : N) : bool :=
  match digit_value c with Some _ => true | None => false end.

(** Whitespace skipped by [int()]: ASCII characters are tested with the C
    locale class, the others with [str.isspace]. *)
Definition int_space (c : N) : bool :=
  if c <? 127 then ((9 <=? c) && (c <=? 13)) || (c =? SPACE) else is_space c.

(** The digit run of [int()]: single underscores may separate digits. *)
Fixpoint int_digits (s : str) (prev_us : bool) (acc : N) (n : nat)
  : option (N * nat * str) :=
  match s with
  | c :: s' =>
      if c =? UNDERSCORE then
        if prev_us then None else int_digits s' true acc n
      else match digit_value c with
           | Some d => int_digits s' false (10 * acc + d) (S n)
           | None => if prev_us then None else Some (acc, n, s)
           end
  | [] => if prev_us then None else Some (acc, n, [])
  end.

(** The interpreter refuses to set a digit limit below this threshold. *)
Definition INT_MAX_STR_DIGITS_THRESHOLD : nat := 640.

(** [int(s)] for a [str]; [None] stands for [ValueError]. *)
Definition py_int (s : str) : option Z :=
  let s1 := lstrip int_space s in
  let '(neg, s2) :=
    match s1 with
    | c :: r => if c =? PLUS then (false, r)
                else if c =? MINUS then (true, r) else (false, s1)
    | [] => (false, s1)
    end in
  match s2 with
  | c :: _ =>
      if c =? UNDERSCORE then None
      else match int_digits s2 false 0 0 with
           | Some (v, n, rest) =>
               match n, lstrip int_space rest with
               | O, _ => None
               | _, [] =>
                   if (0 <? int_max_str_digits)%nat
                      && (Nat.max INT_MAX_STR_DIGITS_THRESHOLD int_max_str_digits <? n)%nat
                   then None
                   else Some (if neg then (- Z.of_N v)%Z else Z.of_N v)
               | _, _ :: _ => None
               end
           | None => None
           end
  | [] => None
  end.

End with_runtime.

(** *** [datetime] *)

Definition is_leap (y : Z) : bool :=
  ((y mod 4 =? 0) && (negb (y mod 100 =? 0) || (y mod 400 =? 0)))%Z.

Definition days_in_month (y m : Z) : Z :=
  (if m =? 2 then (if is_leap y then 29 else 28)
   else if (m =? 4) || (m =? 6) || (m =? 9) || (m =? 11) then 30 else 31)%Z.

(** [datetime.datetime(y, m, d, hh, mm, ss)]; [None] stands for the
    [ValueError] (or [OverflowError]) of an out-of-range field. *)
Definition mk_datetime (y m d hh mm ss : Z) : option datetime :=
  if ((1 <=? y) && (y <=? 9999) && (1 <=? m) && (m <=? 12)
      && (1 <=? d) && (d <=? days_in_month y m)
      && (0 <=? hh) && (hh <=? 23) && (0 <=? mm) && (mm <=? 59)
      && (0 <=? ss) && (ss <=? 59))%Z
  then Some {| year := y; month := m; day := d; hour := hh; minute := mm;
               second := ss; microsecond := 0; tzinfo := None |}
  else None.

(** [datetime.timezone(datetime.timedelta(hours=h, minutes=m))]: the offset
    in microseconds, or [None] for the [ValueError] raised unless the offset
    lies strictly between -24h and +24h. *)
Definition timezone (h m : Z) : option Z :=
  let off := ((h * 3600 + m * 60) * 1000000)%Z in
  if ((-86400000000 <? off) && (off <? 86400000000))%Z then Some off else None.

(** [dt.replace(tzinfo=tz)] *)
Definition replace_tzinfo (dt : datetime) (off : Z) : datetime :=
  {| year := year dt; month := month dt; day := day dt; hour := hour dt;
     minute := minute dt; second := second dt; microsecond := microsecond dt;
     tzinfo := Some off |}.

(** The UTC-offset suffix of [isoformat]. *)
Definition format_offset (off : Z) : str :=
  let a := Z.abs off in
  let us := (a mod 1000000)%Z in
  let s := (a / 1000000)%Z in
  [if (off <? 0)%Z then MINUS else PLUS]
  ++ zpad 2 (s / 3600) ++ [COLON] ++ zpad 2 (s / 60 mod 60)
  ++ (if ((s mod 60 =? 0) && (us =? 0))%Z then []
      else [COLON] ++ zpad 2 (s mod 60)
           ++ (if (us =? 0)%Z then [] else [DOT] ++ zpad 6 us)).

(** [dt.isoformat()] *)
Definition isoformat (dt : datetime) : str :=
  zpad 4 (year dt) ++ [MINUS] ++ zpad 2 (month dt) ++ [MINUS] ++ zpad 2 (day dt)
  ++ [84] ++ zpad 2 (hour dt) ++ [COLON] ++ zpad 2 (minute dt)
  ++ [COLON] ++ zpad 2 (second dt)
  ++ (if (microsecond dt =? 0)%Z then [] else [DOT] ++ zpad 6 (microsecond dt))
  ++ match tzinfo dt with Some off => format_offset off | None => [] end.

End Py.

(** ** parser_fgt_v1.py *)
Module parser_fgt_v1.
Import Py.

Definition MONTHS : gmap str Z :=
  <[pystr "Jan" := 1%Z]> (<[pystr "Feb" := 2%Z]> (<[pystr "Mar" := 3%Z]> (
  <[pystr "Apr" := 4%Z]> (<[pystr "May" := 5%Z]> (<[pystr "Jun" := 6%Z]> (
  <[pystr "Jul" := 7%Z]> (<[pystr "Aug" := 8%Z]> (<[pystr "Sep" := 9%Z]> (
  <[pystr "Oct" := 10%Z]> (<[pystr "Nov" := 11%Z]> (<[pystr "Dec" := 12%Z]> ∅))))))))))).

(** [_has_binary_garbage]: the generator counts the characters [ch] with
    [ord(ch) < 9 or 11 <= ord(ch) < 32]. *)
Definition is_control (c : N) : bool := (c <? 9) || ((11 <=? c) && (c <? 32)).

Definition count_control (s : str) : nat := length (filter (fun c => is_control c = true) s).

Definition _has_binary_garbage (s : str) : bool :=
  if existsb (N.eqb 0) s then true
  else (5 <? count_control s)%nat.

(** *** parse_kv *)

Definition is_key_char (c : N) : bool := negb ((c =? EQUALS) || (c =? SPACE)).
Definition is_sp (c : N) : bool := c =? SPACE.
Definition not_sp (c : N) : bool := negb (c =? SPACE).

(** The inner loop of a quoted value, entered after the opening quote:
    returns the collected [v_chars] and the input left at index [i]. *)
Fixpoint scan_quoted (s : str) (v_chars : str) : str * str :=
  match s with
  | [] => (v_chars, [])
  | ch :: rest =>
      match ch =? BACKSLASH, rest with
      | true, nxt :: rest' => scan_quoted rest' (v_chars ++ [nxt])
      | _, _ =>
          if ch =? DQUOTE then (v_chars, rest)
          else scan_quoted rest (v_chars ++ [ch])
      end
  end.

(** The outer [while i < n] loop; [s] is [body[i:]].  Every turn consumes a
    key and its [=], so [length body] turns always suffice
    ([parse_kv_loop_returns]). *)
Fixpoint parse_kv_loop (fuel : nat) (s : str) (out : gmap str str)
  : result (gmap str str) :=
  match s with
  | [] => Return out
  | _ :: _ =>
      match fuel with
      | O => OutOfFuel
      | S fuel' =>
          match drop_while is_sp s with
          | [] => Return out
          | (_ :: _) as s1 =>
              let key := take_while is_key_char s1 in
              match key, drop_while is_key_char s1 with
              | _ :: _, c :: s2 =>
                  if c =? EQUALS then
                    let '(value, s3) :=
                      match s2 with
                      | q :: s2' =>
                          if q =? DQUOTE then scan_quoted s2' []
                          else (take_while not_sp s2, drop_while not_sp s2)
                      | [] => (take_while not_sp s2, drop_while not_sp s2)
                      end in
                    parse_kv_loop fuel' (drop_while is_sp s3) (<[key := value]> out)
                  else Return out
              | _, _ => Return out
              end
          end
      end
  end.

Definition parse_kv (body : str) : result (gmap str str) :=
  parse_kv_loop (length body) body ∅.

(** *** The envelope: SYSLOG_RE *)

Record SyslogMatch := {
  g_mon : str; g_day : str; g_time : str; g_host : str; g_body : str
}.

Section with_runtime.
Context `{RT : Runtime}.

Definition is_upper (c : N) : bool := (65 <=? c) && (c <=? 90).
Definition is_lower (c : N) : bool := (97 <=? c) && (c <=? 122).
Definition non_space (c : N) : bool := negb (is_space c).
Definition not_lf (c : N) : bool := negb (c =? LF).

(** [\s+]: greedy; what follows it in the pattern never starts with
    whitespace, so the match takes the whole run. *)
Definition re_spaces (s : str) : option str :=
  match take_while is_space s with
  | [] => None
  | _ :: _ => Some (drop_while is_space s)
  end.

(** [\d{1,2}] followed by [\s+]: a run of one or two digits. *)
Definition re_day (s : str) : option (str * str) :=
  let ds := take_while is_digit s in
  match ds with
  | [_] | [_; _] => Some (ds, drop_while is_digit s)
  | _ => None
  end.

(** [\d{2}:\d{2}:\d{2}] *)
Definition re_time (s : str) : option (str * str) :=
  match s with
  | h1 :: h2 :: c1 :: m1 :: m2 :: c2 :: s1 :: s2 :: rest =>
      if is_digit h1 && is_digit h2 && (c1 =? COLON) && is_digit m1 && is_digit m2
         && (c2 =? COLON) && is_digit s1 && is_digit s2
      then Some ([h1; h2; c1; m1; m2; c2; s1; s2], rest)
      else None
  | _ => None
  end.

(** [\S+] followed by [\s+]: the whole run of non-whitespace. *)
Definition re_host (s : str) : option (str * str) :=
  match take_while non_space s with
  | [] => None
  | (_ :: _) as h => Some (h, drop_while non_space s)
  end.

(** The group [body], any run of [.], and the closing [$]: [.] excludes the
    line feed, and [$] matches at the end of the string or just before a line
    feed that ends it. *)
Definition re_body (s : str) : option str :=
  match drop_while not_lf s with
  | [] | [_] => Some (take_while not_lf s)
  | _ => None
  end.

(** [SYSLOG_RE.match(line)]: the groups are [mon] = [[A-Z][a-z]{2}],
    [day] = [\d{1,2}], [time] = [\d{2}:\d{2}:\d{2}], [host] = [\S+] and
    [body] = the rest of the line, each pair separated by [\s+]. *)
Definition SYSLOG_RE_match (line : str) : option SyslogMatch :=
  match line with
  | a :: b :: c :: r0 =>
      if is_upper a && is_lower b && is_lower c then
        r1 ← re_spaces r0;
        '(day, r2) ← re_day r1;
        r3 ← re_spaces r2;
        '(time, r4) ← re_time r3;
        r5 ← re_spaces r4;
        '(host, r6) ← re_host r5;
        r7 ← re_spaces r6;
        body ← re_body r7;
        Some {| g_mon := [a; b; c]; g_day := day; g_time := time;
                g_host := host; g_body := body |}
      else None
  | _ => None
  end.

(** *** parse_event_ts *)

(** [re.fullmatch(r"[+-]\d{4}", s)] *)
Definition tz_fullmatch (s : str) : bool :=
  match s with
  | [sg; d1; d2; d3; d4] =>
      ((sg =? PLUS) || (sg =? MINUS))
      && is_digit d1 && is_digit d2 && is_digit d3 && is_digit d4
  | _ => false
  end.

(** The value of [tz_norm] after the first [if]/[else] of [parse_event_ts]. *)
Definition tz_norm_of (tz : option str) : option str :=
  match tz with
  | Some ((_ :: _) as tz) =>
      let tz_clean := strip (N.eqb DQUOTE) (strip is_space tz) in
      if tz_fullmatch tz_clean then Some (take 3 tz_clean ++ [COLON] ++ drop 3 tz_clean)
      else None
  | _ => None
  end.

(** The shared tail of both [try] blocks: attach the offset when [tz_norm]
    is set, then [isoformat].  [None] stands for a raised exception. *)
Definition with_tz (dt : datetime) (tz_norm : option str) : option str :=
  match tz_norm with
  | Some ((c0 :: _) as tzn) =>
      let sign := if c0 =? PLUS then 1%Z else (-1)%Z in
      hh ← py_int (take 2 (drop 1 tzn));
      mm ← py_int (take 2 (drop 4 tzn));
      off ← timezone (sign * hh) (sign * mm);
      Some (isoformat (replace_tzinfo dt off))
  | _ => Some (isoformat dt)
  end.

(** [hh, mm, ss = [int(x) for x in fallback_time.split(":")]] *)
Definition unpack_hms (fallback_time : str) : option (Z * Z * Z) :=
  match split_on COLON fallback_time with
  | [a; b; c] =>
      hh ← py_int a; mm ← py_int b; ss ← py_int c; Some (hh, mm, ss)
  | _ => None
  end.

Definition truthy (o : option str) : bool :=
  match o with Some (_ :: _) => true | _ => false end.

Definition parse_event_ts (kv : gmap str str) (default_year fallback_mon fallback_day : Z)
    (fallback_time : str) : option str :=
  let tz_norm := tz_norm_of (kv !! pystr "tz") in
  let date_s := kv !! pystr "date" in
  let time_s := kv !! pystr "time" in
  let explicit :=
    match date_s, time_s with
    | Some ((_ :: _) as d), Some ((_ :: _) as t) =>
        dt ← fromisoformat (d ++ [84] ++ t);
        with_tz dt tz_norm
    | _, _ => None
    end in
  match explicit with
  | Some ts => Some ts
  | None =>
      '(hh, mm, ss) ← unpack_hms fallback_time;
      dt ← mk_datetime default_year fallback_mon fallback_day hh mm ss;
      with_tz dt tz_norm
  end.

(** *** Events and dead-letter records *)

Definition stable_event_id (raw_line : str) : str :=
  take 32 (sha256_hexdigest (utf8_encode raw_line)).

Definition _to_int (x : option str) : option Z :=
  match x with
  | None => None
  | Some s => py_int s
  end.

Inductive ParseStatus := ok | partial.

Record Event := {
  schema_version : Z;
  event_id : str;
  host : str;
  event_ts : option str;
  type : option str;
  subtype : option str;
  level : option str;
  devname : option str;
  devid : option str;
  vd : option str;
  action : option str;
  policyid : option Z;
  proto : option Z;
  service : option str;
  srcip : option str;
  srcport : option Z;
  srcintf : option str;
  srcintfrole : option str;
  dstip : option str;
  dstport : option Z;
  dstintf : option str;
  dstintfrole : option str;
  sentbyte : option Z;
  rcvdbyte : option Z;
  sentpkt : option Z;
  rcvdpkt : option Z;
  raw : str;
  parse_status : ParseStatus
}.

Inductive Reason :=
| empty_line
| non_text_or_binary
| syslog_header_parse_fail
| invalid_month
| kv_parse_exception.

Record Dlq := { reason : Reason; dlq_raw : str }.

Definition is_None {A} (o : option A) : bool :=
  match o with None => true | Some _ => false end.

Definition build_event (raw_line : str) (host : str) (event_ts : option str)
    (kv : gmap str str) : Event :=
  let get k := kv !! pystr k in
  {| schema_version := 1;
     event_id := stable_event_id raw_line;
     host := host;
     event_ts := event_ts;
     type := get "type";
     subtype := get "subtype";
     level := get "level";
     devname := get "devname";
     devid := get "devid";
     vd := get "vd";
     action := get "action";
     policyid := _to_int (get "policyid");
     proto := _to_int (get "proto");
     service := get "service";
     srcip := get "srcip";
     srcport := _to_int (get "srcport");
     srcintf := get "srcintf";
     srcintfrole := get "srcintfrole";
     dstip := get "dstip";
     dstport := _to_int (get "dstport");
     dstintf := get "dstintf";
     dstintfrole := get "dstintfrole";
     sentbyte := _to_int (get "sentbyte");
     rcvdbyte := _to_int (get "rcvdbyte");
     sentpkt := _to_int (get "sentpkt");
     rcvdpkt := _to_int (get "rcvdpkt");
     raw := raw_line;
     parse_status :=
       if is_None (get "type") || is_None (get "subtype") || is_None (get "action")
       then partial else ok |}.

(** The pair [(event, dlq)] returned by [parse_fortigate_line].  The call
    [int(m.group("day"))] stands outside every [try]: a [ValueError] there
    would propagate to the caller. *)
Definition parse_fortigate_line (raw_line : str) (now_year : Z)
  : result (option Event * option Dlq) :=
  let line := rstrip (N.eqb LF) raw_line in
  let dead r := Return (None, Some {| reason := r; dlq_raw := raw_line |}) in
  match line with
  | [] => dead empty_line
  | _ :: _ =>
      if _has_binary_garbage line then dead non_text_or_binary
      else match SYSLOG_RE_match line with
      | None => dead syslog_header_parse_fail
      | Some m =>
          bind (of_option ValueError (py_int (g_day m))) (fun day =>
          match MONTHS !! g_mon m with
          | None => dead invalid_month
          | Some mon_i =>
              if (mon_i =? 0)%Z then dead invalid_month else
              match parse_kv (g_body m) with
              | Raise _ => dead kv_parse_exception
              | OutOfFuel => OutOfFuel
              | Return kv =>
                  let event_ts := parse_event_ts kv now_year mon_i day (g_time m) in
                  Return (Some (build_event raw_line (g_host m) event_ts kv), None)
              end
          end)
      end
  end.

End with_runtime.

(** A runtime to evaluate closed examples with: ASCII digits only, the
    ISO-8601 reader restricted to the form [YYYY-MM-DDTHH:MM:SS] that every
    interpreter version reads, an unlimited [int()], and a placeholder
    digest and an identity decompressor. *)
Definition iso_field (s : str) : option Z :=
  if forallb (fun c => (48 <=? c) && (c <=? 57)) s
  then Some (fold_left (fun acc c => (10 * acc + Z.of_N (c - 48))%Z) s 0%Z)
  else None.

Definition fromisoformat_basic (s : str) : option datetime :=
  match s with
  | [y1; y2; y3; y4; m0; mo1; mo2; m1; d1; d2; t; h1; h2; c0; mi1; mi2; c1; s1; s2] =>
      if (m0 =? MINUS) && (m1 =? MINUS) && (t =? 84) && (c0 =? COLON) && (c1 =? COLON)
      then
        y ← iso_field [y1; y2; y3; y4]; mo ← iso_field [mo1; mo2];
        d ← iso_field [d1; d2]; hh ← iso_field [h1; h2];
        mi ← iso_field [mi1; mi2]; ss ← iso_field [s1; s2];
        mk_datetime y mo d hh mi ss
      else None
  | _ => None
  end.

Definition basic_runtime : Runtime := {|
  unicode_decimal := fun _ => None;
  fromisoformat := fromisoformat_basic;
  sha256_hexdigest := fun _ => [];
  int_max_str_digits := 0;
  gzip_decompress := fun b => Some b
|}.

End parser_fgt_v1.

(** ** checkpoint.py *)
Module checkpoint.
Import Py.

Record Counters := {
  lines_in_total : Z;
  bytes_in_total : Z;
  events_out_total : Z;
  dlq_out_total : Z;
  parse_fail_total : Z;
  write_fail_total : Z;
  checkpoint_fail_total : Z
}.

Record Active := {
  a_path : str;
  a_inode : option Z;
  a_offset : Z;
  a_last_event_ts_seen : option str
}.

(** One entry of [ck["completed"]].  [c_key] is read with [item.get("key")],
    so an entry without that member is allowed. *)
Record Completed := {
  c_key : option str;
  c_path : str;
  c_inode : Z;
  c_size : Z;
  c_mtime : Z;
  c_completed_at : Z
}.

(** The checkpoint dictionary.  [ck_completed] is read with
    [ck.get("completed", [])] and written through [ck.setdefault], so the
    member may be missing. *)
Record Checkpoint := {
  ck_schema_version : Z;
  ck_active : Active;
  ck_completed : option (list Completed);
  ck_counters : Counters;
  ck_updated_at : Z
}.

Definition set_active (ck : Checkpoint) (a : Active) : Checkpoint :=
  {| ck_schema_version := ck_schema_version ck; ck_active := a;
     ck_completed := ck_completed ck; ck_counters := ck_counters ck;
     ck_updated_at := ck_updated_at ck |}.

Definition set_completed (ck : Checkpoint) (l : list Completed) : Checkpoint :=
  {| ck_schema_version := ck_schema_version ck; ck_active := ck_active ck;
     ck_completed := Some l; ck_counters := ck_counters ck;
     ck_updated_at := ck_updated_at ck |}.

Definition set_counters (ck : Checkpoint) (c : Counters) : Checkpoint :=
  {| ck_schema_version := ck_schema_version ck; ck_active := ck_active ck;
     ck_completed := ck_completed ck; ck_counters := c;
     ck_updated_at := ck_updated_at ck |}.

Definition set_updated_at (ck : Checkpoint) (t : Z) : Checkpoint :=
  {| ck_schema_version := ck_schema_version ck; ck_active := ck_active ck;
     ck_completed := ck_completed ck; ck_counters := ck_counters ck;
     ck_updated_at := t |}.

(** [ck.get("completed", [])] *)
Definition ledger (ck : Checkpoint) : list Completed := default [] (ck_completed ck).

Definition CHECKPOINT_PATH : str := pystr "/data/fortigate/parsed/checkpoint.json".

(** The [json] module on checkpoint documents: [json.dumps] with the
    separators of the source, and [json.load], [None] when it raises. *)
Class Json := {
  json_dumps : Checkpoint -> str;
  json_load : str -> option Checkpoint
}.

(** The text files under the parsed directory, by path. *)
Abbreviation Files := (gmap str str).

Section with_json.
Context `{JS : Json}.

(** [os.replace(src, dst)] *)
Definition os_replace (src dst : str) (fs : Files) : result Files :=
  match fs !! src with
  | Some content => Return (<[dst := content]> (delete src fs))
  | None => Raise FileNotFoundError
  end.

(** [writable] tells whether the temporary file can be opened, written and
    synced; when it cannot, the exception leaves before [os.replace]. *)
Definition _atomic_write_json (path : str) (obj : Checkpoint) (pid : Z)
    (writable : bool) (fs : Files) : result Files :=
  let tmp := path ++ pystr ".tmp." ++ str_of_Z pid in
  let data := json_dumps obj in
  if writable then os_replace tmp path (<[tmp := data ++ [LF]]> fs)
  else Raise OSError.

Definition default_checkpoint (now : Z) : Checkpoint :=
  {| ck_schema_version := 1;
     ck_active := {| a_path := pystr "/data/fortigate/fortigate.log"; a_inode := None;
                     a_offset := 0; a_last_event_ts_seen := None |};
     ck_completed := Some [];
     ck_counters := {| lines_in_total := 0; bytes_in_total := 0; events_out_total := 0;
                       dlq_out_total := 0; parse_fail_total := 0; write_fail_total := 0;
                       checkpoint_fail_total := 0 |};
     ck_updated_at := now |}.

Definition load_checkpoint (now : Z) (fs : Files) : result Checkpoint :=
  match fs !! CHECKPOINT_PATH with
  | None => Return (default_checkpoint now)
  | Some content => of_option ValueError (json_load content)
  end.

(** [save_checkpoint] stamps [updated_at] on the dictionary before it
    writes, so the stamp stays even when the write raises. *)
Definition save_checkpoint (ck : Checkpoint) (now pid : Z) (writable : bool)
    (fs : Files) : Checkpoint * result Files :=
  let ck' := set_updated_at ck now in
  (ck', _atomic_write_json CHECKPOINT_PATH ck' pid writable fs).

End with_json.

Definition completed_key (path : str) (inode size mtime : Z) : str :=
  path ++ [PIPE] ++ str_of_Z inode ++ [PIPE] ++ str_of_Z size ++ [PIPE] ++ str_of_Z mtime.

Definition key_is (key : str) (item : Completed) : bool :=
  bool_decide (c_key item = Some key).

Definition is_completed (ck : Checkpoint) (path : str) (inode size mtime : Z) : bool :=
  let key := completed_key path inode size mtime in
  existsb (key_is key) (ledger ck).

(** [l[-n:]] for a positive [n] *)
Definition last_n {A} (n : nat) (l : list A) : list A := drop (length l - n) l.

Definition LEDGER_CAP : nat := 5000.

Definition new_record (path : str) (inode size mtime now : Z) : Completed :=
  {| c_key := Some (completed_key path inode size mtime); c_path := path;
     c_inode := inode; c_size := size; c_mtime := mtime; c_completed_at := now |}.

Definition mark_completed (ck : Checkpoint) (path : str) (inode size mtime now : Z)
  : Checkpoint :=
  let l := ledger ck ++ [new_record path inode size mtime now] in
  if (LEDGER_CAP <? length l)%nat then set_completed ck (last_n LEDGER_CAP l)
  else set_completed ck l.

End checkpoint.

(** ** source_file.py *)
Module source_file.
Import Py.

Definition ACTIVE_PATH : str := pystr "/data/fortigate/fortigate.log".
Definition DIR : str := pystr "/data/fortigate".

(** A file on disk: [st_ino], [int(st_mtime)] and the stored bytes;
    [st_size] is their number. *)
Record File := { f_inode : Z; f_mtime : Z; f_data : bytes }.

Definition f_size (f : File) : Z := Z.of_nat (length (f_data f)).

Abbreviation Disk := (gmap str File).

(** [SourcePosition]: the dictionary attached to every yielded line. *)
Record Source := {
  s_path : str;
  s_inode : option Z;
  s_offset : option Z;
  s_size : option Z;
  s_mtime : option Z
}.

Definition strip_prefix (pre s : str) : option str :=
  if bool_decide (take (length pre) s = pre) then Some (drop (length pre) s) else None.

Definition endswith (s suf : str) : bool :=
  bool_decide (drop (length s - length suf) s = suf).

(** [os.path.basename] *)
Definition basename (p : str) : str :=
  rev (take_while (fun c => negb (c =? 47)) (rev p)).

Fixpoint str_ltb (a b : str) : bool :=
  match a, b with
  | _, [] => false
  | [], _ :: _ => true
  | x :: a', y :: b' => (x <? y) || ((x =? y) && str_ltb a' b')
  end.

Section sorting.
Context {A : Type} (key : A -> str).

Fixpoint insert_by (x : A) (l : list A) : list A :=
  match l with
  | [] => [x]
  | y :: l' => if str_ltb (key y) (key x) then y :: insert_by x l' else x :: l
  end.

(** [l.sort(key=key)]: stable, ascending. *)
Fixpoint sort_by (l : list A) : list A :=
  match l with
  | [] => []
  | x :: l' => insert_by x (sort_by l')
  end.

End sorting.

Section with_runtime.
Context `{RT : Runtime}.

Definition at_end (s : str) : bool :=
  match s with [] => true | [c] => c =? LF | _ => false end.

(** [ROTATED_RE.match(name)], returning group 1: the name is
    [fortigate.log-], eight digits, [-], six digits, an optional [.gz]. *)
Definition ROTATED_RE_match (name : str) : option str :=
  r ← strip_prefix (pystr "fortigate.log-") name;
  let stamp := take 15 r in
  let rest := drop 15 r in
  if bool_decide (length stamp = 15%nat)
     && forallb is_digit (take 8 stamp)
     && bool_decide (take 1 (drop 8 stamp) = [MINUS])
     && forallb is_digit (drop 9 stamp)
     && (at_end rest
         || match strip_prefix (pystr ".gz") rest with
            | Some rest' => at_end rest'
            | None => false
            end)
  then Some stamp else None.

Definition key_fn (p : str) : str :=
  match ROTATED_RE_match (basename p) with
  | Some g => g
  | None => pystr "99999999-999999"
  end.

(** [list_rotated_files], from the names that [os.listdir(DIR)] returns. *)
Definition list_rotated_files (names : list str) : list str :=
  let files :=
    map (fun name => DIR ++ [47] ++ name)
        (filter (fun name => is_Some (ROTATED_RE_match name)) names) in
  sort_by key_fn files.

Definition stat_file (disk : Disk) (path : str) : result (Z * Z * Z) :=
  match disk !! path with
  | Some f => Return (f_inode f, f_size f, f_mtime f)
  | None => Raise FileNotFoundError
  end.

(** The plain branch of [read_whole_file_lines]: [offset] is advanced by
    the encoded length of each line after it is yielded. *)
Fixpoint with_offsets (path : str) (inode size mtime : Z) (lines : list str)
    (offset : Z) : list (str * Source) :=
  match lines with
  | [] => []
  | line :: rest =>
      (line, {| s_path := path; s_inode := Some inode; s_offset := Some offset;
                s_size := Some size; s_mtime := Some mtime |})
      :: with_offsets path inode size mtime rest
           (offset + Z.of_nat (length (utf8_encode line)))
  end.

Definition read_whole_file_lines (disk : Disk) (path : str)
  : result (list (str * Source)) :=
  bind (stat_file disk path) (fun '(inode, size, mtime) =>
  match disk !! path with
  | None => Raise FileNotFoundError
  | Some f =>
      if endswith path (pystr ".gz") then
        bind (of_option OSError (gzip_decompress (f_data f))) (fun data =>
        Return (map (fun line =>
                  (line, {| s_path := path; s_inode := Some inode; s_offset := None;
                            s_size := Some size; s_mtime := Some mtime |}))
                (text_lines data)))
      else Return (with_offsets path inode size mtime (text_lines (f_data f)) 0)
  end).

End with_runtime.

(** The inner [while True] of [follow_active_binary] over the bytes in
    [buf]: [cur] are the bytes before the next line feed.  Returns the
    yielded pairs, the bytes left in [buf], and [offset]. *)
Fixpoint scan_buf (buf cur : bytes) (offset : Z) : list (str * Z) * bytes * Z :=
  match buf with
  | [] => ([], cur, offset)
  | b :: buf' =>
      if b =? LF then
        let line_bytes := cur ++ [b] in
        let offset' := (offset + Z.of_nat (length line_bytes))%Z in
        let '(ys, rem, off) := scan_buf buf' [] offset' in
        ((utf8_decode line_bytes, offset') :: ys, rem, off)
      else scan_buf buf' (cur ++ [b]) offset
  end.

(** The pairs yielded while the successive non-empty results of
    [f.read(8192)] are [reads]; after them the generator sleeps and polls. *)
Fixpoint follow_reads (reads : list bytes) (buf : bytes) (offset : Z) : list (str * Z) :=
  match reads with
  | [] => []
  | chunk :: reads' =>
      let '(ys, buf', offset') := scan_buf (buf ++ chunk) [] offset in
      ys ++ follow_reads reads' buf' offset'
  end.

Definition CHUNK : nat := N.to_nat 8192.

(** The reads of a file whose bytes from the seek position on are [data]. *)
Fixpoint chunks (fuel : nat) (data : bytes) : list bytes :=
  match fuel, data with
  | S fuel', _ :: _ => take CHUNK data :: chunks fuel' (drop CHUNK data)
  | _, _ => []
  end.

(** [follow_active_binary(offset)] on the file opened at [ACTIVE_PATH] with
    contents [data]: the finite part of the stream that those contents
    give, for an [offset] that is not negative ([main] stores 0 and
    yielded offsets only; [f.seek] raises on a negative one). *)
Definition follow_active_binary (data : bytes) (offset : Z) : list (str * Z) :=
  let rest := drop (Z.to_nat offset) data in
  follow_reads (chunks (length rest) rest) [] offset.

Definition active_inode (disk : Disk) : option Z :=
  f_inode <$> disk !! ACTIVE_PATH.

End source_file.

(** ** main.py *)
Module main.
Import Py parser_fgt_v1 checkpoint source_file.

Definition METRICS_INTERVAL_SEC : Z := 10.
Definition CHECKPOINT_FLUSH_INTERVAL_SEC : Z := 2.

(** The reason handed to [_write_dlq]: the parser's, or the literal
    [parse_fail] that the loops fall back to. *)
Inductive RouteReason := from_parser (r : Reason) | parse_fail.

(** The object appended to the event sink. *)
Record EventOut := {
  eo_event : Event;
  eo_ingest_ts : str;
  eo_path : str;
  eo_inode : option Z;
  eo_offset : option Z
}.

(** The object appended to the dead-letter sink. *)
Record DlqOut := {
  do_ingest_ts : str;
  do_reason : RouteReason;
  do_source : Source;
  do_raw : str
}.

(** One call of [append_event] or [append_dlq], with its outcome: [true]
    when the line was appended, [false] when the call raised. *)
Inductive Write :=
| WEvent (e : EventOut) (appended : bool)
| WDlq (d : DlqOut) (appended : bool).

(** The state the loop works on: the checkpoint dictionary, and the sink
    calls made so far (their successful ones are the sink files). *)
Record World := { w_ck : Checkpoint; w_trace : list Write }.

(** What the surroundings answer to the router; the index is the number of
    sink calls made before. *)
Record Env := {
  sink_ok : nat -> bool;        (* does the append succeed *)
  now_utc_iso : nat -> str;     (* [datetime.now(timezone.utc).isoformat()] *)
  now_year : nat -> Z;          (* [datetime.now().year] *)
  now_epoch : nat -> Z          (* [int(time.time())] *)
}.

Definition bump (f : Counters -> Counters) (ck : Checkpoint) : Checkpoint :=
  set_counters ck (f (ck_counters ck)).

Definition inc_lines_in (c : Counters) : Counters :=
  {| lines_in_total := lines_in_total c + 1; bytes_in_total := bytes_in_total c;
     events_out_total := events_out_total c; dlq_out_total := dlq_out_total c;
     parse_fail_total := parse_fail_total c; write_fail_total := write_fail_total c;
     checkpoint_fail_total := checkpoint_fail_total c |}%Z.

Definition add_bytes_in (n : Z) (c : Counters) : Counters :=
  {| lines_in_total := lines_in_total c; bytes_in_total := bytes_in_total c + n;
     events_out_total := events_out_total c; dlq_out_total := dlq_out_total c;
     parse_fail_total := parse_fail_total c; write_fail_total := write_fail_total c;
     checkpoint_fail_total := checkpoint_fail_total c |}%Z.

Definition inc_events_out (c : Counters) : Counters :=
  {| lines_in_total := lines_in_total c; bytes_in_total := bytes_in_total c;
     events_out_total := events_out_total c + 1; dlq_out_total := dlq_out_total c;
     parse_fail_total := parse_fail_total c; write_fail_total := write_fail_total c;
     checkpoint_fail_total := checkpoint_fail_total c |}%Z.

Definition inc_dlq_out (c : Counters) : Counters :=
  {| lines_in_total := lines_in_total c; bytes_in_total := bytes_in_total c;
     events_out_total := events_out_total c; dlq_out_total := dlq_out_total c + 1;
     parse_fail_total := parse_fail_total c; write_fail_total := write_fail_total c;
     checkpoint_fail_total := checkpoint_fail_total c |}%Z.

Definition inc_parse_fail (c : Counters) : Counters :=
  {| lines_in_total := lines_in_total c; bytes_in_total := bytes_in_total c;
     events_out_total := events_out_total c; dlq_out_total := dlq_out_total c;
     parse_fail_total := parse_fail_total c + 1; write_fail_total := write_fail_total c;
     checkpoint_fail_total := checkpoint_fail_total c |}%Z.

Definition inc_write_fail (c : Counters) : Counters :=
  {| lines_in_total := lines_in_total c; bytes_in_total := bytes_in_total c;
     events_out_total := events_out_total c; dlq_out_total := dlq_out_total c;
     parse_fail_total := parse_fail_total c; write_fail_total := write_fail_total c + 1;
     checkpoint_fail_total := checkpoint_fail_total c |}%Z.

Definition inc_checkpoint_fail (c : Counters) : Counters :=
  {| lines_in_total := lines_in_total c; bytes_in_total := bytes_in_total c;
     events_out_total := events_out_total c; dlq_out_total := dlq_out_total c;
     parse_fail_total := parse_fail_total c; write_fail_total := write_fail_total c;
     checkpoint_fail_total := checkpoint_fail_total c + 1 |}%Z.

Definition set_offset (ck : Checkpoint) (inode : option Z) (offset : Z) : Checkpoint :=
  set_active ck {| a_path := a_path (ck_active ck); a_inode := inode; a_offset := offset;
                   a_last_event_ts_seen := a_last_event_ts_seen (ck_active ck) |}.

Definition set_last_event_ts (ck : Checkpoint) (ts : option str) : Checkpoint :=
  set_active ck {| a_path := a_path (ck_active ck); a_inode := a_inode (ck_active ck);
                   a_offset := a_offset (ck_active ck); a_last_event_ts_seen := ts |}.

Section with_env.
Context `{RT : Runtime} (env : Env).

Definition _write_dlq (w : World) (reason : RouteReason) (raw : str) (source : Source)
  : World :=
  let n := length (w_trace w) in
  let dlq := {| do_ingest_ts := now_utc_iso env n; do_reason := reason;
                do_source := source; do_raw := raw |} in
  if sink_ok env n then
    {| w_ck := bump inc_parse_fail (bump inc_dlq_out (w_ck w));
       w_trace := w_trace w ++ [WDlq dlq true] |}
  else
    {| w_ck := bump inc_write_fail (w_ck w);
       w_trace := w_trace w ++ [WDlq dlq false] |}.

Definition _write_event (w : World) (event : Event) (source : Source) : World :=
  let n := length (w_trace w) in
  let ev := {| eo_event := event; eo_ingest_ts := now_utc_iso env n;
               eo_path := s_path source; eo_inode := s_inode source;
               eo_offset := s_offset source |} in
  if sink_ok env n then
    let ck1 := bump inc_events_out (w_ck w) in
    let ck2 := if truthy (event_ts event) then set_last_event_ts ck1 (event_ts event)
               else ck1 in
    {| w_ck := ck2; w_trace := w_trace w ++ [WEvent ev true] |}
  else
    {| w_ck := bump inc_write_fail (w_ck w);
       w_trace := w_trace w ++ [WEvent ev false] |}.

(** The body shared by both loops, from the two counter updates to the
    router call. *)
Definition ingest_line (w : World) (raw : str) (src : Source) : result World :=
  let ck1 := bump inc_lines_in (w_ck w) in
  let ck2 := bump (add_bytes_in (Z.of_nat (length (utf8_encode raw)))) ck1 in
  let w1 := {| w_ck := ck2; w_trace := w_trace w |} in
  bind (parse_fortigate_line raw (now_year env (length (w_trace w)))) (fun '(event, dlq) =>
  match event with
  | Some e => Return (_write_event w1 e src)
  | None =>
      let reason := match dlq with
                    | Some d => from_parser (reason d)
                    | None => parse_fail
                    end in
      Return (_write_dlq w1 reason raw src)
  end).

Fixpoint ingest_lines (lines : list (str * Source)) (w : World) : result World :=
  match lines with
  | [] => Return w
  | (line, src) :: rest => bind (ingest_line w line src) (ingest_lines rest)
  end.

Definition mark_world (w : World) (path : str) (inode size mtime : Z) : World :=
  {| w_ck := mark_completed (w_ck w) path inode size mtime
               (now_epoch env (length (w_trace w)));
     w_trace := w_trace w |}.

(** [process_rotated_files] over the paths that [list_rotated_files()]
    returned, with the files found on [disk]. *)
Fixpoint process_rotated_files (disk : Disk) (paths : list str) (w : World)
  : result World :=
  match paths with
  | [] => Return w
  | path :: rest =>
      match stat_file disk path with
      | Raise FileNotFoundError => process_rotated_files disk rest w
      | Raise e => Raise e
      | OutOfFuel => OutOfFuel
      | Return (inode, size, mtime) =>
          if is_completed (w_ck w) path inode size mtime
          then process_rotated_files disk rest w
          else
            bind (read_whole_file_lines disk path) (fun lines =>
            bind (ingest_lines lines w) (fun w1 =>
            process_rotated_files disk rest (mark_world w1 path inode size mtime)))
      end
  end.

(** What the surroundings answer during one call of [process_active_tail]. *)
Record TailEnv := {
  t_inode : option Z;          (* [active_inode()] on entry *)
  t_data : option bytes;       (* the bytes of the file that [open] gets *)
  t_probe : nat -> option Z;   (* [active_inode()] after the k-th yield *)
  t_expired : nat -> bool      (* is the time budget used up after the k-th line *)
}.

(** How a call of [process_active_tail] ends: it returns, or the follower
    is left polling for bytes that the given contents do not have. *)
Inductive TailStatus := returned | polling.

Definition with_ck (w : World) (ck : Checkpoint) : World :=
  {| w_ck := ck; w_trace := w_trace w |}.

(** The test made after every yield: a new inode that differs from the
    stored one. *)
Definition inode_changed (probe stored : option Z) : option Z :=
  match probe with
  | Some new_inode =>
      if bool_decide (Some new_inode = stored) then None else Some new_inode
  | None => None
  end.

(** The [for] loop of [process_active_tail] over the yielded pairs [ys];
    [k] counts the pairs taken so far. *)
Fixpoint tail_loop (tenv : TailEnv) (ys : list (str * Z)) (k : nat) (w : World)
  : result (World * TailStatus) :=
  match ys with
  | [] => Return (w, polling)
  | (line, new_offset) :: ys' =>
      match inode_changed (t_probe tenv k) (a_inode (ck_active (w_ck w))) with
      | Some new_inode =>
          Return (with_ck w (set_offset (w_ck w) (Some new_inode) 0), returned)
      | None =>
          let src := {| s_path := ACTIVE_PATH;
                        s_inode := a_inode (ck_active (w_ck w));
                        s_offset := Some new_offset; s_size := None; s_mtime := None |} in
          bind (ingest_line w line src) (fun w1 =>
          let w2 := with_ck w1 (set_offset (w_ck w1) (a_inode (ck_active (w_ck w1)))
                                  new_offset) in
          if t_expired tenv k then Return (w2, returned)
          else tail_loop tenv ys' (S k) w2)
      end
  end.

(** The two resets made before the follower is opened. *)
Definition sync_active (ck : Checkpoint) (cur_inode : Z) : Checkpoint :=
  let ck1 := match a_inode (ck_active ck) with
             | None => set_offset ck (Some cur_inode) 0
             | Some _ => ck
             end in
  if bool_decide (a_inode (ck_active ck1) = Some cur_inode) then ck1
  else set_offset ck1 (Some cur_inode) 0.

Definition process_active_tail (tenv : TailEnv) (w : World)
  : result (World * TailStatus) :=
  match t_inode tenv with
  | None => Return (w, returned)
  | Some cur_inode =>
      let w1 := with_ck w (sync_active (w_ck w) cur_inode) in
      let offset := a_offset (ck_active (w_ck w1)) in
      match t_data tenv with
      | None => Raise FileNotFoundError
      | Some data => tail_loop tenv (follow_active_binary data offset) 0 w1
      end
  end.

End with_env.

(** Modelled from the spec: [metrics.py] (the class [MetricsWindow]) is not
    among the sources.  Section 1 of the specification treats it as "an
    opaque component consuming the checkpoint/counters and producing one
    summary record per interval"; [build_metrics] therefore reads the
    checkpoint and returns the record together with the next window, and has
    no way to write to the checkpoint. *)
Class Metrics := {
  MetricsWindow : Type;
  Metric : Type;
  new_window : MetricsWindow;
  build_metrics : MetricsWindow -> Checkpoint -> Z -> MetricsWindow * Metric
}.

Section with_loop.
Context `{RT : Runtime} `{JS : Json} `{MT : Metrics} (env : Env).

(** The variables of [main] that live across iterations, the checkpoint
    directory and the metrics sink. *)
Record Loop := {
  l_world : World;
  l_mw : MetricsWindow;
  l_last_metrics : Z;
  l_last_flush : Z;
  l_files : Files;
  l_metrics_sink : list Metric
}.

(** What the surroundings answer during one iteration of [while True]. *)
Record Iter := {
  i_names : list str;         (* [os.listdir(DIR)] *)
  i_disk : Disk;              (* the rotated files *)
  i_tail : TailEnv;
  i_now : Z;                  (* [_now_ts()] *)
  i_save_now : Z;             (* [int(time.time())] inside [save_checkpoint] *)
  i_pid : Z;
  i_checkpoint_writable : bool;
  i_metrics_ok : bool         (* does [append_metrics] succeed *)
}.

(** The checkpoint timer of [main]. *)
Definition flush_checkpoint (it : Iter) (l : Loop) (w : World) : World * Files * Z :=
  if (CHECKPOINT_FLUSH_INTERVAL_SEC <=? i_now it - l_last_flush l)%Z then
    let '(ck1, r) := save_checkpoint (w_ck w) (i_save_now it) (i_pid it)
                       (i_checkpoint_writable it) (l_files l) in
    match r with
    | Return fs => (with_ck w ck1, fs, i_now it)
    | _ => (with_ck w (bump inc_checkpoint_fail ck1), l_files l, i_now it)
    end
  else (w, l_files l, l_last_flush l).

(** The metrics timer of [main]. *)
Definition emit_metrics (it : Iter) (l : Loop) (w : World)
  : World * MetricsWindow * list Metric * Z :=
  if (METRICS_INTERVAL_SEC <=? i_now it - l_last_metrics l)%Z then
    let '(mw, metric) := build_metrics (l_mw l) (w_ck w) (i_now it) in
    if i_metrics_ok it
    then (w, mw, l_metrics_sink l ++ [metric], i_now it)
    else (with_ck w (bump inc_write_fail (w_ck w)), mw, l_metrics_sink l, i_now it)
  else (w, l_mw l, l_metrics_sink l, l_last_metrics l).

(** One turn of the [while True] loop of [main]. *)
Definition main_iteration (it : Iter) (l : Loop) : result (Loop * TailStatus) :=
  bind (process_rotated_files env (i_disk it) (list_rotated_files (i_names it))
          (l_world l)) (fun w1 =>
  bind (process_active_tail env (i_tail it) w1) (fun '(w2, st) =>
  match st with
  | polling =>
      Return ({| l_world := w2; l_mw := l_mw l; l_last_metrics := l_last_metrics l;
                 l_last_flush := l_last_flush l; l_files := l_files l;
                 l_metrics_sink := l_metrics_sink l |}, polling)
  | returned =>
      let '(w3, fs, last_flush) := flush_checkpoint it l w2 in
      let '(w4, mw, sink, last_metrics) := emit_metrics it l w3 in
      Return ({| l_world := w4; l_mw := mw; l_last_metrics := last_metrics;
                 l_last_flush := last_flush; l_files := fs;
                 l_metrics_sink := sink |}, returned)
  end)).

(** The loop of [main] for as many turns as [its] describes. *)
Fixpoint main_loop (its : list Iter) (l : Loop) : result (Loop * TailStatus) :=
  match its with
  | [] => Return (l, returned)
  | it :: its' =>
      bind (main_iteration it l) (fun '(l1, st) =>
      match st with
      | polling => Return (l1, polling)
      | returned => main_loop its' l1
      end)
  end.

(** [main] up to the loop: the checkpoint is loaded once. *)
Definition main_start (now : Z) (fs : Files) : result Loop :=
  bind (load_checkpoint now fs) (fun ck =>
  Return {| l_world := {| w_ck := ck; w_trace := [] |}; l_mw := new_window;
            l_last_metrics := now; l_last_flush := now; l_files := fs;
            l_metrics_sink := [] |}).

End with_loop.
End main.

(** ** A reference [json] codec

    [checkpoint.py] uses [json.dumps] and [json.load] as they come with the
    interpreter; the definitions of the checkpoint take them as the class
    [Json].  The codec below is the instance for checkpoint documents:
    [print] writes a document as [json.dumps] does with
    [ensure_ascii=False] and [separators=(",", ":")], and [read] is a
    reader for that grammar, as [json.load]. *)
Module json_ref.
Import Py checkpoint.

Unset Elimination Schemes.
Inductive json :=
| JNull
| JInt (z : Z)
| JStr (s : str)
| JList (l : list json)
| JObj (members : list (str * json)).
Set Elimination Schemes.

Definition hex_digit (n : N) : N := if n <? 10 then 48 + n else 87 + n.

(** One character inside a JSON string, as [json.dumps(ensure_ascii=False)]
    writes it. *)
Definition escape_char (c : N) : str :=
  if c =? DQUOTE then [BACKSLASH; DQUOTE]
  else if c =? BACKSLASH then [BACKSLASH; BACKSLASH]
  else if c =? 8 then [BACKSLASH; 98]
  else if c =? 9 then [BACKSLASH; 116]
  else if c =? 10 then [BACKSLASH; 110]
  else if c =? 12 then [BACKSLASH; 102]
  else if c =? 13 then [BACKSLASH; 114]
  else if c <? 32 then [BACKSLASH; 117; 48; 48; hex_digit (c / 16); hex_digit (c mod 16)]
  else [c].

Definition quote (s : str) : str := [DQUOTE] ++ concat (map escape_char s) ++ [DQUOTE].

Fixpoint join (sep : str) (parts : list str) : str :=
  match parts with
  | [] => []
  | [p] => p
  | p :: rest => p ++ sep ++ join sep rest
  end.

Fixpoint print (j : json) : str :=
  match j with
  | JNull => pystr "null"
  | JInt z => str_of_Z z
  | JStr s => quote s
  | JList l => [91] ++ join [44] (map print l) ++ [93]
  | JObj members =>
      [123] ++ join [44] (map (fun kv => quote (fst kv) ++ [COLON] ++ print (snd kv)) members)
      ++ [125]
  end.

Definition is_json_ws (c : N) : bool := (c =? 32) || (c =? 9) || (c =? 10) || (c =? 13).

Definition hex_value (c : N) : option N :=
  if (48 <=? c) && (c <=? 57) then Some (c - 48)
  else if (97 <=? c) && (c <=? 102) then Some (c - 87)
  else if (65 <=? c) && (c <=? 70) then Some (c - 55)
  else None.

(** The characters of a string up to its closing quote. *)
Fixpoint read_string (s : str) (acc : str) : option (str * str) :=
  match s with
  | [] => None
  | c :: r =>
      if c =? DQUOTE then Some (acc, r)
      else if c =? BACKSLASH then
        match r with
        | e :: r1 =>
            if e =? 117 then
              match r1 with
              | a :: b :: c' :: d :: r2 =>
                  match hex_value a, hex_value b, hex_value c', hex_value d with
                  | Some x, Some y, Some z, Some w =>
                      read_string r2 (acc ++ [((x * 16 + y) * 16 + z) * 16 + w])
                  | _, _, _, _ => None
                  end
              | _ => None
              end
            else
              let plain :=
                if e =? 98 then Some 8 else if e =? 116 then Some 9
                else if e =? 110 then Some 10 else if e =? 102 then Some 12
                else if e =? 114 then Some 13
                else if (e =? DQUOTE) || (e =? BACKSLASH) || (e =? 47) then Some e
                else None in
              match plain with
              | Some x => read_string r1 (acc ++ [x])
              | None => None
              end
        | [] => None
        end
      else read_string r (acc ++ [c])
  end.

Definition read_int (s : str) : option (Z * str) :=
  let '(neg, s1) := match s with
                    | c :: r => if c =? MINUS then (true, r) else (false, s)
                    | [] => (false, s)
                    end in
  let ds := take_while (fun c => (48 <=? c) && (c <=? 57)) s1 in
  match ds with
  | [] => None
  | _ :: _ =>
      let v := fold_left (fun acc c => (10 * acc + Z.of_N (c - 48))%Z) ds 0%Z in
      Some (if neg then (- v)%Z else v, drop_while (fun c => (48 <=? c) && (c <=? 57)) s1)
  end.

(** A value at the head of [s]; [fuel] bounds the nesting depth and the
    number of members of one list or object. *)
Fixpoint read_value (fuel : nat) (s : str) : option (json * str) :=
  match fuel with
  | O => None
  | S f =>
      let fix elements (n : nat) (s : str) (acc : list json) : option (list json * str) :=
        match n with
        | O => None
        | S n' =>
            '(v, r) ← read_value f s;
            match drop_while is_json_ws r with
            | c :: r' =>
                if c =? 44 then elements n' r' (acc ++ [v])
                else if c =? 93 then Some (acc ++ [v], r')
                else None
            | [] => None
            end
        end in
      let fix members (n : nat) (s : str) (acc : list (str * json))
        : option (list (str * json) * str) :=
        match n with
        | O => None
        | S n' =>
            match drop_while is_json_ws s with
            | q :: r0 =>
                if q =? DQUOTE then
                  '(k, r1) ← read_string r0 [];
                  match drop_while is_json_ws r1 with
                  | c :: r2 =>
                      if c =? COLON then
                        '(v, r3) ← read_value f r2;
                        match drop_while is_json_ws r3 with
                        | d :: r4 =>
                            if d =? 44 then members n' r4 (acc ++ [(k, v)])
                            else if d =? 125 then Some (acc ++ [(k, v)], r4)
                            else None
                        | [] => None
                        end
                      else None
                  | [] => None
                  end
                else None
            | [] => None
            end
        end in
      match drop_while is_json_ws s with
      | [] => None
      | c :: r =>
          if c =? DQUOTE then '(x, r') ← read_string r []; Some (JStr x, r')
          else if c =? 91 then
            match drop_while is_json_ws r with
            | d :: r' => if d =? 93 then Some (JList [], r')
                         else '(l, r2) ← elements f r []; Some (JList l, r2)
            | [] => None
            end
          else if c =? 123 then
            match drop_while is_json_ws r with
            | d :: r' => if d =? 125 then Some (JObj [], r')
                         else '(l, r2) ← members f r []; Some (JObj l, r2)
            | [] => None
            end
          else if c =? 110 then
            match r with
            | 117 :: 108 :: 108 :: r' => Some (JNull, r')
            | _ => None
            end
          else '(z, r') ← read_int (c :: r); Some (JInt z, r')
      end
  end.

(** [json.loads]: one value, then whitespace only. *)
Definition read (s : str) : option json :=
  '(j, r) ← read_value (length s) s;
  match drop_while is_json_ws r with
  | [] => Some j
  | _ :: _ => None
  end.

(** *** Checkpoints as documents *)

Definition opt_int (o : option Z) : json := match o with Some z => JInt z | None => JNull end.
Definition opt_str (o : option str) : json := match o with Some s => JStr s | None => JNull end.

Definition counters_to_json (c : Counters) : json :=
  JObj [(pystr "lines_in_total", JInt (lines_in_total c));
        (pystr "bytes_in_total", JInt (bytes_in_total c));
        (pystr "events_out_total", JInt (events_out_total c));
        (pystr "dlq_out_total", JInt (dlq_out_total c));
        (pystr "parse_fail_total", JInt (parse_fail_total c));
        (pystr "write_fail_total", JInt (write_fail_total c));
        (pystr "checkpoint_fail_total", JInt (checkpoint_fail_total c))].

Definition active_to_json (a : Active) : json :=
  JObj [(pystr "path", JStr (a_path a)); (pystr "inode", opt_int (a_inode a));
        (pystr "offset", JInt (a_offset a));
        (pystr "last_event_ts_seen", opt_str (a_last_event_ts_seen a))].

Definition completed_to_json (c : Completed) : json :=
  JObj (match c_key c with Some k => [(pystr "key", JStr k)] | None => [] end
        ++ [(pystr "path", JStr (c_path c)); (pystr "inode", JInt (c_inode c));
            (pystr "size", JInt (c_size c)); (pystr "mtime", JInt (c_mtime c));
            (pystr "completed_at", JInt (c_completed_at c))]).

Definition to_json (ck : Checkpoint) : json :=
  JObj ([(pystr "schema_version", JInt (ck_schema_version ck));
         (pystr "active", active_to_json (ck_active ck))]
        ++ match ck_completed ck with
           | Some l => [(pystr "completed", JList (map completed_to_json l))]
           | None => []
           end
        ++ [(pystr "counters", counters_to_json (ck_counters ck));
            (pystr "updated_at", JInt (ck_updated_at ck))]).

Fixpoint member (k : str) (ms : list (str * json)) : option json :=
  match ms with
  | [] => None
  | (k', v) :: rest => if bool_decide (k' = k) then Some v else member k rest
  end.

Definition get_int (k : string) (ms : list (str * json)) : option Z :=
  match member (pystr k) ms with Some (JInt z) => Some z | _ => None end.

Definition get_str (k : string) (ms : list (str * json)) : option str :=
  match member (pystr k) ms with Some (JStr s) => Some s | _ => None end.

Definition get_opt_int (k : string) (ms : list (str * json)) : option (option Z) :=
  match member (pystr k) ms with
  | Some (JInt z) => Some (Some z)
  | Some JNull => Some None
  | _ => None
  end.

Definition get_opt_str (k : string) (ms : list (str * json)) : option (option str) :=
  match member (pystr k) ms with
  | Some (JStr s) => Some (Some s)
  | Some JNull | None => Some None
  | _ => None
  end.

Definition counters_of_json (j : json) : option Counters :=
  match j with
  | JObj ms =>
      a ← get_int "lines_in_total" ms; b ← get_int "bytes_in_total" ms;
      c ← get_int "events_out_total" ms; d ← get_int "dlq_out_total" ms;
      e ← get_int "parse_fail_total" ms; f ← get_int "write_fail_total" ms;
      g ← get_int "checkpoint_fail_total" ms;
      Some {| lines_in_total := a; bytes_in_total := b; events_out_total := c;
              dlq_out_total := d; parse_fail_total := e; write_fail_total := f;
              checkpoint_fail_total := g |}
  | _ => None
  end.

Definition active_of_json (j : json) : option Active :=
  match j with
  | JObj ms =>
      p ← get_str "path" ms; i ← get_opt_int "inode" ms; o ← get_int "offset" ms;
      t ← get_opt_str "last_event_ts_seen" ms;
      Some {| a_path := p; a_inode := i; a_offset := o; a_last_event_ts_seen := t |}
  | _ => None
  end.

Definition completed_of_json (j : json) : option Completed :=
  match j with
  | JObj ms =>
      k ← get_opt_str "key" ms; p ← get_str "path" ms; i ← get_int "inode" ms;
      s ← get_int "size" ms; m ← get_int "mtime" ms; c ← get_int "completed_at" ms;
      Some {| c_key := k; c_path := p; c_inode := i; c_size := s; c_mtime := m;
              c_completed_at := c |}
  | _ => None
  end.

Definition of_json (j : json) : option Checkpoint :=
  match j with
  | JObj ms =>
      v ← get_int "schema_version" ms;
      a ← member (pystr "active") ms ≫= active_of_json;
      l ← match member (pystr "completed") ms with
          | None => Some None
          | Some (JList items) => Some <$> mapM completed_of_json items
          | Some _ => None
          end;
      c ← member (pystr "counters") ms ≫= counters_of_json;
      u ← get_int "updated_at" ms;
      Some {| ck_schema_version := v; ck_active := a; ck_completed := l;
              ck_counters := c; ck_updated_at := u |}
  | _ => None
  end.

Definition codec : Json := {|
  json_dumps := fun ck => print (to_json ck);
  json_load := fun s => read s ≫= of_json
|}.

End json_ref.

(** ** Concrete inputs used by the closed statements below *)
Module Examples.
Import Py parser_fgt_v1 checkpoint source_file main.

(** The body of the key/value example: the tokens [a=1], [b=] followed by
    a quoted value with a backslash-escaped quote, and [c=]. *)
Definition kv_example_body : str :=
  pystr "a=1 b=" ++ [DQUOTE] ++ pystr "x" ++ [BACKSLASH; DQUOTE] ++ pystr "y"
  ++ [DQUOTE] ++ pystr " c=".

Definition kv_example_result : gmap str str :=
  <[pystr "a" := pystr "1"]> (<[pystr "b" := pystr "x" ++ [DQUOTE] ++ pystr "y"]>
  (<[pystr "c" := []]> ∅)).

(** A line with a raw NUL. *)
Definition nul_line : str := pystr "Jan  5 03:04:05 fw01 type=traffic" ++ [0; LF].

(** The key/value mapping of the timestamp example, for a given [tz]. *)
Definition ts_kv (tz : str) : gmap str str :=
  <[pystr "date" := pystr "2023-12-31"]> (<[pystr "time" := pystr "23:59:59"]>
  (<[pystr "tz" := tz]> ∅)).

Definition ts_example_dt : datetime :=
  {| year := 2023; month := 12; day := 31; hour := 23; minute := 59; second := 59;
     microsecond := 0; tzinfo := None |}.

(** A checkpoint after some work: one completed file, an active pointer
    with a timestamp seen, counters above zero. *)
Local Open Scope Z_scope.
Definition busy_checkpoint : Checkpoint :=
  {| ck_schema_version := 1;
     ck_active := {| a_path := pystr "/data/fortigate/fortigate.log"; a_inode := Some 4711;
                     a_offset := 2048;
                     a_last_event_ts_seen := Some (pystr "2023-12-31T23:59:59+05:30") |};
     ck_completed :=
       Some [new_record (pystr "/data/fortigate/fortigate.log-20231231-000000.gz")
               4242 1000 1704000000 1704000100];
     ck_counters := {| lines_in_total := 12; bytes_in_total := 3400; events_out_total := 9;
                       dlq_out_total := 2; parse_fail_total := 2; write_fail_total := 1;
                       checkpoint_fail_total := 0 |};
     ck_updated_at := 1704000000 |}.
Local Close Scope Z_scope.

(** A plain rotated file whose first line holds a byte that is not UTF-8:
    the bytes FF 0A 41 0A. *)
Definition garbled_path : str := pystr "/data/fortigate/fortigate.log-20240101-000000".

Definition garbled_file : File := {| f_inode := 11; f_mtime := 1704067200;
                                     f_data := [255; 10; 65; 10] |}.

Definition garbled_disk : Disk := {[ garbled_path := garbled_file ]}.

(** A plain rotated file with a carriage return before the first line
    feed: the bytes 61 0D 0A 62 0A. *)
Definition crlf_file : File := {| f_inode := 12; f_mtime := 1704067200;
                                  f_data := [97; 13; 10; 98; 10] |}.

Definition crlf_disk : Disk := {[ garbled_path := crlf_file ]}.

Definition plain_source (f : File) (offset : Z) : Source :=
  {| s_path := garbled_path; s_inode := Some (f_inode f); s_offset := Some offset;
     s_size := Some (f_size f); s_mtime := Some (f_mtime f) |}.

(** *** A rotation between two turns of the loop *)

(** Surroundings in which every sink write succeeds. *)
Definition quiet_env : Env :=
  {| sink_ok := fun _ => true;
     now_utc_iso := fun _ => pystr "2024-01-05T03:05:00+00:00";
     now_year := fun _ => 2024%Z;
     now_epoch := fun _ => 1704423900%Z |}.

(** Surroundings in which every sink write fails. *)
Definition failing_env : Env :=
  {| sink_ok := fun _ => false;
     now_utc_iso := fun _ => pystr "2024-01-05T03:05:00+00:00";
     now_year := fun _ => 2024%Z;
     now_epoch := fun _ => 1704423900%Z |}.

(** A metrics window that reports the counters. *)
Definition counters_metrics : Metrics :=
  {| MetricsWindow := unit; Metric := Counters; new_window := tt;
     build_metrics := fun _ ck _ => (tt, ck_counters ck) |}.

Definition ok_line : str :=
  pystr "Jan  5 03:04:05 fw01 type=traffic subtype=forward action=accept srcip=10.0.0.1 dstip=8.8.8.8 srcport=5000 dstport=443 proto=6"
  ++ [LF].

Definition bad_line : str := pystr "not a syslog line" ++ [LF].

Definition next_line : str :=
  pystr "Jan  5 03:05:01 fw01 type=traffic subtype=forward action=deny" ++ [LF].

(** The active file A (inode 11) with two lines, and the file B (inode 12)
    that takes its place; all characters are ASCII, so the bytes are the
    code points. *)
Definition inode_a : Z := 11.
Definition inode_b : Z := 12.
Definition file_a : bytes := ok_line ++ bad_line.
Definition file_b : bytes := next_line.

Definition rotated_name : str := pystr "fortigate.log-20240105-030500".
Definition rotated_path : str := DIR ++ [47] ++ rotated_name.

Definition rotated_a : File :=
  {| f_inode := inode_a; f_mtime := 1704423900; f_data := file_a |}.

(** The directory after A was renamed. *)
Definition disk_after_rotation : Disk := {[ rotated_path := rotated_a ]}.

(** What the reader yields for the rotated copy of A. *)
Definition lines_of_a : list (str * Source) :=
  match read_whole_file_lines (RT:=basic_runtime) disk_after_rotation rotated_path with
  | Return ys => ys
  | _ => []
  end.

(** The slice that follows A: both lines arrive, then the budget ends. *)
Definition tail_of_a : TailEnv :=
  {| t_inode := Some inode_a; t_data := Some file_a;
     t_probe := fun _ => Some inode_a; t_expired := fun k => (1 <=? k)%nat |}.

(** The slice after the rotation: the active path is B. *)
Definition tail_of_b : TailEnv :=
  {| t_inode := Some inode_b; t_data := Some file_b;
     t_probe := fun _ => Some inode_b; t_expired := fun _ => true |}.

(** First turn: no rotated file yet.  Second turn: A is found rotated. *)
Definition first_turn : Iter :=
  {| i_names := []; i_disk := ∅; i_tail := tail_of_a;
     i_now := 1704423850; i_save_now := 1704423850; i_pid := 321;
     i_checkpoint_writable := true; i_metrics_ok := true |}.

Definition second_turn : Iter :=
  {| i_names := [rotated_name]; i_disk := disk_after_rotation; i_tail := tail_of_b;
     i_now := 1704423910; i_save_now := 1704423910; i_pid := 321;
     i_checkpoint_writable := false; i_metrics_ok := false |}.

(** [main] after [load_checkpoint] found no file. *)
Definition start_loop : Loop (MT:=counters_metrics) :=
  @Build_Loop counters_metrics
    {| w_ck := default_checkpoint 1704423840; w_trace := [] |}
    tt 1704423840 1704423840 ∅ [].

(** The state after the first turn, and after both. *)
Definition after_first_turn : Loop (MT:=counters_metrics) :=
  match main_loop (RT:=basic_runtime) (JS:=json_ref.codec) quiet_env [first_turn]
          start_loop with
  | Return (l, _) => l
  | _ => start_loop
  end.

Definition after_second_turn : Loop (MT:=counters_metrics) :=
  match main_loop (RT:=basic_runtime) (JS:=json_ref.codec) quiet_env
          [first_turn; second_turn] start_loop with
  | Return (l, _) => l
  | _ => start_loop
  end.

End Examples.

(** ** The parser rules in the words of the specification

    Section 4.5 of the specification names the dead-letter rules by what a
    line looks like; the definitions below say the same without reference
    to the code, so that the parser can be compared with them. *)
Module ParserSpec.
Import Py parser_fgt_v1.

(** The line after the trailing-newline trim. *)
Definition trimmed (raw_line : str) : str := rstrip (N.eqb LF) raw_line.

(** A control character: a code point below 9, or from 11 to 31 inclusive. *)
Definition control_char (c : N) : Prop := c < 9 \/ (11 <= c /\ c <= 31).

#[export] Instance control_char_dec (c : N) : Decision (control_char c).
Proof. unfold control_char. apply _. Defined.

(** Rule 2: a NUL, or more than five control characters. *)
Definition non_text (line : str) : Prop :=
  In 0 line \/ (5 < length (filter control_char line))%nat.

(** The twelve canonical English month abbreviations. *)
Definition canonical_months : list str :=
  map pystr ["Jan"; "Feb"; "Mar"; "Apr"; "May"; "Jun";
             "Jul"; "Aug"; "Sep"; "Oct"; "Nov"; "Dec"]%string.

(** The offset, in microseconds, of a [tz] with sign [sg] and digit values
    [v1 v2] for the hours and [v3 v4] for the minutes. *)
Definition tz_offset (sg v1 v2 v3 v4 : N) : Z :=
  let sign := if sg =? PLUS then 1%Z else (-1)%Z in
  (sign * (Z.of_N (10 * v1 + v2) * 3600 + Z.of_N (10 * v3 + v4) * 60) * 1000000)%Z.

(** An ASCII decimal digit, and the number that a run of them writes. *)
Definition ascii_digit (c : N) : Prop := 48 <= c /\ c <= 57.

Definition number (ds : str) : Z :=
  fold_left (fun acc c => (10 * acc + Z.of_N (c - 48))%Z) ds 0%Z.

(** Well-formed [date] and [time] values: [date] is YYYY-MM-DD and [time]
    is HH:MM:SS, in ASCII digits, and the six numbers are a date and a time
    of the calendar; [dt] is that timestamp, which has no offset. *)
Definition well_formed (date time : str) (dt : datetime) : Prop :=
  exists y m d hh mm ss,
    date = y ++ [MINUS] ++ m ++ [MINUS] ++ d
    /\ time = hh ++ [COLON] ++ mm ++ [COLON] ++ ss
    /\ length y = 4%nat /\ length m = 2%nat /\ length d = 2%nat
    /\ length hh = 2%nat /\ length mm = 2%nat /\ length ss = 2%nat
    /\ Forall ascii_digit (y ++ m ++ d ++ hh ++ mm ++ ss)
    /\ mk_datetime (number y) (number m) (number d) (number hh) (number mm) (number ss)
       = Some dt.

Section with_runtime.
Context `{RT : Runtime}.

(** A separator of the envelope: one or more whitespace characters. *)
Definition separator (ws : str) : Prop :=
  ws <> [] /\ Forall (fun c => is_space c = true) ws.

(** A capitalized three-letter month. *)
Definition month_shape (mon : str) : Prop :=
  exists a b c, mon = [a; b; c]
    /\ is_upper a = true /\ is_lower b = true /\ is_lower c = true.

(** A day of one or two digits. *)
Definition day_shape (day : str) : Prop :=
  (1 <= length day <= 2)%nat /\ Forall (fun c => is_digit c = true) day.

(** A time of the form HH:MM:SS. *)
Definition time_shape (time : str) : Prop :=
  exists h1 h2 m1 m2 s1 s2,
    time = [h1; h2; COLON; m1; m2; COLON; s1; s2]
    /\ Forall (fun c => is_digit c = true) [h1; h2; m1; m2; s1; s2].

(** A host: one token without whitespace. *)
Definition host_shape (host : str) : Prop :=
  host <> [] /\ Forall (fun c => is_space c = false) host.

(** The body: the remainder of the line, up to an optional final line feed. *)
Definition body_shape (body : str) : Prop := Forall (fun c => c <> LF) body.

(** The envelope grammar: month, day, time, host and body, separated by
    whitespace. *)
Definition envelope (line mon day time host body : str) : Prop :=
  exists ws1 ws2 ws3 ws4 nl,
    line = mon ++ ws1 ++ day ++ ws2 ++ time ++ ws3 ++ host ++ ws4 ++ body ++ nl
    /\ month_shape mon /\ separator ws1 /\ day_shape day /\ separator ws2
    /\ time_shape time /\ separator ws3 /\ host_shape host /\ separator ws4
    /\ body_shape body /\ (nl = [] \/ nl = [LF]).

Definition matches_envelope (line : str) : Prop :=
  exists mon day time host body, envelope line mon day time host body.

(** The [tz] value after the two strips of [parse_event_ts]. *)
Definition tz_cleaned (tz : str) : str := strip (N.eqb DQUOTE) (strip is_space tz).

(** The form [+-]HHMM: a sign and four digits. *)
Definition tz_pattern (s : str) : Prop :=
  exists sg d1 d2 d3 d4, s = [sg; d1; d2; d3; d4]
    /\ (sg = PLUS \/ sg = MINUS)
    /\ Forall (fun c => is_digit c = true) [d1; d2; d3; d4].

(** The parser dead-letters [raw_line] with reason [r]. *)
Definition dead_letters (raw_line : str) (now_year : Z) (r : Reason) : Prop :=
  parse_fortigate_line raw_line now_year
  = Return (None, Some {| reason := r; dlq_raw := raw_line |}).

End with_runtime.
End ParserSpec.

(** ** Runs of [mark_completed] *)
Module LedgerSpec.
Import Py checkpoint.

(** The arguments of one [mark_completed] call and the time it reads. *)
Record MarkCall := {
  mc_path : str; mc_inode : Z; mc_size : Z; mc_mtime : Z; mc_now : Z
}.

Definition mark (ck : Checkpoint) (c : MarkCall) : Checkpoint :=
  mark_completed ck (mc_path c) (mc_inode c) (mc_size c) (mc_mtime c) (mc_now c).

(** The record that a call appends. *)
Definition record_of (c : MarkCall) : Completed :=
  new_record (mc_path c) (mc_inode c) (mc_size c) (mc_mtime c) (mc_now c).

(** The calls made one after the other. *)
Definition mark_all (ck : Checkpoint) (calls : list MarkCall) : Checkpoint :=
  fold_left mark calls ck.

(** Calls for one and the same identity, made at the given times. *)
Definition same_identity (path : str) (inode size mtime : Z) (times : list Z)
  : list MarkCall :=
  map (fun t => {| mc_path := path; mc_inode := inode; mc_size := size;
                   mc_mtime := mtime; mc_now := t |}) times.

(** 5001 calls for files with inodes 0 to 5000. *)
#[warnings="-abstract-large-number"]
Definition many_calls : list MarkCall :=
  map (fun i => {| mc_path := pystr "/data/fortigate/fortigate.log-20240101-000000";
                   mc_inode := Z.of_nat i; mc_size := 10; mc_mtime := 20;
                   mc_now := 30 |})
      (seq 0 5001).

End LedgerSpec.

(** ** File contents *)
Module SourceSpec.
Import Py.

(** Bytes that are ASCII and hold no carriage return. *)
Definition plain_ascii (data : bytes) : Prop :=
  Forall (fun b => b < 128 /\ b <> CR) data.

End SourceSpec.

(** ** Observations on the orchestrator *)
Module MainSpec.
Import Py parser_fgt_v1 checkpoint source_file main.

(** No counter of [c2] is below its value in [c1]. *)
Definition counters_le (c1 c2 : Counters) : Prop :=
  (lines_in_total c1 <= lines_in_total c2
   /\ bytes_in_total c1 <= bytes_in_total c2
   /\ events_out_total c1 <= events_out_total c2
   /\ dlq_out_total c1 <= dlq_out_total c2
   /\ parse_fail_total c1 <= parse_fail_total c2
   /\ write_fail_total c1 <= write_fail_total c2
   /\ checkpoint_fail_total c1 <= checkpoint_fail_total c2)%Z.

Definition world_le (w1 w2 : World) : Prop :=
  counters_le (ck_counters (w_ck w1)) (ck_counters (w_ck w2)).

(** The raw line that a sink call was made for. *)
Definition raw_of (x : Write) : str :=
  match x with
  | WEvent e _ => raw (eo_event e)
  | WDlq d _ => do_raw d
  end.

(** The position that a sink call carries. *)
Definition inode_of (x : Write) : option Z :=
  match x with
  | WEvent e _ => eo_inode e
  | WDlq d _ => s_inode (do_source d)
  end.

(** How often a line was handed to the router. *)
Definition times_routed (line : str) (trace : list Write) : nat :=
  length (filter (fun x => raw_of x = line) trace).

(** The path that a sink call carries. *)
Definition path_of (x : Write) : str :=
  match x with
  | WEvent e _ => eo_path e
  | WDlq d _ => s_path (do_source d)
  end.

(** A record with [key] is in the ledger, and so few records come after
    it that [n] more calls of [mark_completed] leave it there. *)
Definition survives (n : nat) (ck : Checkpoint) (key : str) : Prop :=
  exists before item after,
    ledger ck = before ++ item :: after
    /\ c_key item = Some key
    /\ (length after + n < LEDGER_CAP)%nat.

End MainSpec.

(** ** Vocabulary for further properties of the sources *)

(** *** Key/value bodies as a writer would produce them *)
Module KvSpec.
Import Py parser_fgt_v1.

(** A value inside double quotes: backslash and quote are escaped. *)
Definition kv_escape (v : str) : str :=
  concat (map (fun c => if (c =? BACKSLASH) || (c =? DQUOTE) then [BACKSLASH; c] else [c]) v).

Record Token := { t_key : str; t_quoted : bool; t_value : str }.

Definition render_token (t : Token) : str :=
  t_key t ++ [EQUALS]
  ++ (if t_quoted t then [DQUOTE] ++ kv_escape (t_value t) ++ [DQUOTE] else t_value t).

(** The tokens, separated by single spaces. *)
Fixpoint render (ts : list Token) : str :=
  match ts with
  | [] => []
  | [t] => render_token t
  | t :: ts' => render_token t ++ [SPACE] ++ render ts'
  end.

(** A key: not empty, without [=] and without space. *)
Definition good_key (k : str) : Prop :=
  k <> [] /\ Forall (fun c => c <> EQUALS /\ c <> SPACE) k.

(** A token the grammar reads back: any value when quoted; without quotes,
    a value without space that does not start with a quote. *)
Definition good_token (t : Token) : Prop :=
  good_key (t_key t)
  /\ (t_quoted t = false ->
      Forall (fun c => c <> SPACE) (t_value t) /\ head (t_value t) <> Some DQUOTE).

(** The mapping that the tokens denote, a later token winning over an
    earlier one with the same key. *)
Definition kv_of (ts : list Token) : gmap str str :=
  fold_left (fun m t => <[t_key t := t_value t]> m) ts ∅.

End KvSpec.

(** *** Decimal numerals *)
Module IntSpec.
Import Py.

(** The value of a decimal numeral read from the left with [acc] as the
    value of the digits before it. *)
Fixpoint uint_value (d : Decimal.uint) (acc : N) : N :=
  match d with
  | Decimal.Nil => acc
  | Decimal.D0 d => uint_value d (10 * acc)
  | Decimal.D1 d => uint_value d (10 * acc + 1)
  | Decimal.D2 d => uint_value d (10 * acc + 2)
  | Decimal.D3 d => uint_value d (10 * acc + 3)
  | Decimal.D4 d => uint_value d (10 * acc + 4)
  | Decimal.D5 d => uint_value d (10 * acc + 5)
  | Decimal.D6 d => uint_value d (10 * acc + 6)
  | Decimal.D7 d => uint_value d (10 * acc + 7)
  | Decimal.D8 d => uint_value d (10 * acc + 8)
  | Decimal.D9 d => uint_value d (10 * acc + 9)
  end.

Section with_runtime.
Context `{RT : Runtime}.

(** A character that [int()] can accept somewhere in its argument. *)
Definition int_char (c : N) : Prop :=
  int_space c = true \/ is_digit c = true \/ c = PLUS \/ c = MINUS \/ c = UNDERSCORE.

End with_runtime.
End IntSpec.


(** *** The identity of a rotated file *)
Module IdentitySpec.
Import Py checkpoint LedgerSpec.

(** The call marks the file with this path, inode, size and mtime. *)
Definition marks (c : MarkCall) (path : str) (inode size mtime : Z) : Prop :=
  mc_path c = path /\ mc_inode c = inode /\ mc_size c = size /\ mc_mtime c = mtime.

End IdentitySpec.

(** *** Lines of a file *)
Module LineSpec.
Import Py.

(** A complete line: bytes without a line feed, closed by one. *)
Definition complete_line (l : bytes) : Prop :=
  exists body, l = body ++ [LF] /\ Forall (fun b => b <> LF) body.

(** Bytes that do not close a line. *)
Definition unfinished (bs : bytes) : Prop := Forall (fun b => b <> LF) bs.

(** The lines decoded, each with the byte position of its end, counted from
    [offset] at the start of the first. *)
Fixpoint with_ends (lines : list bytes) (offset : Z) : list (str * Z) :=
  match lines with
  | [] => []
  | l :: ls =>
      let offset' := (offset + Z.of_nat (length l))%Z in
      (utf8_decode l, offset') :: with_ends ls offset'
  end.

(** A Unicode scalar value: a code point that is not a surrogate. *)
Definition scalar (c : N) : Prop := c < 1114112 /\ ~ (55296 <= c /\ c <= 57343).

(** A line of text: characters other than line feed and carriage return,
    closed by a line feed, or not closed and then not empty. *)
Definition text_line (l : str) : Prop :=
  exists body, Forall (fun c => c <> LF /\ c <> CR) body
               /\ (l = body ++ [LF] \/ (l = body /\ body <> [])).

End LineSpec.

(** *** Accounts of the router *)
Module RouterSpec.
Import Py parser_fgt_v1 checkpoint source_file main MainSpec.







(** The event timestamp remembered after a sink call: that of an appended
    event that has one. *)
Definition seen_after (seen : option str) (x : Write) : option str :=
  match x with
  | WEvent e true =>
      if truthy (event_ts (eo_event e)) then event_ts (eo_event e) else seen
  | _ => seen
  end.

(** [w'] is [w] after the sink calls [new], as far as the remembered
    timestamp goes. *)
Definition remembers (w w' : World) (new : list Write) : Prop :=
  w_trace w' = w_trace w ++ new
  /\ a_last_event_ts_seen (ck_active (w_ck w'))
     = fold_left seen_after new (a_last_event_ts_seen (ck_active (w_ck w))).

End RouterSpec.

(** ** sink_jsonl.py *)
Module sink_jsonl.
Import Py checkpoint.

Definition PARSED_DIR : str := pystr "/data/fortigate/parsed".
Definition EVENTS_PREFIX : str := pystr "events".
Definition DLQ_PREFIX : str := pystr "dlq".
Definition METRICS_PATH : str := pystr "/data/fortigate/parsed/metrics.jsonl".

(** The fields of [time.struct_time] that [_hour_key] reads. *)
Record struct_time := { tm_year : Z; tm_mon : Z; tm_mday : Z; tm_hour : Z }.

(** [os.path.join(a, b)] on POSIX. *)
Definition os_path_join (a b : str) : str :=
  match b with
  | c :: _ => if c =? 47 then b
              else if bool_decide (a = []) || (bool_decide (last a = Some 47)) then a ++ b
              else a ++ [47] ++ b
  | [] => if bool_decide (a = []) || (bool_decide (last a = Some 47)) then a else a ++ [47]
  end.

Section with_surroundings.
(* [time.localtime] with the time zone of the process, and [json.dumps]
   with the separators of the source on the objects handed to the sinks *)
Context (localtime : Z -> struct_time) {Obj : Type} (dumps : Obj -> str).

Definition _hour_key (ts_epoch : Z) : str :=
  let t := localtime ts_epoch in
  zpad 4 (tm_year t) ++ zpad 2 (tm_mon t) ++ zpad 2 (tm_mday t) ++ [MINUS]
  ++ zpad 2 (tm_hour t).

Definition _path_for (prefix hour_key : str) : str :=
  os_path_join PARSED_DIR (prefix ++ [MINUS] ++ hour_key ++ pystr ".jsonl").

(** [open(path, "a")] followed by one [write]: the file is created when it
    is missing.  [writable] tells whether directory and file can be opened
    and written. *)
Definition append_text (path line : str) (writable : bool) (fs : Files) : result Files :=
  if writable then Return (<[path := default [] (fs !! path) ++ line]> fs)
  else Raise OSError.

Definition append_jsonl (prefix : str) (ts_epoch : Z) (obj : Obj) (writable : bool)
    (fs : Files) : result Files :=
  let hour_key := _hour_key ts_epoch in
  let path := _path_for prefix hour_key in
  let line := dumps obj ++ [LF] in
  append_text path line writable fs.

Definition append_event (ts_epoch : Z) (event : Obj) : bool -> Files -> result Files :=
  append_jsonl EVENTS_PREFIX ts_epoch event.

Definition append_dlq (ts_epoch : Z) (dlq : Obj) : bool -> Files -> result Files :=
  append_jsonl DLQ_PREFIX ts_epoch dlq.

Definition append_metrics (metric_obj : Obj) (writable : bool) (fs : Files)
  : result Files :=
  let line := dumps metric_obj ++ [LF] in
  append_text METRICS_PATH line writable fs.

End with_surroundings.
End sink_jsonl.

(** *** Runs of sink calls *)
Module SinkSpec.
Import Py checkpoint sink_jsonl.

Section with_surroundings.
Context (localtime : Z -> struct_time) {Obj : Type} (dumps : Obj -> str).

(** One call of a sink, with whether its file can be written. *)
Inductive SinkCall :=
| to_events (ts_epoch : Z) (obj : Obj) (writable : bool)
| to_dlq (ts_epoch : Z) (obj : Obj) (writable : bool)
| to_metrics (obj : Obj) (writable : bool).

Definition call (c : SinkCall) (fs : Files) : result Files :=
  match c with
  | to_events ts obj wr => append_event localtime dumps ts obj wr fs
  | to_dlq ts obj wr => append_dlq localtime dumps ts obj wr fs
  | to_metrics obj wr => append_metrics dumps obj wr fs
  end.

(** The calls made one after the other; a call that raises leaves the files
    as they are, as under the [try] blocks of the router. *)
Fixpoint run (calls : list SinkCall) (fs : Files) : Files :=
  match calls with
  | [] => fs
  | c :: calls' =>
      match call c fs with
      | Return fs' => run calls' fs'
      | _ => run calls' fs
      end
  end.

(** The line that a call appends to the event file of the hour [hour_key]:
    nothing unless it is a successful event call of that hour. *)
Definition event_line (hour_key : str) (c : SinkCall) : str :=
  match c with
  | to_events ts obj true =>
      if bool_decide (_hour_key localtime ts = hour_key) then dumps obj ++ [LF] else []
  | _ => []
  end.

End with_surroundings.
End SinkSpec.

(** *** Names of rotated files *)
Module RotatedSpec.
Import Py parser_fgt_v1 source_file.

Section with_runtime.
Context `{RT : Runtime}.

(** The names that [ROTATED_RE] describes: [fortigate.log-], a date of
    eight digits, [-], a time of six digits, optionally [.gz], and nothing
    after it but possibly one line feed; [stamp] is date, [-] and time. *)
Definition rotated_name (name stamp : str) : Prop :=
  exists date time suffix nl,
    name = pystr "fortigate.log-" ++ date ++ [MINUS] ++ time ++ suffix ++ nl
    /\ length date = 8%nat /\ length time = 6%nat
    /\ Forall (fun c => is_digit c = true) date
    /\ Forall (fun c => is_digit c = true) time
    /\ (suffix = [] \/ suffix = pystr ".gz")
    /\ (nl = [] \/ nl = [LF])
    /\ stamp = date ++ [MINUS] ++ time.

End with_runtime.
End RotatedSpec.

(** ** The reference [json] codec: the loops of the reader *)
Module JsonSpec.
Import Py checkpoint json_ref.

(** The element loop of [read_value] for a list, with the reader of the
    elements as a parameter. *)
Definition read_elements (rv : str -> option (json * str))
  : nat -> str -> list json -> option (list json * str) :=
  fix elements (n : nat) (s : str) (acc : list json) : option (list json * str) :=
    match n with
    | O => None
    | S n' =>
        '(v, r) ← rv s;
        match drop_while is_json_ws r with
        | c :: r' =>
            if c =? 44 then elements n' r' (acc ++ [v])
            else if c =? 93 then Some (acc ++ [v], r')
            else None
        | [] => None
        end
    end.

(** The member loop of [read_value] for an object. *)
Definition read_members (rv : str -> option (json * str))
  : nat -> str -> list (str * json) -> option (list (str * json) * str) :=
  fix members (n : nat) (s : str) (acc : list (str * json))
    : option (list (str * json) * str) :=
    match n with
    | O => None
    | S n' =>
        match drop_while is_json_ws s with
        | q :: r0 =>
            if q =? DQUOTE then
              '(k, r1) ← read_string r0 [];
              match drop_while is_json_ws r1 with
              | c :: r2 =>
                  if c =? COLON then
                    '(v, r3) ← rv r2;
                    match drop_while is_json_ws r3 with
                    | d :: r4 =>
                        if d =? 44 then members n' r4 (acc ++ [(k, v)])
                        else if d =? 125 then Some (acc ++ [(k, v)], r4)
                        else None
                    | [] => None
                    end
                  else None
              | [] => None
              end
            else None
        | [] => None
        end
    end.

(** The fuel that [read_value] needs for a document: one more than the
    nesting depth and than the number of members of any list or object. *)
Fixpoint need (j : json) : nat :=
  match j with
  | JList l => S (Nat.max (length l) (fold_right (fun e n => Nat.max (need e) n) 0%nat l))
  | JObj ms =>
      S (Nat.max (length ms)
           (fold_right (fun kv n => Nat.max (need (snd kv)) n) 0%nat ms))
  | _ => 1%nat
  end.

(** What may follow a number: anything but an ASCII digit. *)
Definition ends_number (rest : str) : Prop :=
  match rest with
  | c :: _ => (48 <=? c) && (c <=? 57) = false
  | [] => True
  end.

(** The character a printed document starts with: it tells its kind. *)
Definition opening (c : N) : Prop :=
  c = 110 \/ c = DQUOTE \/ c = 91 \/ c = 123 \/ c = MINUS \/ 48 <= c <= 57.

End JsonSpec.
(** *** Further concrete inputs *)
Module MoreExamples.
Import Py parser_fgt_v1 checkpoint source_file main KvSpec LedgerSpec Examples.

(** The tokens [a=1], [b=] with the quoted value x, quote, y, and [c=]. *)
Definition three_tokens : list Token :=
  [ {| t_key := pystr "a"; t_quoted := false; t_value := pystr "1" |};
    {| t_key := pystr "b"; t_quoted := true; t_value := pystr "x" ++ [DQUOTE] ++ pystr "y" |};
    {| t_key := pystr "c"; t_quoted := false; t_value := [] |} ].

(** Calls of [mark_completed] for two rotated files. *)
Definition call_a : MarkCall :=
  {| mc_path := pystr "/data/fortigate/fortigate.log-20231231-000000";
     mc_inode := 99; mc_size := 11; mc_mtime := 20; mc_now := 25 |}.

Definition call_b : MarkCall :=
  {| mc_path := pystr "/data/fortigate/fortigate.log-20231231-010000";
     mc_inode := 100; mc_size := 11; mc_mtime := 21; mc_now := 26 |}.

(** A rotated file with text outside ASCII: e with acute accent, line feed,
    the euro sign, a, line feed. *)
Definition accent_text : str := [233; LF; 8364; 97; LF].

Definition accent_file : File :=
  {| f_inode := 21; f_mtime := 5; f_data := utf8_encode accent_text |}.

Definition accent_path : str := pystr "/data/fortigate/fortigate.log-20240102-000000".

Definition accent_disk : Disk := {[ accent_path := accent_file ]}.

(** A state whose pointer stands after the first line of A. *)
Definition mid_world : World :=
  {| w_ck := set_offset (default_checkpoint 0) (Some inode_a) (Z.of_nat (length ok_line));
     w_trace := [] |}.

End MoreExamples.

(** * Properties *)

(** ** Facts about the runtime fragment *)
Module PyFacts.
Import Py.

Section spans.
Context {A : Type} (p : A -> bool).

Lemma take_drop_while (l : list A) : take_while p l ++ drop_while p l = l.
Proof. induction l as [|x l IH]; simpl; [done|]. destruct (p x); simpl; congruence. Qed.

Lemma drop_while_length (l : list A) : (length (drop_while p l) <= length l)%nat.
Proof. induction l as [|x l IH]; simpl; [lia|]. destruct (p x); simpl; lia. Qed.

Lemma take_while_Forall (l : list A) : Forall (fun x => p x = true) (take_while p l).
Proof.
  induction l as [|x l IH]; simpl; [constructor|].
  destruct (p x) eqn:E; constructor; auto.
Qed.

Lemma drop_while_head (x : A) (l' l : list A) : drop_while p l = x :: l' -> p x = false.
Proof.
  induction l as [|y l IH]; simpl; [done|].
  destruct (p y) eqn:E; [auto|]. intros [= -> _]. done.
Qed.

Lemma drop_while_stop (x : A) (l : list A) :
  p x = false -> drop_while p (x :: l) = x :: l.
Proof. intros H. simpl. by rewrite H. Qed.

Lemma take_while_all (l : list A) :
  Forall (fun x => p x = true) l -> take_while p l = l /\ drop_while p l = [].
Proof.
  induction 1 as [|x l Hx _ [IH1 IH2]]; simpl; [done|].
  rewrite Hx, IH1, IH2. done.
Qed.

Lemma take_while_app_stop (l1 : list A) (x : A) (l2 : list A) :
  Forall (fun y => p y = true) l1 -> p x = false ->
  take_while p (l1 ++ x :: l2) = l1 /\ drop_while p (l1 ++ x :: l2) = x :: l2.
Proof.
  intros H Hx. induction H as [|y l1 Hy _ [IH1 IH2]]; simpl.
  - rewrite Hx. done.
  - rewrite Hy, IH1, IH2. done.
Qed.

End spans.
End PyFacts.

(** ** Facts about the parser *)
Module ParserFacts.
Import Py PyFacts parser_fgt_v1 ParserSpec Examples.

Lemma scan_quoted_length (s : str) :
  forall acc, (length (scan_quoted s acc).2 <= length s)%nat.
Proof.
  induction s as [s IH] using (induction_ltof1 _ (@length N)). unfold ltof in IH.
  intros acc. destruct s as [|ch rest]; simpl; [lia|].
  destruct (ch =? BACKSLASH).
  - destruct rest as [|nxt rest'].
    + destruct (ch =? DQUOTE); simpl; lia.
    + specialize (IH rest' ltac:(simpl; lia) (acc ++ [nxt])). simpl. lia.
  - destruct (ch =? DQUOTE); simpl; [lia|].
    specialize (IH rest ltac:(simpl; lia) (acc ++ [ch])). lia.
Qed.

Lemma parse_kv_loop_returns (fuel : nat) :
  forall (s : str) (out : gmap str str),
    (length s <= fuel)%nat -> exists m, parse_kv_loop fuel s out = Return m.
Proof.
  induction fuel as [|fuel IH]; intros s out Hlen.
  - destruct s; simpl in *; [eauto | lia].
  - destruct s as [|c0 s0]; [simpl; eauto|].
    cbn [parse_kv_loop].
    pose proof (drop_while_length is_sp (c0 :: s0)) as Hs1.
    destruct (drop_while is_sp (c0 :: s0)) as [|c1 s1'] eqn:Es1; [eauto|].
    pose proof (take_drop_while is_key_char (c1 :: s1')) as Hsplit.
    destruct (take_while is_key_char (c1 :: s1')) as [|k key] eqn:Ek; [eauto|].
    destruct (drop_while is_key_char (c1 :: s1')) as [|c s2] eqn:Ed; [eauto|].
    destruct (c =? EQUALS); [|eauto].
    assert (Hl2 : (S (length s2) < length (c1 :: s1'))%nat).
    { rewrite <- Hsplit. rewrite length_app. simpl. lia. }
    assert (Hs3 : forall v s3,
      match s2 with
      | q :: s2' => if q =? DQUOTE then scan_quoted s2' []
                    else (take_while not_sp s2, drop_while not_sp s2)
      | [] => (take_while not_sp s2, drop_while not_sp s2)
      end = (v, s3) -> (length s3 <= length s2)%nat).
    { intros v s3. destruct s2 as [|q s2'].
      - intros [= <- <-]. simpl. lia.
      - destruct (q =? DQUOTE).
        + intros E. pose proof (scan_quoted_length s2' []) as H. rewrite E in H. simpl in *. lia.
        + intros [= <- <-]. apply (drop_while_length not_sp (q :: s2')). }
    destruct (match s2 with
      | q :: s2' => if q =? DQUOTE then scan_quoted s2' []
                    else (take_while not_sp s2, drop_while not_sp s2)
      | [] => (take_while not_sp s2, drop_while not_sp s2)
      end) as [value s3] eqn:E3.
    specialize (Hs3 _ _ eq_refl).
    apply IH. pose proof (drop_while_length is_sp s3). simpl in *. lia.
Qed.

Lemma parse_kv_returns (body : str) : exists m, parse_kv body = Return m.
Proof. apply parse_kv_loop_returns. lia. Qed.

Lemma parse_kv_loop_step (fuel : nat) (c0 : N) (s0 : str) (out : gmap str str) :
  parse_kv_loop (S fuel) (c0 :: s0) out =
  match drop_while is_sp (c0 :: s0) with
  | [] => Return out
  | (_ :: _) as s1 =>
      let key := take_while is_key_char s1 in
      match key, drop_while is_key_char s1 with
      | _ :: _, c :: s2 =>
          if c =? EQUALS then
            let '(value, s3) :=
              match s2 with
              | q :: s2' =>
                  if q =? DQUOTE then scan_quoted s2' []
                  else (take_while not_sp s2, drop_while not_sp s2)
              | [] => (take_while not_sp s2, drop_while not_sp s2)
              end in
            parse_kv_loop fuel (drop_while is_sp s3) (<[key := value]> out)
          else Return out
      | _, _ => Return out
      end
  end.
Proof. reflexivity. Qed.

Lemma parse_kv_loop_empty_value_end (fuel : nat) (key : str) (out : gmap str str) :
  key <> [] -> Forall (fun c => is_key_char c = true) key ->
  parse_kv_loop (S fuel) (key ++ [EQUALS]) out = Return (<[key := []]> out).
Proof.
  intros Hne HF. destruct key as [|k key]; [done|].
  assert (Hk : is_sp k = false).
  { apply Forall_cons in HF as [Hk _]. revert Hk. unfold is_key_char, is_sp. lia. }
  destruct (take_while_app_stop is_key_char (k :: key) EQUALS [] HF eq_refl) as [Ht Hd].
  cbn [app] in *.
  rewrite parse_kv_loop_step, (drop_while_stop is_sp) by done.
  cbv beta iota zeta. rewrite Ht, Hd. cbn. destruct fuel; reflexivity.
Qed.

Lemma parse_kv_loop_empty_value_space (fuel : nat) (key rest : str) (out : gmap str str) :
  key <> [] -> Forall (fun c => is_key_char c = true) key ->
  parse_kv_loop (S fuel) (key ++ [EQUALS; SPACE] ++ rest) out
  = parse_kv_loop fuel (drop_while is_sp rest) (<[key := []]> out).
Proof.
  intros Hne HF. destruct key as [|k key]; [done|].
  assert (Hk : is_sp k = false).
  { apply Forall_cons in HF as [Hk _]. revert Hk. unfold is_key_char, is_sp. lia. }
  destruct (take_while_app_stop is_key_char (k :: key) EQUALS (SPACE :: rest) HF eq_refl)
    as [Ht Hd].
  cbn [app] in *.
  rewrite parse_kv_loop_step, (drop_while_stop is_sp) by done.
  cbv beta iota zeta. rewrite Ht, Hd. cbn. reflexivity.
Qed.

(** C4. [parse_kv] on the body made of the tokens [a=1], [b=] with the
    quoted value [x], backslash, quote, [y], and [c=] returns exactly the
    mapping a -> 1, b -> x followed by a quote and y, c -> empty string.  Inside a quoted value a
    backslash consumes itself and the next character and emits that
    character only, an unescaped double quote ends the value, and for any
    well-formed key an empty unquoted value after [=] at the end of the
    input or before a space is the empty string. *)
Theorem C4_parse_kv_example (fuel : nat) (key rest : str) (out : gmap str str)
    (Hne : key <> []) (Hkey : Forall (fun c => is_key_char c = true) key) :
  parse_kv kv_example_body = Return kv_example_result
  /\ (forall nxt s v_chars,
        scan_quoted (BACKSLASH :: nxt :: s) v_chars = scan_quoted s (v_chars ++ [nxt]))
  /\ (forall s v_chars, scan_quoted (DQUOTE :: s) v_chars = (v_chars, s))
  /\ parse_kv_loop (S fuel) (key ++ [EQUALS]) out = Return (<[key := []]> out)
  /\ parse_kv_loop (S fuel) (key ++ [EQUALS; SPACE] ++ rest) out
     = parse_kv_loop fuel (drop_while is_sp rest) (<[key := []]> out).
Proof.
  split; [vm_compute; reflexivity|].
  split; [reflexivity|]. split; [reflexivity|].
  split; [by apply parse_kv_loop_empty_value_end
         | by apply parse_kv_loop_empty_value_space].
Qed.

Lemma C4_parse_kv_example_witness :
  pystr "c" <> [] /\ Forall (fun c => is_key_char c = true) (pystr "c")
  /\ parse_kv kv_example_body = Return kv_example_result
  /\ parse_kv_loop 1 (pystr "c" ++ [EQUALS]) ∅ = Return (<[pystr "c" := []]> ∅).
Proof.
  assert (Hne : pystr "c" <> []) by discriminate.
  assert (HF : Forall (fun c => is_key_char c = true) (pystr "c"))
    by (repeat constructor).
  pose proof (C4_parse_kv_example 0 (pystr "c") [] ∅ Hne HF) as (H1 & _ & _ & H2 & _).
  exact (conj Hne (conj HF (conj H1 H2))).
Defined.

Section with_runtime.
Context `{RT : Runtime}.

Lemma is_digit_value (c : N) : is_digit c = true -> exists v, digit_value c = Some v.
Proof. unfold is_digit. destruct (digit_value c); eauto; done. Qed.

Lemma is_digit_not_space (c : N) : is_digit c = true -> is_space c = false.
Proof.
  unfold is_digit, digit_value.
  destruct (c <? 128) eqn:E1.
  - destruct ((48 <=? c) && (c <=? 57)) eqn:E2; [|done]. intros _.
    unfold is_space. lia.
  - destruct (is_space c); done.
Qed.

Lemma is_digit_plain (c : N) :
  is_digit c = true ->
  int_space c = false /\ (c =? UNDERSCORE) = false /\ (c =? PLUS) = false
  /\ (c =? MINUS) = false.
Proof.
  intros H. pose proof (is_digit_not_space c H) as Hs. revert H.
  unfold is_digit, digit_value, int_space, UNDERSCORE, PLUS, MINUS, SPACE.
  destruct (c <? 128) eqn:E1.
  - destruct ((48 <=? c) && (c <=? 57)) eqn:E2; [|done]. intros _.
    assert ((c <? 127) = true) as -> by lia. repeat split; lia.
  - intros _. assert ((c <? 127) = false) as -> by lia. repeat split; first [lia | done].
Qed.

Lemma limit_small (n : nat) :
  (n <= 2)%nat ->
  (Nat.max INT_MAX_STR_DIGITS_THRESHOLD int_max_str_digits <? n)%nat = false.
Proof.
  intros H. apply Nat.ltb_ge.
  assert (2 <= INT_MAX_STR_DIGITS_THRESHOLD)%nat by (vm_compute; lia). lia.
Qed.

Lemma py_int_digits (ds : str) :
  Forall (fun c => is_digit c = true) ds -> (1 <= length ds <= 2)%nat ->
  exists z, py_int ds = Some z.
Proof.
  intros Hd Hlen.
  destruct ds as [|d1 [|d2 [|? ?]]]; simpl in Hlen; try lia.
  - apply Forall_cons in Hd as [H1 _].
    destruct (is_digit_plain d1 H1) as (Hs & Hu & Hp & Hm).
    destruct (is_digit_value d1 H1) as [v Hv].
    unfold py_int, lstrip. simpl. rewrite Hs, Hp, Hm, Hu. simpl.
    rewrite Hu, Hv. simpl. rewrite limit_small by lia. rewrite andb_false_r. eauto.
  - apply Forall_cons in Hd as [H1 Hd]. apply Forall_cons in Hd as [H2 _].
    destruct (is_digit_plain d1 H1) as (Hs & Hu & Hp & Hm).
    destruct (is_digit_plain d2 H2) as (Hs2 & Hu2 & Hp2 & Hm2).
    destruct (is_digit_value d1 H1) as [v Hv].
    destruct (is_digit_value d2 H2) as [v2 Hv2].
    unfold py_int, lstrip. simpl. rewrite Hs, Hp, Hm, Hu. simpl.
    rewrite Hu, Hv, Hu2, Hv2. simpl. rewrite limit_small by lia. rewrite andb_false_r. eauto.
Qed.

Lemma re_day_digits (s day rest : str) :
  re_day s = Some (day, rest) ->
  Forall (fun c => is_digit c = true) day /\ (1 <= length day <= 2)%nat
  /\ day = take_while is_digit s /\ rest = drop_while is_digit s.
Proof.
  unfold re_day. pose proof (take_while_Forall is_digit s) as HF.
  destruct (take_while is_digit s) as [|d1 [|d2 [|? ?]]]; try done;
    intros [= <- <-]; simpl; repeat split; auto; lia.
Qed.

Lemma SYSLOG_RE_match_day (line : str) (m : SyslogMatch) :
  SYSLOG_RE_match line = Some m -> exists z, py_int (g_day m) = Some z.
Proof.
  unfold SYSLOG_RE_match. intros H.
  destruct line as [|a [|b [|c r0]]]; try done.
  destruct (is_upper a && is_lower b && is_lower c); [|done].
  destruct (re_spaces r0) as [r1|]; [|done]. simpl in H.
  destruct (re_day r1) as [[day r2]|] eqn:Ed; [|done]. simpl in H.
  destruct (re_spaces r2) as [r3|]; [|done]. simpl in H.
  destruct (re_time r3) as [[time r4]|]; [|done]. simpl in H.
  destruct (re_spaces r4) as [r5|]; [|done]. simpl in H.
  destruct (re_host r5) as [[host r6]|]; [|done]. simpl in H.
  destruct (re_spaces r6) as [r7|]; [|done]. simpl in H.
  destruct (re_body r7) as [body|]; [|done]. simpl in H.
  injection H as <-. simpl.
  apply re_day_digits in Ed as (HF & Hl & _). by apply py_int_digits.
Qed.

Lemma MONTHS_range (k : str) (v : Z) : MONTHS !! k = Some v -> (1 <= v <= 12)%Z.
Proof.
  unfold MONTHS.
  repeat (rewrite lookup_insert_Some; intros [[_ <-]|[_ H]]; [lia|revert H]).
  rewrite lookup_empty. done.
Qed.

(** Every call ends in one of two ways: a dead-letter record for the raw
    line and no event, or an event that carries the raw line and no
    dead-letter record. *)
Lemma parse_fortigate_line_cases (raw_line : str) (now_year : Z) :
  (exists r, parse_fortigate_line raw_line now_year
             = Return (None, Some {| reason := r; dlq_raw := raw_line |}))
  \/ (exists e, parse_fortigate_line raw_line now_year = Return (Some e, None)
                /\ raw e = raw_line).
Proof.
  unfold parse_fortigate_line.
  destruct (rstrip (N.eqb LF) raw_line) as [|c line'] eqn:El; [left; eauto|].
  destruct (_has_binary_garbage (c :: line')); [left; eauto|].
  destruct (SYSLOG_RE_match (c :: line')) as [m|] eqn:Em; [|left; eauto].
  destruct (SYSLOG_RE_match_day _ _ Em) as [z ->]. simpl.
  destruct (MONTHS !! g_mon m) as [mon_i|]; [|left; eauto].
  destruct (mon_i =? 0)%Z; [left; eauto|].
  destruct (parse_kv_returns (g_body m)) as [kv ->].
  right. eexists. split; reflexivity.
Qed.

(** C1. For every raw line and every contextual year, [parse_fortigate_line]
    returns (it neither raises nor runs on), and exactly one component of
    the returned pair is set: either an event and no dead-letter record, or
    a dead-letter record and no event. *)
Theorem C1_parse_returns_exactly_one (raw_line : str) (now_year : Z) :
  exists ev dl,
    parse_fortigate_line raw_line now_year = Return (ev, dl)
    /\ ((is_Some ev /\ dl = None) \/ (ev = None /\ is_Some dl)).
Proof.
  destruct (parse_fortigate_line_cases raw_line now_year) as [[r Hr] | (e & He & _)].
  - exists None, (Some {| reason := r; dlq_raw := raw_line |}).
    split; [exact Hr|]. right. split; [reflexivity|]. eexists. reflexivity.
  - exists (Some e), None.
    split; [exact He|]. left. split; [|reflexivity]. eexists. reflexivity.
Qed.

Lemma is_space_not_digit (c : N) : is_space c = true -> is_digit c = false.
Proof.
  intros H. destruct (is_digit c) eqn:E; [|done].
  apply is_digit_not_space in E. congruence.
Qed.

(** *** The pieces of the matcher against the shapes of the grammar *)

Lemma re_spaces_sound (s r : str) :
  re_spaces s = Some r -> exists ws, s = ws ++ r /\ separator ws.
Proof.
  unfold re_spaces. pose proof (take_drop_while is_space s) as Hs.
  pose proof (take_while_Forall is_space s) as HF.
  destruct (take_while is_space s) as [|c ws] eqn:E; [done|].
  intros [= <-]. exists (c :: ws). split; [done|]. split; [done|]. exact HF.
Qed.

Lemma re_spaces_complete (ws r : str) :
  separator ws -> match r with [] => True | c :: _ => is_space c = false end ->
  re_spaces (ws ++ r) = Some r.
Proof.
  intros [Hne HF] Hr. unfold re_spaces.
  assert (take_while is_space (ws ++ r) = ws /\ drop_while is_space (ws ++ r) = r)
    as [-> ->].
  { destruct r as [|c r].
    - rewrite app_nil_r. by apply take_while_all.
    - by apply take_while_app_stop. }
  destruct ws; done.
Qed.

Lemma re_day_complete (day r : str) (c : N) :
  day_shape day -> is_digit c = false -> re_day (day ++ c :: r) = Some (day, c :: r).
Proof.
  intros [Hl HF] Hc. unfold re_day.
  destruct (take_while_app_stop is_digit day c r HF Hc) as [-> ->].
  destruct day as [|d1 [|d2 [|? ?]]]; simpl in Hl; try lia; done.
Qed.

Lemma re_time_sound (s time r : str) :
  re_time s = Some (time, r) -> s = time ++ r /\ time_shape time.
Proof.
  unfold re_time.
  destruct s as [|h1 [|h2 [|c1 [|m1 [|m2 [|c2 [|s1 [|s2 rest]]]]]]]]; try done.
  destruct (is_digit h1 && is_digit h2 && (c1 =? COLON) && is_digit m1 && is_digit m2
            && (c2 =? COLON) && is_digit s1 && is_digit s2) eqn:E; [|done].
  intros [= <- <-]. split; [done|].
  repeat (apply andb_true_iff in E as [E ?]).
  apply N.eqb_eq in H1, H4. subst.
  exists h1, h2, m1, m2, s1, s2. split; [done|]. repeat constructor; done.
Qed.

Lemma re_time_complete (time r : str) :
  time_shape time -> re_time (time ++ r) = Some (time, r).
Proof.
  intros (h1 & h2 & m1 & m2 & s1 & s2 & -> & HF).
  repeat (apply Forall_cons in HF as [? HF]).
  unfold re_time. simpl. repeat match goal with H : is_digit _ = true |- _ => rewrite H; clear H end.
  done.
Qed.

Lemma re_host_sound (s host r : str) :
  re_host s = Some (host, r) -> s = host ++ r /\ host_shape host.
Proof.
  unfold re_host. pose proof (take_drop_while non_space s) as Hs.
  pose proof (take_while_Forall non_space s) as HF.
  destruct (take_while non_space s) as [|c h] eqn:E; [done|].
  intros [= <- <-]. split; [done|]. split; [done|].
  eapply Forall_impl; [exact HF|]. intros x. unfold non_space. by destruct (is_space x).
Qed.

Lemma re_host_complete (host r : str) (c : N) :
  host_shape host -> is_space c = true -> re_host (host ++ c :: r) = Some (host, c :: r).
Proof.
  intros [Hne HF] Hc. unfold re_host.
  assert (HF' : Forall (fun x => non_space x = true) host).
  { eapply Forall_impl; [exact HF|]. intros x Hx. unfold non_space. by rewrite Hx. }
  assert (Hc' : non_space c = false) by (unfold non_space; by rewrite Hc).
  destruct (take_while_app_stop non_space host c r HF' Hc') as [-> ->].
  destruct host; done.
Qed.

Lemma re_body_sound (s body : str) :
  re_body s = Some body ->
  exists nl, s = body ++ nl /\ body_shape body /\ (nl = [] \/ nl = [LF]).
Proof.
  unfold re_body. pose proof (take_drop_while not_lf s) as Hs.
  pose proof (take_while_Forall not_lf s) as HF.
  assert (Hb : body_shape (take_while not_lf s)).
  { eapply Forall_impl; [exact HF|]. intros x. unfold not_lf. lia. }
  destruct (drop_while not_lf s) as [|c [|? ?]] eqn:E; try done; intros [= <-].
  - exists []. auto.
  - exists [c]. split; [done|]. split; [done|]. right.
    apply drop_while_head in E. f_equal. revert E. unfold not_lf. lia.
Qed.

Lemma re_body_exact (body nl : str) :
  body_shape body -> nl = [] \/ nl = [LF] -> re_body (body ++ nl) = Some body.
Proof.
  intros Hb Hnl. unfold re_body.
  assert (HF : Forall (fun x => not_lf x = true) body).
  { eapply Forall_impl; [exact Hb|]. intros x. unfold not_lf. lia. }
  destruct Hnl as [-> | ->].
  - rewrite app_nil_r. by destruct (take_while_all not_lf body HF) as [-> ->].
  - by destruct (take_while_app_stop not_lf body LF [] HF eq_refl) as [-> ->].
Qed.

Lemma re_body_after_spaces (body nl : str) :
  body_shape body -> nl = [] \/ nl = [LF] ->
  exists b, re_body (drop_while is_space (body ++ nl)) = Some b.
Proof.
  intros Hb Hnl. induction Hb as [|c body Hc Hb IH].
  - destruct Hnl as [-> | ->]; simpl; eauto.
  - simpl. destruct (is_space c); [done|].
    exists (c :: body). apply (re_body_exact (c :: body) nl); [by constructor | done].
Qed.

Lemma drop_while_app_all {A} (p : A -> bool) (l1 l2 : list A) :
  Forall (fun x => p x = true) l1 -> drop_while p (l1 ++ l2) = drop_while p l2.
Proof. induction 1 as [|x l1 Hx _ IH]; simpl; [done|]. by rewrite Hx. Qed.

(** The matcher finds exactly the lines of the envelope grammar. *)
Lemma SYSLOG_RE_match_sound (line : str) (m : SyslogMatch) :
  SYSLOG_RE_match line = Some m ->
  envelope line (g_mon m) (g_day m) (g_time m) (g_host m) (g_body m).
Proof.
  unfold SYSLOG_RE_match. intros H.
  destruct line as [|a [|b [|c r0]]]; try done.
  destruct (is_upper a && is_lower b && is_lower c) eqn:Em; [|done].
  destruct (re_spaces r0) as [r1|] eqn:E1; [|done]. simpl in H.
  destruct (re_day r1) as [[day r2]|] eqn:Ed; [|done]. simpl in H.
  destruct (re_spaces r2) as [r3|] eqn:E2; [|done]. simpl in H.
  destruct (re_time r3) as [[time r4]|] eqn:Et; [|done]. simpl in H.
  destruct (re_spaces r4) as [r5|] eqn:E3; [|done]. simpl in H.
  destruct (re_host r5) as [[host r6]|] eqn:Eh; [|done]. simpl in H.
  destruct (re_spaces r6) as [r7|] eqn:E4; [|done]. simpl in H.
  destruct (re_body r7) as [body|] eqn:Eb; [|done]. simpl in H.
  injection H as <-. simpl.
  apply re_spaces_sound in E1 as (ws1 & -> & Hw1).
  pose proof (take_drop_while is_digit r1) as Hsplit.
  apply re_day_digits in Ed as (HdF & Hdl & Hd1 & Hd2).
  apply re_spaces_sound in E2 as (ws2 & -> & Hw2).
  apply re_time_sound in Et as (-> & Ht).
  apply re_spaces_sound in E3 as (ws3 & -> & Hw3).
  apply re_host_sound in Eh as (-> & Hh).
  apply re_spaces_sound in E4 as (ws4 & -> & Hw4).
  apply re_body_sound in Eb as (nl & -> & Hb & Hnl).
  exists ws1, ws2, ws3, ws4, nl.
  rewrite <- Hd1, <- Hd2 in Hsplit. rewrite <- Hsplit.
  split; [done|].
  apply andb_true_iff in Em as [Em Hlc]. apply andb_true_iff in Em as [Hua Hlb].
  split; [by exists a, b, c|]. split; [done|]. split; [by split|].
  repeat (split; [done|]). done.
Qed.

Lemma separator_head (ws r : str) :
  separator ws -> exists c r', ws ++ r = c :: r' /\ is_space c = true.
Proof.
  intros [Hne HF]. destruct ws as [|c ws]; [done|].
  apply Forall_cons in HF as [Hc _]. exists c, (ws ++ r). done.
Qed.

(** The matcher up to the host, on a line that has the shapes of the
    grammar that far. *)
Lemma SYSLOG_RE_match_head (mon ws1 day ws2 time ws3 host : str) (c4 : N) (r4 : str) :
  month_shape mon -> separator ws1 -> day_shape day -> separator ws2 ->
  time_shape time -> separator ws3 -> host_shape host -> is_space c4 = true ->
  SYSLOG_RE_match (mon ++ ws1 ++ day ++ ws2 ++ time ++ ws3 ++ host ++ c4 :: r4)
  = (r7 ← re_spaces (c4 :: r4); body ← re_body r7;
     Some {| g_mon := mon; g_day := day; g_time := time; g_host := host;
             g_body := body |}).
Proof.
  intros Hm Hw1 Hd Hw2 Ht Hw3 Hh Hc4.
  destruct Hm as (a & b & c & -> & Ha & Hb' & Hc).
  unfold SYSLOG_RE_match. cbn [app]. rewrite Ha, Hb', Hc. cbn [andb].
  assert (Hday : exists d day', day = d :: day' /\ is_digit d = true).
  { destruct Hd as [Hl HF]. destruct day as [|d day']; [simpl in Hl; lia|].
    apply Forall_cons in HF as [? _]. eauto. }
  destruct Hday as (d & day' & Eday & Hdd).
  rewrite (re_spaces_complete ws1) by
    (try done; rewrite Eday; cbn [app]; by apply is_digit_not_space).
  cbn [mbind option_bind].
  destruct (separator_head ws2 (time ++ ws3 ++ host ++ c4 :: r4) Hw2)
    as (c2 & r2' & E2 & Hc2).
  rewrite E2, (re_day_complete day r2' c2 Hd (is_space_not_digit _ Hc2)).
  cbn [mbind option_bind]. rewrite <- E2.
  destruct Ht as (h1 & h2 & m1 & m2 & s1 & s2 & Etime & HtF).
  assert (Hh1 : is_digit h1 = true) by (by apply Forall_cons in HtF as [? _]).
  rewrite (re_spaces_complete ws2) by
    (try done; rewrite Etime; cbn [app]; by apply is_digit_not_space).
  cbn [mbind option_bind].
  rewrite (re_time_complete time) by (exists h1, h2, m1, m2, s1, s2; done).
  cbn [mbind option_bind].
  assert (Hhost : exists h host', host = h :: host' /\ is_space h = false).
  { destruct Hh as [Hne HF]. destruct host as [|h host']; [done|].
    apply Forall_cons in HF as [? _]. eauto. }
  destruct Hhost as (h & host' & Ehost & Hhh).
  rewrite (re_spaces_complete ws3) by (try done; rewrite Ehost; cbn [app]; done).
  cbn [mbind option_bind].
  rewrite (re_host_complete host r4 c4 Hh Hc4).
  reflexivity.
Qed.

Lemma SYSLOG_RE_match_complete (line mon day time host body : str) :
  envelope line mon day time host body ->
  exists m, SYSLOG_RE_match line = Some m
    /\ g_mon m = mon /\ g_day m = day /\ g_time m = time /\ g_host m = host.
Proof.
  intros (ws1 & ws2 & ws3 & ws4 & nl & -> & Hm & Hw1 & Hd & Hw2 & Ht & Hw3 & Hh & Hw4
          & Hb & Hnl).
  destruct (separator_head ws4 (body ++ nl) Hw4) as (c4 & r4' & E4 & Hc4).
  rewrite E4, (SYSLOG_RE_match_head mon ws1 day ws2 time ws3 host c4 r4') by done.
  rewrite <- E4.
  (* the last separator takes every leading whitespace of the body too *)
  unfold re_spaces.
  destruct (take_while is_space (ws4 ++ body ++ nl)) as [|x xs] eqn:Etw.
  { rewrite E4 in Etw. simpl in Etw. rewrite Hc4 in Etw. done. }
  cbn [mbind option_bind].
  destruct Hw4 as [_ Hw4F].
  rewrite (drop_while_app_all is_space ws4 (body ++ nl) Hw4F).
  destruct (re_body_after_spaces body nl Hb Hnl) as [b' ->].
  cbn [mbind option_bind]. eexists. split; [reflexivity|]. done.
Qed.

(** The groups of the match are those of the decomposition in which the
    last separator is as long as it can be, that is, in which the body does
    not start with whitespace: the greedy choice of the pattern. *)
Lemma SYSLOG_RE_match_greedy (line mon day time host body : str) :
  envelope line mon day time host body ->
  match body with [] => True | c :: _ => is_space c = false end ->
  SYSLOG_RE_match line
  = Some {| g_mon := mon; g_day := day; g_time := time; g_host := host;
            g_body := body |}.
Proof.
  intros (ws1 & ws2 & ws3 & ws4 & nl & -> & Hm & Hw1 & Hd & Hw2 & Ht & Hw3 & Hh & Hw4
          & Hb & Hnl) Hhead.
  destruct (separator_head ws4 (body ++ nl) Hw4) as (c4 & r4' & E4 & Hc4).
  rewrite E4, (SYSLOG_RE_match_head mon ws1 day ws2 time ws3 host c4 r4') by done.
  rewrite <- E4.
  destruct body as [|c body'].
  - destruct Hnl as [-> | ->]; cbn [app].
    + rewrite (re_spaces_complete ws4 []) by done. reflexivity.
    + unfold re_spaces.
      assert (HF : Forall (fun x => is_space x = true) (ws4 ++ [LF])).
      { apply Forall_app. split; [by destruct Hw4|]. by repeat constructor. }
      destruct (take_while_all is_space _ HF) as [-> ->].
      destruct Hw4 as [Hne _]. destruct ws4; [done|]. reflexivity.
  - rewrite (re_spaces_complete ws4 ((c :: body') ++ nl)) by done.
    cbn [mbind option_bind]. by rewrite (re_body_exact (c :: body') nl).
Qed.

Lemma SYSLOG_RE_match_iff (line : str) :
  is_Some (SYSLOG_RE_match line) <-> matches_envelope line.
Proof.
  split.
  - intros [m Hm]. apply SYSLOG_RE_match_sound in Hm.
    by exists (g_mon m), (g_day m), (g_time m), (g_host m), (g_body m).
  - intros (mon & day & time & host & body & H).
    apply SYSLOG_RE_match_complete in H as (m & -> & _). eauto.
Qed.


Lemma SYSLOG_RE_match_mon (line : str) (m : SyslogMatch) :
  SYSLOG_RE_match line = Some m -> g_mon m = take 3 line.
Proof.
  unfold SYSLOG_RE_match. intros H.
  destruct line as [|a [|b [|c r0]]]; try done.
  destruct (is_upper a && is_lower b && is_lower c); [|done].
  destruct (re_spaces r0) as [r1|]; [|done]. simpl in H.
  destruct (re_day r1) as [[day r2]|]; [|done]. simpl in H.
  destruct (re_spaces r2) as [r3|]; [|done]. simpl in H.
  destruct (re_time r3) as [[time r4]|]; [|done]. simpl in H.
  destruct (re_spaces r4) as [r5|]; [|done]. simpl in H.
  destruct (re_host r5) as [[host r6]|]; [|done]. simpl in H.
  destruct (re_spaces r6) as [r7|]; [|done]. simpl in H.
  destruct (re_body r7) as [body|]; [|done]. simpl in H.
  by injection H as <-.
Qed.

Lemma has_binary_garbage_iff (s : str) :
  _has_binary_garbage s = true <-> non_text s.
Proof.
  unfold _has_binary_garbage, non_text, count_control.
  assert (Hf : filter (fun c => is_control c = true) s = filter control_char s).
  { apply list_filter_iff. intros c. unfold is_control, control_char. lia. }
  rewrite Hf.
  destruct (existsb (N.eqb 0) s) eqn:E.
  - split; [|done]. intros _. left.
    apply existsb_exists in E as (x & Hx & ->%N.eqb_eq). done.
  - rewrite Nat.ltb_lt. split; [auto|]. intros [H0|H]; [|done].
    assert (existsb (N.eqb 0) s = true); [|congruence].
    apply existsb_exists. exists 0. done.
Qed.

Lemma MONTHS_lookup_None (k : str) :
  MONTHS !! k = None <-> ~ In k canonical_months.
Proof.
  unfold MONTHS, canonical_months. rewrite !lookup_insert_None.
  cbn [map In]. split.
  - intros H. intuition congruence.
  - intros H. repeat split; first [apply lookup_empty | intros E; apply H; tauto].
Qed.

(** C3. The parser dead-letters a line with the reason of the first rule
    that fails, in the fixed order: [empty_line] exactly for a line that is
    empty after the trailing-newline trim; otherwise [non_text_or_binary]
    exactly for a line with a NUL or more than five control characters
    (code points below 9, or 11 to 31); otherwise
    [syslog_header_parse_fail] exactly for a line outside the envelope
    grammar; otherwise [invalid_month] exactly when the month is none of
    the twelve canonical abbreviations.  Since each reason is produced
    under the failure of its own rule and the success of the earlier ones
    only, a later reason never appears when an earlier rule fails. *)
Theorem C3_first_failing_rule (raw_line : str) (now_year : Z) :
  let line := trimmed raw_line in
  (dead_letters raw_line now_year empty_line <-> line = [])
  /\ (dead_letters raw_line now_year non_text_or_binary <->
        line <> [] /\ non_text line)
  /\ (dead_letters raw_line now_year syslog_header_parse_fail <->
        line <> [] /\ ~ non_text line /\ ~ matches_envelope line)
  /\ (dead_letters raw_line now_year invalid_month <->
        line <> [] /\ ~ non_text line /\ matches_envelope line
        /\ ~ In (take 3 line) canonical_months).
Proof.
  unfold dead_letters, parse_fortigate_line, trimmed.
  destruct (rstrip (N.eqb LF) raw_line) as [|c line'] eqn:El; cbv zeta.
  { repeat split; intros; try done; try (by intuition). }
  set (line := c :: line') in *.
  assert (Hne : line <> []) by done.
  pose proof (has_binary_garbage_iff line) as Hg.
  destruct (_has_binary_garbage line).
  { assert (non_text line) by tauto.
    repeat split; intros; try done; try tauto. }
  assert (Hnt : ~ non_text line) by (intros H; apply Hg in H; done).
  pose proof (SYSLOG_RE_match_iff line) as Hm.
  destruct (SYSLOG_RE_match line) as [m|] eqn:Em.
  2: { assert (~ matches_envelope line) by (intros H; apply Hm in H as [? ?]; done).
       repeat split; intros; try done; try tauto. }
  assert (He : matches_envelope line) by (apply Hm; eauto).
  destruct (SYSLOG_RE_match_day _ _ Em) as [z ->]. cbn [of_option bind].
  pose proof (SYSLOG_RE_match_mon _ _ Em) as Hmon.
  pose proof (MONTHS_lookup_None (g_mon m)) as HM. rewrite Hmon in HM.
  destruct (MONTHS !! g_mon m) as [mon_i|] eqn:EM.
  2: { rewrite Hmon in EM.
       assert (~ In (take 3 line) canonical_months) by tauto.
       repeat split; intros; try done; try tauto. }
  rewrite Hmon in EM.
  assert (Hin : In (take 3 line) canonical_months).
  { destruct (decide (In (take 3 line) canonical_months)) as [|Hn]; [done|].
    apply HM in Hn. congruence. }
  apply MONTHS_range in EM.
  assert ((mon_i =? 0)%Z = false) as -> by lia.
  destruct (parse_kv_returns (g_body m)) as [kv ->].
  repeat split; intros; try done; try tauto.
Qed.

Lemma py_int_two_digits (d1 d2 v1 v2 : N) :
  digit_value d1 = Some v1 -> digit_value d2 = Some v2 ->
  py_int [d1; d2] = Some (Z.of_N (10 * v1 + v2)).
Proof.
  intros Hv1 Hv2.
  assert (H1 : is_digit d1 = true) by (unfold is_digit; by rewrite Hv1).
  assert (H2 : is_digit d2 = true) by (unfold is_digit; by rewrite Hv2).
  destruct (is_digit_plain d1 H1) as (Hs & Hu & Hp & Hm).
  destruct (is_digit_plain d2 H2) as (Hs2 & Hu2 & Hp2 & Hm2).
  unfold py_int, lstrip. simpl. rewrite Hs, Hp, Hm, Hu. simpl.
  rewrite Hu, Hv1, Hu2, Hv2. simpl. rewrite limit_small by lia.
  rewrite andb_false_r. f_equal; lia.
Qed.

Lemma with_tz_offset (dt : datetime) (sg d1 d2 d3 d4 v1 v2 v3 v4 : N) :
  digit_value d1 = Some v1 -> digit_value d2 = Some v2 ->
  digit_value d3 = Some v3 -> digit_value d4 = Some v4 ->
  (10 * v1 + v2) * 60 + (10 * v3 + v4) < 1440 ->
  with_tz dt (Some ([sg; d1; d2] ++ [COLON] ++ [d3; d4]))
  = Some (isoformat (replace_tzinfo dt (tz_offset sg v1 v2 v3 v4))).
Proof.
  intros H1 H2 H3 H4 Hlt. unfold with_tz. cbn [app take drop].
  rewrite (py_int_two_digits d1 d2 v1 v2 H1 H2).
  rewrite (py_int_two_digits d3 d4 v3 v4 H3 H4).
  cbn [mbind option_bind]. unfold timezone, tz_offset.
  set (hh := Z.of_N (10 * v1 + v2)). set (mm := Z.of_N (10 * v3 + v4)).
  assert (0 <= hh /\ 0 <= mm /\ hh * 60 + mm < 1440)%Z as (? & ? & ?) by lia.
  destruct (sg =? PLUS).
  - assert (((-86400000000 <? (1 * hh * 3600 + 1 * mm * 60) * 1000000)
             && ((1 * hh * 3600 + 1 * mm * 60) * 1000000 <? 86400000000))%Z = true)
      as -> by lia.
    cbn [mbind option_bind]. do 3 f_equal. lia.
  - assert (((-86400000000 <? (-1 * hh * 3600 + -1 * mm * 60) * 1000000)
             && ((-1 * hh * 3600 + -1 * mm * 60) * 1000000 <? 86400000000))%Z = true)
      as -> by lia.
    cbn [mbind option_bind]. do 3 f_equal. lia.
Qed.

Lemma tz_norm_of_match (tz : str) (sg d1 d2 d3 d4 : N) :
  tz <> [] -> strip (N.eqb DQUOTE) (strip is_space tz) = [sg; d1; d2; d3; d4] ->
  tz_fullmatch [sg; d1; d2; d3; d4] = true ->
  tz_norm_of (Some tz) = Some ([sg; d1; d2] ++ [COLON] ++ [d3; d4]).
Proof.
  intros Hne Hc Hm. unfold tz_norm_of. destruct tz as [|c tz']; [done|].
  rewrite Hc, Hm. reflexivity.
Qed.


Lemma tz_norm_of_None (tz : option str) :
  tz_norm_of tz = None <->
  tz = None \/ tz = Some [] \/ exists t, tz = Some t /\ ~ tz_pattern (tz_cleaned t).
Proof.
  unfold tz_norm_of, tz_pattern, tz_cleaned.
  destruct tz as [[|c t]|]; [tauto| |tauto].
  set (cl := strip (N.eqb DQUOTE) (strip is_space (c :: t))).
  destruct (tz_fullmatch cl) eqn:E.
  - split; [done|]. intros [?|[?|(t' & [= <-] & Hn)]]; try done.
    exfalso. apply Hn. fold cl. unfold tz_fullmatch in E.
    destruct cl as [|sg [|d1 [|d2 [|d3 [|d4 [|? ?]]]]]]; try done.
    repeat (apply andb_true_iff in E as [E ?]).
    exists sg, d1, d2, d3, d4. split; [done|]. split; [lia|].
    repeat constructor; done.
  - split; [|done]. intros _. right. right. exists (c :: t). split; [done|].
    fold cl. intros (sg & d1 & d2 & d3 & d4 & -> & Hsg & HF).
    repeat (apply Forall_cons in HF as [? HF]).
    unfold tz_fullmatch in E.
    repeat match goal with H : is_digit _ = true |- _ => rewrite H in E; clear H end.
    lia.
Qed.

End with_runtime.

(** C5, as stated, fails in both directions.  A [tz] with a leading space
    does not have the form [+-]HHMM, yet it is applied as an offset and the
    timestamp is not offset-naive.  A [tz] of a sign and four digits that
    denotes 24 hours or more has that form, yet no offset is applied: the
    resolved timestamp is absent. *)
Lemma C5_counterexample :
  (~ tz_pattern (RT:=basic_runtime) (pystr " +0530")
   /\ parse_event_ts (RT:=basic_runtime) (ts_kv (pystr " +0530")) 2024 1 5
        (pystr "03:04:05")
      = Some (pystr "2023-12-31T23:59:59+05:30"))
  /\ (tz_pattern (RT:=basic_runtime) (pystr "+9999")
      /\ parse_event_ts (RT:=basic_runtime) (ts_kv (pystr "+9999")) 2024 1 5
           (pystr "03:04:05")
         = None).
Proof.
  split; split.
  - intros (sg & d1 & d2 & d3 & d4 & H & _). discriminate H.
  - vm_compute. reflexivity.
  - exists PLUS, 57, 57, 57, 57. split; [reflexivity|]. split; [by left|].
    repeat constructor.
  - vm_compute. reflexivity.
Qed.

(** The scenarios of the specification, evaluated. *)
Example end_to_end_event :
  exists e,
    parse_fortigate_line (RT:=basic_runtime) ok_line 2024 = Return (Some e, None)
    /\ parse_status e = ok /\ action e = Some (pystr "accept")
    /\ dstport e = Some 443%Z /\ host e = pystr "fw01"
    /\ event_ts e = Some (pystr "2024-01-05T03:04:05").
Proof. eexists. split; [vm_compute; reflexivity|]. repeat split. Qed.

Example end_to_end_nul :
  parse_fortigate_line (RT:=basic_runtime) nul_line 2024
  = Return (None, Some {| reason := non_text_or_binary; dlq_raw := nul_line |}).
Proof. vm_compute. reflexivity. Qed.

Example timestamp_fallback :
  parse_event_ts (RT:=basic_runtime) ∅ 2024 1 5 (pystr "03:04:05")
  = Some (pystr "2024-01-05T03:04:05").
Proof. vm_compute. reflexivity. Qed.

Example partial_event :
  exists e,
    parse_fortigate_line (RT:=basic_runtime)
      (pystr "Feb 29 23:59:59 fw01 type=traffic srcport=x") 2023
    = Return (Some e, None)
    /\ parse_status e = partial /\ srcport e = None /\ event_ts e = None.
Proof. eexists. split; [vm_compute; reflexivity|]. repeat split. Qed.

End ParserFacts.

(** ** Facts about the checkpoint store *)
Module CheckpointFacts.
Import Py PyFacts checkpoint LedgerSpec Examples.

Lemma last_n_short {A} (n : nat) (l : list A) : (length l <= n)%nat -> last_n n l = l.
Proof. intros H. unfold last_n. by replace (length l - n)%nat with 0%nat by lia. Qed.

Lemma last_n_length {A} (n : nat) (l : list A) :
  length (last_n n l) = Nat.min n (length l).
Proof. unfold last_n. rewrite length_drop. lia. Qed.

Lemma last_n_app_last_n {A} (n : nat) (l r : list A) :
  last_n n (last_n n l ++ r) = last_n n (l ++ r).
Proof.
  destruct (decide (length l <= n)%nat) as [Hle|Hgt].
  - by rewrite (last_n_short n l).
  - unfold last_n. rewrite !length_app, length_drop.
    replace (length l - (length l - n) + length r - n)%nat with (length r) by lia.
    replace (length l + length r - n)%nat with ((length l - n) + length r)%nat by lia.
    rewrite <- drop_drop. f_equal.
    rewrite drop_app_le by lia. done.
Qed.

Lemma last_n_snoc_In {A} (n : nat) (l : list A) (x : A) :
  (1 <= n)%nat -> In x (last_n n (l ++ [x])).
Proof.
  intros Hn. unfold last_n. rewrite length_app. simpl.
  destruct (decide (length l + 1 - n <= length l)%nat) as [Hle|Hgt]; [|lia].
  rewrite drop_app_le by lia. apply in_or_app. right. by left.
Qed.

Lemma ledger_mark_completed (ck : Checkpoint) (path : str) (inode size mtime now : Z) :
  ledger (mark_completed ck path inode size mtime now)
  = last_n LEDGER_CAP (ledger ck ++ [new_record path inode size mtime now]).
Proof.
  unfold mark_completed.
  destruct (LEDGER_CAP <? length (ledger ck ++ [new_record path inode size mtime now]))%nat
    eqn:E; [done|].
  apply Nat.ltb_ge in E. by rewrite last_n_short.
Qed.

Lemma ledger_mark_all (calls : list MarkCall) :
  forall ck, (length (ledger ck) <= LEDGER_CAP)%nat ->
    ledger (mark_all ck calls) = last_n LEDGER_CAP (ledger ck ++ map record_of calls).
Proof.
  induction calls as [|c calls IH]; intros ck Hck.
  - simpl. rewrite app_nil_r. by rewrite last_n_short.
  - cbn [mark_all fold_left map]. fold (mark_all (mark ck c) calls).
    rewrite IH.
    + unfold mark. rewrite ledger_mark_completed. fold (record_of c).
      rewrite last_n_app_last_n, <- app_assoc. done.
    + unfold mark. rewrite ledger_mark_completed, last_n_length. lia.
Qed.

Local Set Warnings "-abstract-large-number".

(** C8. Starting from an empty completed ledger, any run of
    [mark_completed] calls leaves exactly the last 5000 appended records, in
    insertion order; after 5001 calls these are the records of every call
    but the first, 5000 in number, so the oldest insertion is the one
    evicted; and after every call, from any state, the ledger has at most
    5000 entries. *)
Theorem C8_ledger_cap (ck : Checkpoint) (calls : list MarkCall)
    (Hempty : ledger ck = []) :
  ledger (mark_all ck calls) = drop (length calls - 5000) (map record_of calls)
  /\ (length calls = 5001%nat ->
      ledger (mark_all ck calls) = map record_of (drop 1 calls)
      /\ length (ledger (mark_all ck calls)) = 5000%nat)
  /\ (forall ck' path inode size mtime now,
        (length (ledger (mark_completed ck' path inode size mtime now)) <= 5000)%nat).
Proof.
  change 5001%nat with (S LEDGER_CAP). change 5000%nat with LEDGER_CAP.
  assert (H : ledger (mark_all ck calls) = last_n LEDGER_CAP (map record_of calls)).
  { rewrite ledger_mark_all; rewrite Hempty; [done | simpl; lia]. }
  split; [rewrite H; unfold last_n; by rewrite length_map|]. split.
  - intros Hlen. rewrite H. unfold last_n at 1 2. rewrite length_map, Hlen.
    replace (S LEDGER_CAP - LEDGER_CAP)%nat with 1%nat by lia.
    rewrite skipn_map. split; [done|].
    rewrite length_map, length_drop. lia.
  - intros. rewrite ledger_mark_completed, last_n_length. lia.
Qed.

Lemma C8_ledger_cap_witness :
  ledger (default_checkpoint 0) = []
  /\ length many_calls = 5001%nat
  /\ ledger (mark_all (default_checkpoint 0) many_calls)
     = map record_of (drop 1 many_calls)
  /\ length (ledger (mark_all (default_checkpoint 0) many_calls)) = 5000%nat.
Proof.
  assert (H0 : ledger (default_checkpoint 0) = []) by reflexivity.
  assert (H1 : length many_calls = 5001%nat) by (vm_compute; reflexivity).
  destruct (C8_ledger_cap (default_checkpoint 0) many_calls H0) as (_ & H & _).
  exact (conj H0 (conj H1 (H H1))).
Defined.

Local Set Warnings "abstract-large-number".

Lemma is_completed_iff (ck : Checkpoint) (path : str) (inode size mtime : Z) :
  is_completed ck path inode size mtime = true <->
  exists item, In item (ledger ck)
               /\ c_key item = Some (completed_key path inode size mtime).
Proof.
  unfold is_completed. rewrite existsb_exists. unfold key_is.
  split; intros (item & Hin & Hk); exists item; split; try done.
  - by apply bool_decide_eq_true in Hk.
  - by apply bool_decide_eq_true.
Qed.

(** C10. [mark_completed] never deduplicates: every call appends one new
    record, also when [is_completed] already answers true for the identity,
    so that k calls for one identity fill k ledger slots; [is_completed]
    answers true exactly when some ledger record carries the key
    path|inode|size|mtime; hence it answers true after the identity was
    marked twice. *)
Theorem C10_mark_completed_no_dedup (ck : Checkpoint) (path : str)
    (inode size mtime : Z) :
  (forall now,
      ledger (mark_completed ck path inode size mtime now)
      = last_n LEDGER_CAP (ledger ck ++ [new_record path inode size mtime now]))
  /\ (forall now,
        is_completed ck path inode size mtime = true ->
        (length (ledger ck) < LEDGER_CAP)%nat ->
        ledger (mark_completed ck path inode size mtime now)
        = ledger ck ++ [new_record path inode size mtime now])
  /\ (forall times,
        ledger ck = [] -> (length times <= LEDGER_CAP)%nat ->
        ledger (mark_all ck (same_identity path inode size mtime times))
        = map (new_record path inode size mtime) times
        /\ length (ledger (mark_all ck (same_identity path inode size mtime times)))
           = length times)
  /\ (is_completed ck path inode size mtime = true <->
      exists item, In item (ledger ck)
                   /\ c_key item = Some (completed_key path inode size mtime))
  /\ (forall t1 t2,
        is_completed
          (mark_completed (mark_completed ck path inode size mtime t1)
             path inode size mtime t2)
          path inode size mtime = true).
Proof.
  split; [intros; apply ledger_mark_completed|].
  split.
  { intros now _ Hlen. rewrite ledger_mark_completed.
    apply last_n_short. rewrite length_app. simpl. lia. }
  split.
  { intros times Hempty Hlen.
    assert (H : ledger (mark_all ck (same_identity path inode size mtime times))
                = map (new_record path inode size mtime) times).
    { rewrite ledger_mark_all by (rewrite Hempty; simpl; lia).
      rewrite Hempty. cbn [app]. unfold same_identity. rewrite map_map.
      apply last_n_short. rewrite length_map. lia. }
    split; [exact H|]. rewrite H. apply length_map. }
  split; [apply is_completed_iff|].
  intros t1 t2. apply is_completed_iff.
  exists (new_record path inode size mtime t2). split; [|reflexivity].
  rewrite ledger_mark_completed. apply last_n_snoc_In. unfold LEDGER_CAP. lia.
Qed.

Lemma C10_mark_completed_no_dedup_witness :
  is_completed (mark_completed (default_checkpoint 0) (pystr "/data/fortigate/x") 7 10 20 30)
    (pystr "/data/fortigate/x") 7 10 20 = true
  /\ length (ledger (mark_completed
               (mark_completed (default_checkpoint 0) (pystr "/data/fortigate/x") 7 10 20 30)
               (pystr "/data/fortigate/x") 7 10 20 31)) = 2%nat.
Proof.
  destruct (C10_mark_completed_no_dedup
              (mark_completed (default_checkpoint 0) (pystr "/data/fortigate/x") 7 10 20 30)
              (pystr "/data/fortigate/x") 7 10 20) as (_ & Happend & _ & _ & _).
  assert (H1 : is_completed
                 (mark_completed (default_checkpoint 0) (pystr "/data/fortigate/x") 7 10 20 30)
                 (pystr "/data/fortigate/x") 7 10 20 = true) by (vm_compute; reflexivity).
  split; [exact H1|].
  rewrite (Happend 31%Z H1) by (vm_compute; lia).
  reflexivity.
Defined.

Section with_json.
Context `{JS : Json}.

Lemma tmp_path_differs (path : str) (pid : Z) :
  path ++ pystr ".tmp." ++ str_of_Z pid <> path.
Proof.
  intros H. apply (f_equal length) in H. rewrite length_app in H.
  simpl in H. lia.
Qed.

(** A successful [save_checkpoint] followed by [load_checkpoint] returns
    the saved state with [updated_at] set to the time of saving, whenever
    the [json] module reads back the document it wrote for that state. *)
Lemma save_then_load (ck : Checkpoint) (now pid : Z) (fs : Files)
    (Hjson : json_load (json_dumps (set_updated_at ck now) ++ [LF])
             = Some (set_updated_at ck now)) :
  exists fs',
    save_checkpoint ck now pid true fs = (set_updated_at ck now, Return fs')
    /\ fs' !! CHECKPOINT_PATH = Some (json_dumps (set_updated_at ck now) ++ [LF])
    /\ (forall now', load_checkpoint now' fs' = Return (set_updated_at ck now))
    /\ fs' !! (CHECKPOINT_PATH ++ pystr ".tmp." ++ str_of_Z pid) = None.
Proof.
  unfold save_checkpoint, _atomic_write_json, os_replace, load_checkpoint.
  rewrite lookup_insert_eq.
  eexists. split; [reflexivity|].
  rewrite lookup_insert_eq. split; [reflexivity|]. split.
  { intros now'. by rewrite Hjson. }
  rewrite lookup_insert_ne by (intros H; symmetry in H; by apply tmp_path_differs in H).
  apply lookup_delete_eq.
Qed.

End with_json.

End CheckpointFacts.

(** ** Facts about the file readers *)
Module SourceFacts.
Import Py PyFacts parser_fgt_v1 source_file SourceSpec Examples.

Section with_runtime.
Context `{RT : Runtime}.

(** What the plain branch computes: the first offset is the start value, and
    each further offset adds the encoded length of the line before. *)
Lemma with_offsets_spec (path : str) (inode size mtime : Z) (lines : list str)
    (offset : Z) (i : nat) (line : str) (src : Source) :
  with_offsets path inode size mtime lines offset !! i = Some (line, src) ->
  lines !! i = Some line
  /\ s_offset src
     = Some (offset + Z.of_nat (length (utf8_encode (concat (take i lines)))))%Z.
Proof.
  revert offset i. induction lines as [|l lines IH]; intros offset i; [done|].
  destruct i as [|i]; simpl.
  - intros [= <- <-]. split; [done|]. simpl. f_equal. lia.
  - intros H. apply IH in H as [H1 H2]. split; [done|]. rewrite H2. f_equal.
    unfold utf8_encode. rewrite map_app, concat_app, length_app. lia.
Qed.

(** For a compressed file every yielded position has no offset. *)
Lemma gz_offsets_unknown (disk : Disk) (path : str) (ys : list (str * Source)) :
  endswith path (pystr ".gz") = true ->
  read_whole_file_lines disk path = Return ys ->
  Forall (fun y => s_offset y.2 = None) ys.
Proof.
  intros Hgz. unfold read_whole_file_lines, stat_file.
  destruct (disk !! path) as [f|]; [|done]. cbn [bind]. rewrite Hgz.
  destruct (gzip_decompress (f_data f)) as [data|]; [|done]. cbn [of_option bind].
  intros [= <-]. apply Forall_forall. intros y Hy.
  apply list_elem_of_fmap in Hy as (line & -> & _). done.
Qed.

(** For a file of ASCII bytes without carriage returns the text-mode
    reader changes nothing, and the running offset of the plain branch is
    the byte position at which each line starts. *)
Lemma utf8_decode_ascii (data : bytes) :
  Forall (fun b => b < 128) data -> utf8_decode data = data.
Proof.
  induction 1 as [|b data Hb _ IH]; [done|]. cbn [utf8_decode].
  assert ((b <? 128) = true) as -> by lia. by rewrite IH.
Qed.

Lemma utf8_encode_ascii (s : str) :
  Forall (fun b => b < 128) s -> utf8_encode s = s.
Proof.
  induction 1 as [|b s Hb _ IH]; [done|].
  unfold utf8_encode in *. cbn [map concat]. rewrite IH.
  unfold utf8_encode_char. assert ((b <? 128) = true) as -> by lia. done.
Qed.

Lemma universal_newlines_no_cr (s : str) :
  Forall (fun b => b <> CR) s -> universal_newlines s = s.
Proof.
  induction 1 as [|b s Hb _ IH]; [done|]. cbn [universal_newlines].
  assert ((b =? CR) = false) as -> by lia. by rewrite IH.
Qed.

Lemma iter_lines_concat (s : str) :
  forall cur, concat (iter_lines s cur) = cur ++ s.
Proof.
  induction s as [|c s IH]; intros cur; cbn [iter_lines].
  - destruct cur; simpl; [done|]. by rewrite !app_nil_r.
  - destruct (c =? LF); [cbn [concat]|]; rewrite IH; by rewrite <- app_assoc.
Qed.

Lemma text_lines_plain_ascii (data : bytes) :
  plain_ascii data -> concat (text_lines data) = data.
Proof.
  intros H. unfold text_lines.
  rewrite utf8_decode_ascii by (eapply Forall_impl; [exact H|]; by intros ? [? ?]).
  rewrite universal_newlines_no_cr by (eapply Forall_impl; [exact H|]; by intros ? [? ?]).
  apply iter_lines_concat.
Qed.

Lemma plain_ascii_offsets_exact (disk : Disk) (path : str) (f : File)
    (ys : list (str * Source)) (i : nat) (line : str) (src : Source) :
  disk !! path = Some f -> endswith path (pystr ".gz") = false ->
  plain_ascii (f_data f) ->
  read_whole_file_lines disk path = Return ys ->
  ys !! i = Some (line, src) ->
  exists before after k,
    f_data f = before ++ line ++ after
    /\ length before = k /\ s_offset src = Some (Z.of_nat k).
Proof.
  intros Hf Hgz Hascii. unfold read_whole_file_lines, stat_file. rewrite Hf.
  cbn [bind]. rewrite Hgz. intros [= <-] Hi.
  apply with_offsets_spec in Hi as [Hl Ho].
  pose proof (text_lines_plain_ascii (f_data f) Hascii) as Hcat.
  pose proof (take_drop_middle _ _ _ Hl) as Hmid.
  exists (concat (take i (text_lines (f_data f)))),
         (concat (drop (S i) (text_lines (f_data f)))), 
         (length (concat (take i (text_lines (f_data f))))).
  split.
  - rewrite <- Hcat at 1. rewrite <- Hmid at 1. rewrite concat_app. done.
  - split; [done|]. rewrite Ho. f_equal.
    rewrite utf8_encode_ascii; [lia|].
    assert (HF : Forall (fun b => b < 128) (concat (text_lines (f_data f)))).
    { rewrite Hcat. eapply Forall_impl; [exact Hascii|]. by intros ? [? ?]. }
    rewrite <- (take_drop i (text_lines (f_data f))), concat_app in HF.
    by apply Forall_app in HF as [? _].
Qed.

End with_runtime.

(** C6 fails on the code.  For the plain file with the bytes FF 0A 41 0A,
    [read_whole_file_lines] yields the second line with offset 4, the size
    of the file, although that line starts at byte 2: the byte FF is read
    as U+FFFD, which counts for three bytes when the line is encoded again.
    For the bytes 61 0D 0A 62 0A the second line is yielded with offset 2
    although it starts at byte 3: the carriage return is dropped by the
    text-mode reader.  On the same bytes [follow_active_binary], which
    reads in binary mode, reports the byte positions 2 and 4, and 3 and 5,
    at which the lines end. *)
Theorem C6_offsets_drift :
  read_whole_file_lines (RT:=basic_runtime) garbled_disk garbled_path
  = Return [([REPLACEMENT; LF], plain_source garbled_file 0);
            ([65; LF], plain_source garbled_file 4)]
  /\ drop 2 (f_data garbled_file) = utf8_encode [65; LF]
  /\ drop 4 (f_data garbled_file) = []
  /\ read_whole_file_lines (RT:=basic_runtime) crlf_disk garbled_path
     = Return [([97; LF], plain_source crlf_file 0);
               ([98; LF], plain_source crlf_file 2)]
  /\ drop 3 (f_data crlf_file) = utf8_encode [98; LF]
  /\ follow_active_binary (f_data garbled_file) 0
     = [([REPLACEMENT; LF], 2%Z); ([65; LF], 4%Z)]
  /\ follow_active_binary (f_data crlf_file) 0
     = [([97; CR; LF], 3%Z); ([98; LF], 5%Z)].
Proof. repeat (split; [vm_compute; reflexivity|]). vm_compute; reflexivity. Qed.

End SourceFacts.

(** ** Facts about the router and the orchestrator *)
Module MainFacts.
Import Py PyFacts parser_fgt_v1 checkpoint source_file main MainSpec Examples ParserFacts
  CheckpointFacts.

Lemma counters_le_refl (c : Counters) : counters_le c c.
Proof. unfold counters_le. lia. Qed.

Lemma counters_le_trans (a b c : Counters) :
  counters_le a b -> counters_le b c -> counters_le a c.
Proof. unfold counters_le. lia. Qed.

Lemma world_le_refl (w : World) : world_le w w.
Proof. apply counters_le_refl. Qed.

Lemma world_le_trans (a b c : World) : world_le a b -> world_le b c -> world_le a c.
Proof. apply counters_le_trans. Qed.

Create HintDb counters.
#[local] Hint Resolve world_le_refl world_le_trans : counters.

Ltac counters := unfold world_le, counters_le; simpl; lia.

Section with_env.
Context `{RT : Runtime} (env : Env).

Lemma _write_dlq_le (w : World) (r : RouteReason) (raw : str) (src : Source) :
  world_le w (_write_dlq env w r raw src).
Proof. unfold _write_dlq. destruct (sink_ok env _); counters. Qed.

Lemma _write_event_le (w : World) (e : Event) (src : Source) :
  world_le w (_write_event env w e src).
Proof.
  unfold _write_event. destruct (sink_ok env _); [|counters].
  destruct (truthy (event_ts e)); counters.
Qed.

(** What one line does to the state: it returns, no counter falls, one
    sink call is added for that line, and pointer and ledger stay. *)
Lemma ingest_line_returns (w : World) (raw_line : str) (src : Source) :
  exists w' x,
    ingest_line env w raw_line src = Return w'
    /\ world_le w w'
    /\ w_trace w' = w_trace w ++ [x]
    /\ raw_of x = raw_line /\ inode_of x = s_inode src
    /\ ck_completed (w_ck w') = ck_completed (w_ck w)
    /\ a_inode (ck_active (w_ck w')) = a_inode (ck_active (w_ck w))
    /\ a_offset (ck_active (w_ck w')) = a_offset (ck_active (w_ck w)).
Proof.
  unfold ingest_line.
  set (w1 := {| w_ck := _; w_trace := w_trace w |}).
  assert (H1 : world_le w w1) by (unfold w1; counters).
  destruct (parse_fortigate_line_cases raw_line (now_year env (length (w_trace w))))
    as [[r ->] | (e & -> & Hraw)]; cbn [bind].
  - exists (_write_dlq env w1 (from_parser r) raw_line src).
    unfold _write_dlq. destruct (sink_ok env _); eexists; (split; [reflexivity|]).
    + split; [unfold w1; counters|]. done.
    + split; [unfold w1; counters|]. done.
  - exists (_write_event env w1 e src).
    unfold _write_event. destruct (sink_ok env _); eexists; (split; [reflexivity|]).
    + split; [destruct (truthy (event_ts e)); unfold w1; counters|].
      split; [reflexivity|]. split; [exact Hraw|]. split; [reflexivity|].
      destruct (truthy (event_ts e)); done.
    + split; [unfold w1; counters|]. done.
Qed.

Lemma ingest_lines_returns (lines : list (str * Source)) :
  forall w, exists w' xs,
    ingest_lines env lines w = Return w'
    /\ world_le w w'
    /\ w_trace w' = w_trace w ++ xs
    /\ map raw_of xs = map fst lines
    /\ map inode_of xs = map (fun y => s_inode y.2) lines
    /\ ck_completed (w_ck w') = ck_completed (w_ck w)
    /\ a_inode (ck_active (w_ck w')) = a_inode (ck_active (w_ck w))
    /\ a_offset (ck_active (w_ck w')) = a_offset (ck_active (w_ck w)).
Proof.
  induction lines as [|[line src] lines IH]; intros w.
  - exists w, []. rewrite app_nil_r. repeat split; first [done | apply world_le_refl].
  - destruct (ingest_line_returns w line src)
      as (w1 & x & H1 & Hle1 & Ht1 & Hr1 & Hi1 & Hc1 & Ha1 & Ho1).
    destruct (IH w1) as (w2 & xs & H2 & Hle2 & Ht2 & Hr2 & Hi2 & Hc2 & Ha2 & Ho2).
    exists w2, (x :: xs). cbn [ingest_lines]. rewrite H1. cbn [bind].
    split; [exact H2|]. split; [by eapply world_le_trans|].
    split; [rewrite Ht2, Ht1, <- app_assoc; done|].
    split; [simpl; congruence|]. split; [simpl; congruence|].
    repeat split; congruence.
Qed.

Lemma mark_world_le (w : World) (path : str) (inode size mtime : Z) :
  world_le w (mark_world env w path inode size mtime).
Proof.
  unfold mark_world, world_le, mark_completed. simpl.
  destruct (_ <? _)%nat; apply counters_le_refl.
Qed.

Lemma process_rotated_files_le (disk : Disk) (paths : list str) :
  forall w w', process_rotated_files env disk paths w = Return w' -> world_le w w'.
Proof.
  induction paths as [|path paths IH]; intros w w'; cbn [process_rotated_files].
  - intros [= <-]. apply world_le_refl.
  - destruct (stat_file disk path) as [[[inode size] mtime]|e|] eqn:Es.
    + destruct (is_completed (w_ck w) path inode size mtime); [apply IH|].
      destruct (read_whole_file_lines disk path) as [lines|e|]; try done. cbn [bind].
      destruct (ingest_lines_returns lines w) as (w1 & xs & -> & Hle & _). cbn [bind].
      intros H. apply IH in H.
      eapply world_le_trans; [exact Hle|].
      eapply world_le_trans; [apply mark_world_le|exact H].
    + destruct e; try done. apply IH.
    + done.
Qed.

Lemma tail_loop_le (tenv : TailEnv) (ys : list (str * Z)) :
  forall k w w' st, tail_loop env tenv ys k w = Return (w', st) -> world_le w w'.
Proof.
  induction ys as [|[line new_offset] ys IH]; intros k w w' st; cbn [tail_loop].
  - intros [= <- _]. apply world_le_refl.
  - destruct (inode_changed _ _).
    + intros [= <- _]. counters.
    + match goal with |- context [ingest_line env w line ?src] =>
        destruct (ingest_line_returns w line src) as (w1 & x & -> & Hle & _) end.
      cbn [bind]. destruct (t_expired tenv k).
      * intros [= <- _]. eapply world_le_trans; [exact Hle|]. counters.
      * intros H. apply IH in H. eapply world_le_trans; [exact Hle|].
        eapply world_le_trans; [|exact H]. counters.
Qed.

Lemma sync_active_counters (ck : Checkpoint) (cur : Z) :
  ck_counters (sync_active ck cur) = ck_counters ck.
Proof.
  unfold sync_active. destruct (a_inode (ck_active ck)); simpl;
    destruct (bool_decide _); done.
Qed.

Lemma process_active_tail_le (tenv : TailEnv) (w w' : World) (st : TailStatus) :
  process_active_tail env tenv w = Return (w', st) -> world_le w w'.
Proof.
  unfold process_active_tail. destruct (t_inode tenv) as [cur|].
  - destruct (t_data tenv) as [data|]; [|done].
    intros H. apply tail_loop_le in H. eapply world_le_trans; [|exact H].
    unfold world_le. simpl. rewrite sync_active_counters. apply counters_le_refl.
  - intros [= <- _]. apply world_le_refl.
Qed.

Lemma process_active_tail_reset (tenv : TailEnv) (w : World) (a b : Z) (data : bytes) :
  a_inode (ck_active (w_ck w)) = Some a -> t_inode tenv = Some b -> a <> b ->
  t_data tenv = Some data ->
  process_active_tail env tenv w
  = tail_loop env tenv (follow_active_binary data 0) 0
      (with_ck w (set_offset (w_ck w) (Some b) 0)).
Proof.
  intros Ha Hb Hne Hd. unfold process_active_tail. rewrite Hb, Hd.
  unfold sync_active. rewrite Ha.
  rewrite bool_decide_eq_false_2 by (rewrite Ha; congruence).
  reflexivity.
Qed.

Lemma tail_loop_rotation (tenv : TailEnv) (w : World) (a b : Z)
    (line : str) (new_offset : Z) (ys : list (str * Z)) (k : nat) :
  a_inode (ck_active (w_ck w)) = Some a -> a <> b -> t_probe tenv k = Some b ->
  tail_loop env tenv ((line, new_offset) :: ys) k w
  = Return (with_ck w (set_offset (w_ck w) (Some b) 0), returned).
Proof.
  intros Ha Hne Hp. cbn [tail_loop]. rewrite Hp, Ha. unfold inode_changed.
  rewrite bool_decide_eq_false_2 by congruence. reflexivity.
Qed.

Lemma is_completed_mark_world (w : World) (path : str) (inode size mtime : Z) :
  is_completed (w_ck (mark_world env w path inode size mtime)) path inode size mtime
  = true.
Proof.
  apply is_completed_iff.
  exists (new_record path inode size mtime (now_epoch env (length (w_trace w)))).
  split; [|reflexivity].
  unfold mark_world. cbn [w_ck]. rewrite ledger_mark_completed.
  apply last_n_snoc_In. unfold LEDGER_CAP. lia.
Qed.

End with_env.

Section with_loop.
Context `{RT : Runtime} `{JS : Json} `{MT : Metrics} (env : Env).

Lemma flush_checkpoint_le (it : Iter) (l : Loop) (w : World) :
  world_le w (flush_checkpoint it l w).1.1.
Proof.
  unfold flush_checkpoint. destruct (_ <=? _)%Z; [|apply world_le_refl].
  unfold save_checkpoint.
  destruct (_atomic_write_json _ _ _ _ _); counters.
Qed.

Lemma emit_metrics_le (it : Iter) (l : Loop) (w : World) :
  world_le w (emit_metrics it l w).1.1.1.
Proof.
  unfold emit_metrics. destruct (_ <=? _)%Z; [|apply world_le_refl].
  destruct (build_metrics _ _ _) as [mw metric].
  destruct (i_metrics_ok it); counters.
Qed.

Lemma main_iteration_le (it : Iter) (l l' : Loop) (st : TailStatus) :
  main_iteration env it l = Return (l', st) -> world_le (l_world l) (l_world l').
Proof.
  unfold main_iteration.
  destruct (process_rotated_files env (i_disk it) _ (l_world l)) as [w1|e|] eqn:E1;
    try done. cbn [bind].
  apply process_rotated_files_le in E1.
  destruct (process_active_tail env (i_tail it) w1) as [[w2 st2]|e|] eqn:E2; try done.
  cbn [bind]. apply process_active_tail_le in E2.
  destruct st2.
  - pose proof (flush_checkpoint_le it l w2) as H3.
    destruct (flush_checkpoint it l w2) as [[w3 fs] lf]. cbn [fst] in H3.
    pose proof (emit_metrics_le it l w3) as H4.
    destruct (emit_metrics it l w3) as [[[w4 mw] sink] lm]. cbn [fst] in H4.
    intros [= <- _]. cbn [l_world].
    eauto with counters.
  - intros [= <- _]. cbn [l_world]. eauto with counters.
Qed.

Lemma main_loop_le (its : list Iter) :
  forall l l' st, main_loop env its l = Return (l', st) ->
                  world_le (l_world l) (l_world l').
Proof.
  induction its as [|it its IH]; intros l l' st; cbn [main_loop].
  - intros [= <- _]. apply world_le_refl.
  - destruct (main_iteration env it l) as [[l1 st1]|e|] eqn:E1; try done. cbn [bind].
    apply main_iteration_le in E1. destruct st1.
    + intros H. apply IH in H. eauto with counters.
    + by intros [= <- _].
Qed.

(** C9. No counter of the checkpoint ever decreases.  Along any run of the
    main loop every counter at the end is at least its value at the start;
    and the same holds for each operation on its own: routing an event or
    a dead-letter record, with the sink write succeeding or failing;
    processing the rotated files; one slice of the active file; the
    checkpoint flush, written or failed; the metrics emission, written or
    failed. *)
Theorem C9_counters_monotone (its : list Iter) (l l' : Loop) (st : TailStatus)
    (Hrun : main_loop env its l = Return (l', st)) :
  world_le (l_world l) (l_world l')
  /\ (forall w e src, world_le w (_write_event env w e src))
  /\ (forall w r raw_line src, world_le w (_write_dlq env w r raw_line src))
  /\ (forall disk paths w w',
        process_rotated_files env disk paths w = Return w' -> world_le w w')
  /\ (forall tenv w w' st',
        process_active_tail env tenv w = Return (w', st') -> world_le w w')
  /\ (forall it l0 w, world_le w (flush_checkpoint it l0 w).1.1)
  /\ (forall it l0 w, world_le w (emit_metrics it l0 w).1.1.1).
Proof.
  split; [by eapply main_loop_le|].
  split; [apply _write_event_le|]. split; [apply _write_dlq_le|].
  split; [apply process_rotated_files_le|]. split; [apply process_active_tail_le|].
  split; [apply flush_checkpoint_le | apply emit_metrics_le].
Qed.

End with_loop.

Lemma C9_counters_monotone_witness :
  main_loop (RT:=basic_runtime) (JS:=json_ref.codec) (MT:=counters_metrics) quiet_env
    [first_turn; second_turn] start_loop
  = Return (after_second_turn, returned)
  /\ world_le (l_world start_loop) (l_world after_second_turn).
Proof.
  assert (Hrun : main_loop (RT:=basic_runtime) (JS:=json_ref.codec)
                   (MT:=counters_metrics) quiet_env [first_turn; second_turn] start_loop
                 = Return (after_second_turn, returned))
    by (vm_compute; reflexivity).
  exact (conj Hrun (proj1 (C9_counters_monotone (RT:=basic_runtime)
                             (JS:=json_ref.codec) (MT:=counters_metrics) quiet_env
                             [first_turn; second_turn] start_loop after_second_turn
                             returned Hrun))).
Defined.

(** C2, as stated, fails on the code.  The tailer follows A (inode 11) to
    offset 144 and routes its two lines; A is then rotated and B (inode 12)
    is the active file.  In the next turn the drain reads the rotated copy
    of A from its first byte and routes both lines again, and the pointer
    is reset to B: each line of A has been routed twice, not once. *)
Lemma C2_counterexample :
  main_loop (RT:=basic_runtime) (JS:=json_ref.codec) (MT:=counters_metrics) quiet_env
    [first_turn] start_loop
  = Return (after_first_turn, returned)
  /\ a_inode (ck_active (w_ck (l_world after_first_turn))) = Some inode_a
  /\ a_offset (ck_active (w_ck (l_world after_first_turn))) = 144%Z
  /\ map raw_of (w_trace (l_world after_first_turn)) = [ok_line; bad_line]
  /\ main_loop (RT:=basic_runtime) (JS:=json_ref.codec) (MT:=counters_metrics) quiet_env
       [second_turn] after_first_turn
     = Return (after_second_turn, returned)
  /\ a_inode (ck_active (w_ck (l_world after_second_turn))) = Some inode_b
  /\ map raw_of (w_trace (l_world after_second_turn))
     = [ok_line; bad_line; ok_line; bad_line; next_line]
  /\ times_routed ok_line (w_trace (l_world after_second_turn)) = 2%nat
  /\ times_routed bad_line (w_trace (l_world after_second_turn)) = 2%nat.
Proof. repeat (split; [vm_compute; reflexivity|]). vm_compute; reflexivity. Qed.

End MainFacts.

(** ** The key/value grammar, further *)
Module KvFacts.
Import Py PyFacts parser_fgt_v1 ParserFacts KvSpec MoreExamples.

Lemma parse_kv_loop_fuel (f1 : nat) :
  forall (f2 : nat) (s : str) (out : gmap str str),
    (length s <= f1)%nat -> (length s <= f2)%nat ->
    parse_kv_loop f1 s out = parse_kv_loop f2 s out.
Proof.
  induction f1 as [|f1 IH]; intros f2 s out H1 H2.
  - destruct s; simpl in *; [by destruct f2 | lia].
  - destruct s as [|c0 s0]; [by destruct f2|].
    destruct f2 as [|f2]; [simpl in H2; lia|].
    rewrite !parse_kv_loop_step.
    pose proof (drop_while_length is_sp (c0 :: s0)) as Hs1.
    destruct (drop_while is_sp (c0 :: s0)) as [|c1 s1'] eqn:Es1; [done|].
    cbv zeta.
    pose proof (take_drop_while is_key_char (c1 :: s1')) as Hsplit.
    destruct (take_while is_key_char (c1 :: s1')) as [|k key] eqn:Ek; [done|].
    destruct (drop_while is_key_char (c1 :: s1')) as [|c s2] eqn:Ed; [done|].
    destruct (c =? EQUALS); [|done].
    assert (Hl2 : (S (length s2) < length (c1 :: s1'))%nat).
    { rewrite <- Hsplit. rewrite length_app. simpl. lia. }
    assert (Hs3 : forall v s3,
      match s2 with
      | q :: s2' => if q =? DQUOTE then scan_quoted s2' []
                    else (take_while not_sp s2, drop_while not_sp s2)
      | [] => (take_while not_sp s2, drop_while not_sp s2)
      end = (v, s3) -> (length s3 <= length s2)%nat).
    { intros v s3. destruct s2 as [|q s2'].
      - intros [= <- <-]. simpl. lia.
      - destruct (q =? DQUOTE).
        + intros E. pose proof (scan_quoted_length s2' []) as H. rewrite E in H. simpl in *. lia.
        + intros [= <- <-]. apply (drop_while_length not_sp (q :: s2')). }
    destruct (match s2 with
      | q :: s2' => if q =? DQUOTE then scan_quoted s2' []
                    else (take_while not_sp s2, drop_while not_sp s2)
      | [] => (take_while not_sp s2, drop_while not_sp s2)
      end) as [value s3] eqn:E3.
    specialize (Hs3 _ _ eq_refl).
    pose proof (drop_while_length is_sp s3). simpl in *.
    apply IH; lia.
Qed.

Lemma parse_kv_loop_spaces (fuel : nat) (s : str) (out : gmap str str) :
  parse_kv_loop (S fuel) s out = parse_kv_loop (S fuel) (drop_while is_sp s) out.
Proof.
  destruct s as [|c0 s0]; [done|].
  rewrite parse_kv_loop_step.
  destruct (drop_while is_sp (c0 :: s0)) as [|c1 s1] eqn:E; [done|].
  rewrite parse_kv_loop_step.
  apply drop_while_head in E as Hc1. by rewrite (drop_while_stop is_sp c1 s1 Hc1).
Qed.

Lemma scan_quoted_backslash (nxt : N) (s acc : str) :
  scan_quoted (BACKSLASH :: nxt :: s) acc = scan_quoted s (acc ++ [nxt]).
Proof. reflexivity. Qed.

Lemma scan_quoted_plain (c : N) (s acc : str) :
  (c =? BACKSLASH) = false -> (c =? DQUOTE) = false ->
  scan_quoted (c :: s) acc = scan_quoted s (acc ++ [c]).
Proof. intros H1 H2. cbn [scan_quoted]. rewrite H1, H2. by destruct s. Qed.

Lemma scan_quoted_escape (v : str) :
  forall rest acc, scan_quoted (kv_escape v ++ DQUOTE :: rest) acc = (acc ++ v, rest).
Proof.
  induction v as [|c v IH]; intros rest acc.
  - simpl. by rewrite app_nil_r.
  - change (kv_escape (c :: v))
      with ((if (c =? BACKSLASH) || (c =? DQUOTE) then [BACKSLASH; c] else [c])
            ++ kv_escape v).
    destruct ((c =? BACKSLASH) || (c =? DQUOTE)) eqn:E.
    + cbn [app]. rewrite scan_quoted_backslash, IH, <- app_assoc. done.
    + cbn [app]. apply orb_false_iff in E as [E1 E2].
      rewrite scan_quoted_plain, IH, <- app_assoc; done.
Qed.

Lemma good_key_chars (k : str) :
  good_key k -> Forall (fun c => is_key_char c = true) k.
Proof.
  intros [_ H]. eapply Forall_impl; [exact H|].
  intros c [? ?]. unfold is_key_char. lia.
Qed.

(** One well-formed token at the head of the input, followed by the end
    of the input or by a space. *)
Lemma parse_kv_loop_token (fuel : nat) (t : Token) (rest : str) (out : gmap str str) :
  good_token t -> match rest with [] => True | c :: _ => c = SPACE end ->
  parse_kv_loop (S fuel) (render_token t ++ rest) out
  = parse_kv_loop fuel (drop_while is_sp rest) (<[t_key t := t_value t]> out).
Proof.
  intros [Hk Hv] Hrest. destruct t as [key quoted value]. cbn [t_key t_quoted t_value] in *.
  pose proof (good_key_chars key Hk) as HF. destruct Hk as [Hne Hk].
  destruct key as [|k key]; [done|].
  assert (Hsp : is_sp k = false).
  { apply Forall_cons in Hk as [[_ Hk] _]. unfold is_sp. lia. }
  unfold render_token. cbn [t_key t_quoted t_value].
  set (X := (if quoted then [DQUOTE] ++ kv_escape value ++ [DQUOTE] else value) ++ rest).
  replace (((k :: key) ++ [EQUALS] ++ (if quoted then [DQUOTE] ++ kv_escape value ++ [DQUOTE]
                                      else value)) ++ rest)
    with (k :: (key ++ EQUALS :: X)) by (unfold X; cbn [app]; by rewrite <- !app_assoc).
  rewrite parse_kv_loop_step, (drop_while_stop is_sp) by done.
  destruct (take_while_app_stop is_key_char (k :: key) EQUALS X HF eq_refl) as [Ht Hd].
  cbn [app] in Ht, Hd. cbv beta iota zeta. rewrite Ht, Hd. rewrite N.eqb_refl.
  assert (HX : match X with
               | q :: s2' => if q =? DQUOTE then scan_quoted s2' []
                             else (take_while not_sp X, drop_while not_sp X)
               | [] => (take_while not_sp X, drop_while not_sp X)
               end = (value, rest)).
  { unfold X. destruct quoted.
    - cbn [app]. rewrite N.eqb_refl. rewrite <- app_assoc. cbn [app].
      by rewrite scan_quoted_escape.
    - destruct (Hv eq_refl) as [Hns Hq].
      assert (Hns' : Forall (fun c => not_sp c = true) value).
      { eapply Forall_impl; [exact Hns|]. intros c Hc. cbv beta in Hc. unfold not_sp. lia. }
      assert (Hsplit : take_while not_sp (value ++ rest) = value
                       /\ drop_while not_sp (value ++ rest) = rest).
      { destruct rest as [|c rest'].
        - rewrite app_nil_r. by apply take_while_all.
        - subst c. by apply take_while_app_stop. }
      destruct Hsplit as [E1 E2].
      destruct value as [|q value'].
      + cbn [app] in *. destruct rest as [|c rest']; [done|]. subst c.
        change (SPACE =? DQUOTE) with false. cbv iota. by rewrite E1, E2.
      + cbn [app] in *. assert ((q =? DQUOTE) = false) as ->.
        { simpl in Hq. apply N.eqb_neq. congruence. }
        by rewrite E1, E2. }
  rewrite HX. reflexivity.
Qed.

Lemma render_token_length (t : Token) :
  good_token t -> (2 <= length (render_token t))%nat.
Proof.
  intros [[Hne _] _]. unfold render_token. destruct (t_key t); [done|].
  rewrite !length_app. simpl. lia.
Qed.

Lemma render_head (t : Token) (ts : list Token) (rest : str) :
  good_token t -> drop_while is_sp (render (t :: ts) ++ rest) = render (t :: ts) ++ rest.
Proof.
  intros [[Hne Hk] _].
  assert (exists k r, render (t :: ts) ++ rest = k :: r /\ is_sp k = false)
    as (k & r & -> & Hk').
  { destruct (t_key t) as [|k key] eqn:E; [done|].
    apply Forall_cons in Hk as [[_ Hk] _].
    exists k. cbn [render]. unfold render_token. rewrite E.
    destruct ts; cbn [app]; eexists; (split; [reflexivity|]); unfold is_sp; lia. }
  by apply drop_while_stop.
Qed.

Lemma parse_kv_loop_render (ts : list Token) :
  forall (fuel : nat) (rest : str) (out : gmap str str),
    Forall good_token ts ->
    match rest with [] => True | c :: _ => c = SPACE end ->
    (length (render ts ++ rest) <= fuel)%nat ->
    parse_kv_loop fuel (render ts ++ rest) out
    = parse_kv_loop fuel (drop_while is_sp rest)
        (fold_left (fun m t => <[t_key t := t_value t]> m) ts out).
Proof.
  induction ts as [|t ts IH]; intros fuel rest out Hts Hrest Hlen.
  - cbn [render app fold_left]. destruct fuel as [|fuel].
    + destruct rest; [done|simpl in Hlen; lia].
    + apply parse_kv_loop_spaces.
  - apply Forall_cons in Hts as [Ht Hts]. cbn [fold_left].
    pose proof (render_token_length t Ht) as Hl.
    pose proof (drop_while_length is_sp rest) as Hdl.
    destruct ts as [|t2 ts].
    + cbn [render] in *. rewrite length_app in Hlen.
      destruct fuel as [|fuel]; [lia|].
      rewrite parse_kv_loop_token by done.
      apply parse_kv_loop_fuel; lia.
    + change (render (t :: t2 :: ts)) with (render_token t ++ [SPACE] ++ render (t2 :: ts)) in *.
      rewrite <- !app_assoc in *. rewrite !length_app in Hlen.
      destruct fuel as [|fuel]; [lia|].
      rewrite parse_kv_loop_token by done.
      cbn [app drop_while]. change (is_sp SPACE) with true. cbv iota.
      pose proof (IH fuel rest (<[t_key t := t_value t]> out) Hts Hrest) as IH'.
      rewrite length_app in IH'. cbn [app length] in Hlen.
      apply Forall_cons in Hts as [Ht2 _].
      rewrite (render_head t2 ts rest Ht2).
      rewrite IH' by lia. apply parse_kv_loop_fuel; lia.
Qed.

Lemma parse_kv_loop_junk (fuel : nat) (junk rest : str) (out : gmap str str) :
  junk <> [] -> Forall (fun c => c <> EQUALS /\ c <> SPACE) junk ->
  match rest with [] => True | c :: _ => c = SPACE end ->
  parse_kv_loop (S fuel) (junk ++ rest) out = Return out.
Proof.
  intros Hne Hj Hrest.
  pose proof (good_key_chars junk (conj Hne Hj)) as HF.
  destruct junk as [|k junk]; [done|].
  assert (Hsp : is_sp k = false).
  { apply Forall_cons in Hj as [[_ Hk] _]. unfold is_sp. lia. }
  cbn [app]. rewrite parse_kv_loop_step, (drop_while_stop is_sp) by done.
  cbv beta iota zeta.
  destruct rest as [|c rest'].
  - rewrite app_nil_r. destruct (take_while_all is_key_char (k :: junk) HF) as [-> ->].
    done.
  - subst c.
    destruct (take_while_app_stop is_key_char (k :: junk) SPACE rest' HF eq_refl)
      as [Ht Hd].
    cbn [app] in Ht, Hd. rewrite Ht, Hd. done.
Qed.

Lemma parse_kv_loop_empty_key (fuel : nat) (rest : str) (out : gmap str str) :
  parse_kv_loop (S fuel) (EQUALS :: rest) out = Return out.
Proof. reflexivity. Qed.

(** X1.  Rendering then parsing gives the mapping back: the key/value grammar
    reads every well-formed token list, quoted values with any characters
    included. *)
Theorem parse_kv_round_trip (ts : list Token) (Hts : Forall good_token ts) :
  parse_kv (render ts) = Return (kv_of ts).
Proof.
  unfold parse_kv, kv_of.
  pose proof (parse_kv_loop_render ts (length (render ts)) [] ∅ Hts I) as H.
  rewrite app_nil_r in H. rewrite H by lia.
  cbn [drop_while]. by destruct (length (render ts)).
Qed.

(** X2.  A token without [=], or with an empty key, ends the scan: the pairs
    read before it are kept and everything from it on is dropped. *)
Theorem parse_kv_stops_at_malformed (ts : list Token) (junk rest anything : str)
    (Hts : Forall good_token ts)
    (Hne : junk <> []) (Hjunk : Forall (fun c => c <> EQUALS /\ c <> SPACE) junk)
    (Hrest : match rest with [] => True | c :: _ => c = SPACE end) :
  parse_kv (render ts ++ [SPACE] ++ junk ++ rest) = Return (kv_of ts)
  /\ parse_kv (render ts ++ [SPACE; EQUALS] ++ anything) = Return (kv_of ts).
Proof.
  unfold parse_kv, kv_of. split.
  - rewrite (parse_kv_loop_render ts _ ([SPACE] ++ junk ++ rest) ∅ Hts) by done.
    rewrite length_app. cbn [app length drop_while]. change (is_sp SPACE) with true.
    cbv iota. rewrite Nat.add_succ_r.
    rewrite parse_kv_loop_spaces.
    assert (drop_while is_sp (drop_while is_sp (junk ++ rest)) = junk ++ rest) as ->.
    { destruct junk as [|k junk]; [done|].
      apply Forall_cons in Hjunk as [[_ Hk] _].
      assert (is_sp k = false) by (unfold is_sp; lia).
      cbn [app]. by rewrite !(drop_while_stop is_sp). }
    by apply parse_kv_loop_junk.
  - rewrite (parse_kv_loop_render ts _ ([SPACE; EQUALS] ++ anything) ∅ Hts) by done.
    rewrite length_app. cbn [app length drop_while]. rewrite Nat.add_succ_r.
    reflexivity.
Qed.

Lemma parse_kv_loop_keys (fuel : nat) :
  forall (s : str) (out m : gmap str str),
    (forall k, is_Some (out !! k) -> good_key k) ->
    parse_kv_loop fuel s out = Return m ->
    forall k, is_Some (m !! k) -> good_key k.
Proof.
  induction fuel as [|fuel IH]; intros s out m Hout.
  - destruct s; simpl; [intros [= <-]; exact Hout | done].
  - destruct s as [|c0 s0]; [simpl; intros [= <-]; exact Hout|].
    rewrite parse_kv_loop_step.
    destruct (drop_while is_sp (c0 :: s0)) as [|c1 s1'] eqn:Es1;
      [intros [= <-]; exact Hout|].
    cbv zeta.
    pose proof (take_while_Forall is_key_char (c1 :: s1')) as HF.
    destruct (take_while is_key_char (c1 :: s1')) as [|k key] eqn:Ek;
      [intros [= <-]; exact Hout|].
    destruct (drop_while is_key_char (c1 :: s1')) as [|c s2] eqn:Ed;
      [intros [= <-]; exact Hout|].
    destruct (c =? EQUALS); [|intros [= <-]; exact Hout].
    destruct (match s2 with
      | q :: s2' => if q =? DQUOTE then scan_quoted s2' []
                    else (take_while not_sp s2, drop_while not_sp s2)
      | [] => (take_while not_sp s2, drop_while not_sp s2)
      end) as [value s3].
    apply IH. intros k' Hk'.
    destruct (decide (k' = k :: key)) as [-> | Hneq].
    + split; [done|]. eapply Forall_impl; [exact HF|].
      intros x Hx. cbv beta in Hx. unfold is_key_char in Hx. lia.
    + rewrite lookup_insert_ne in Hk' by done. by apply Hout.
Qed.

(** X3.  Every key of the mapping that [parse_kv] returns is non-empty and
    holds neither [=] nor a space. *)
Theorem parse_kv_keys (body : str) (m : gmap str str) (k : str)
    (Hm : parse_kv body = Return m) (Hk : is_Some (m !! k)) :
  good_key k.
Proof.
  eapply (parse_kv_loop_keys (length body) body ∅ m); [|exact Hm|exact Hk].
  intros k' [v Hv]. by rewrite lookup_empty in Hv.
Qed.

Ltac good_tokens :=
  repeat first
    [ apply Forall_nil
    | apply Forall_cons; split
    | split
    | discriminate
    | progress (unfold good_token, good_key; cbn)
    | intros _
    | intros; discriminate ].

Lemma parse_kv_round_trip_witness :
  Forall good_token three_tokens
  /\ parse_kv (render three_tokens) = Return (kv_of three_tokens).
Proof.
  assert (H : Forall good_token three_tokens) by (unfold three_tokens; good_tokens).
  exact (conj H (parse_kv_round_trip three_tokens H)).
Defined.

Lemma parse_kv_stops_at_malformed_witness :
  parse_kv (render three_tokens ++ [SPACE] ++ pystr "oops" ++ pystr " d=4")
  = Return (kv_of three_tokens).
Proof.
  assert (H : Forall good_token three_tokens) by (unfold three_tokens; good_tokens).
  assert (H1 : pystr "oops" <> []) by discriminate.
  assert (H2 : Forall (fun c => c <> EQUALS /\ c <> SPACE) (pystr "oops"))
    by (cbn; good_tokens).
  exact (proj1 (parse_kv_stops_at_malformed three_tokens (pystr "oops") (pystr " d=4") []
                  H H1 H2 eq_refl)).
Defined.

Lemma parse_kv_keys_witness :
  parse_kv (render three_tokens) = Return (kv_of three_tokens)
  /\ good_key (pystr "b").
Proof.
  assert (H : parse_kv (render three_tokens) = Return (kv_of three_tokens))
    by (vm_compute; reflexivity).
  assert (Hk : is_Some (kv_of three_tokens !! pystr "b"))
    by (eexists; vm_compute; reflexivity).
  exact (conj H (parse_kv_keys _ _ _ H Hk)).
Defined.

End KvFacts.

(** * Integers read from fields *)
Module IntFacts.
Import Py PyFacts parser_fgt_v1 ParserFacts IntSpec.

Lemma uint_value_acc (d : Decimal.uint) (p : positive) :
  uint_value d (Npos p) = Npos (Pos.of_uint_acc d p).
Proof.
  revert p. induction d; intros p; cbn [uint_value Pos.of_uint_acc]; try done;
    rewrite <- IHd; f_equal; lia.
Qed.

Lemma uint_value_of_uint (d : Decimal.uint) : uint_value d 0 = Pos.of_uint d.
Proof.
  induction d; cbn [uint_value Pos.of_uint]; try done;
    first [exact IHd | apply (uint_value_acc d)].
Qed.

Section with_runtime.
Context `{RT : Runtime}.

Lemma int_digits_digit (c v : N) (s : str) (prev : bool) (acc : N) (n : nat) :
  (c =? UNDERSCORE) = false -> digit_value c = Some v ->
  int_digits (c :: s) prev acc n = int_digits s false (10 * acc + v) (S n).
Proof. intros H1 H2. cbn [int_digits]. by rewrite H1, H2. Qed.

(** The digits of a numeral, read by the digit loop of [int()]: the loop
    goes on with what follows the numeral. *)
Lemma int_digits_uint (d : Decimal.uint) (rest : str) :
  forall acc n,
    int_digits (pystr (NilEmpty.string_of_uint d) ++ rest) false acc n
    = int_digits rest false (uint_value d acc)
        (n + length (pystr (NilEmpty.string_of_uint d)))%nat.
Proof.
  induction d; intros acc n;
    cbn [NilEmpty.string_of_uint pystr length uint_value app].
  - by rewrite Nat.add_0_r.
  - rewrite (int_digits_digit _ 0) by reflexivity. rewrite IHd. by rewrite ?N.add_0_r, Nat.add_succ_r.
  - rewrite (int_digits_digit _ 1) by reflexivity. rewrite IHd. by rewrite Nat.add_succ_r.
  - rewrite (int_digits_digit _ 2) by reflexivity. rewrite IHd. by rewrite Nat.add_succ_r.
  - rewrite (int_digits_digit _ 3) by reflexivity. rewrite IHd. by rewrite Nat.add_succ_r.
  - rewrite (int_digits_digit _ 4) by reflexivity. rewrite IHd. by rewrite Nat.add_succ_r.
  - rewrite (int_digits_digit _ 5) by reflexivity. rewrite IHd. by rewrite Nat.add_succ_r.
  - rewrite (int_digits_digit _ 6) by reflexivity. rewrite IHd. by rewrite Nat.add_succ_r.
  - rewrite (int_digits_digit _ 7) by reflexivity. rewrite IHd. by rewrite Nat.add_succ_r.
  - rewrite (int_digits_digit _ 8) by reflexivity. rewrite IHd. by rewrite Nat.add_succ_r.
  - rewrite (int_digits_digit _ 9) by reflexivity. rewrite IHd. by rewrite Nat.add_succ_r.
Qed.

(** The first character of a numeral that is not [Nil] is an ASCII digit. *)
Lemma uint_head_digit (d : Decimal.uint) :
  d <> Decimal.Nil ->
  exists c r, pystr (NilEmpty.string_of_uint d) = c :: r /\ 48 <= c /\ c <= 57.
Proof.
  destruct d; [done|..]; intros _; cbn [NilEmpty.string_of_uint pystr];
    eexists _, _; (split; [reflexivity|]); cbn; lia.
Qed.

Lemma limit_ok (n : nat) :
  (n <= INT_MAX_STR_DIGITS_THRESHOLD)%nat ->
  ((0 <? int_max_str_digits)%nat
   && (Nat.max INT_MAX_STR_DIGITS_THRESHOLD int_max_str_digits <? n)%nat) = false.
Proof. intros H. apply andb_false_iff. right. apply Nat.ltb_ge. lia. Qed.

(** Whitespace of [int()] is neither a digit nor an underscore. *)
Lemma int_space_plain (c : N) :
  int_space c = true -> digit_value c = None /\ (c =? UNDERSCORE) = false.
Proof.
  unfold int_space, digit_value, UNDERSCORE, SPACE. intros H.
  destruct (c <? 127) eqn:E.
  - assert ((c <? 128) = true) as -> by lia.
    assert (((48 <=? c) && (c <=? 57)) = false) as -> by lia. split; [done|lia].
  - rewrite H. assert (c <> 95) by (intros ->; done).
    split; [|lia]. destruct (c <? 128) eqn:E2; [|done].
    by assert (((48 <=? c) && (c <=? 57)) = false) as -> by lia.
Qed.

Lemma lstrip_all (p : N -> bool) (ws : str) :
  Forall (fun c => p c = true) ws -> lstrip p ws = [].
Proof.
  unfold lstrip. induction 1 as [|c ws Hc _ IH]; [done|].
  cbn [drop_while]. by rewrite Hc.
Qed.

Lemma lstrip_stop (p : N -> bool) (c : N) (s : str) :
  p c = false -> lstrip p (c :: s) = c :: s.
Proof. intros H. unfold lstrip. cbn [drop_while]. by rewrite H. Qed.

Lemma lstrip_app (p : N -> bool) (ws s : str) :
  Forall (fun c => p c = true) ws -> lstrip p (ws ++ s) = lstrip p s.
Proof.
  unfold lstrip. induction 1 as [|c ws Hc _ IH]; [done|].
  cbn [drop_while app]. by rewrite Hc.
Qed.

Lemma int_digits_spaces (ws : str) (acc : N) (n : nat) :
  Forall (fun c => int_space c = true) ws ->
  int_digits ws false acc n = Some (acc, n, ws).
Proof.
  destruct 1 as [|c ws Hc _]; [done|].
  destruct (int_space_plain c Hc) as [Hd Hu].
  cbn [int_digits]. by rewrite Hu, Hd.
Qed.

(** Leading whitespace is invisible to [int()]. *)
Lemma py_int_lstrip (ws s : str) :
  Forall (fun c => int_space c = true) ws -> py_int (ws ++ s) = py_int s.
Proof. intros H. unfold py_int. by rewrite (lstrip_app _ _ _ H). Qed.

Lemma py_int_uint (d : Decimal.uint) (ws : str) :
  d <> Decimal.Nil ->
  (length (pystr (NilEmpty.string_of_uint d)) <= INT_MAX_STR_DIGITS_THRESHOLD)%nat ->
  Forall (fun c => int_space c = true) ws ->
  py_int (pystr (NilEmpty.string_of_uint d) ++ ws) = Some (Z.of_N (uint_value d 0))
  /\ py_int (MINUS :: pystr (NilEmpty.string_of_uint d) ++ ws)
     = Some (- Z.of_N (uint_value d 0))%Z.
Proof.
  intros Hd Hlen Hws. destruct (uint_head_digit d Hd) as (c & r & E & Hc1 & Hc2).
  pose proof (int_digits_uint d ws 0 0) as Hdig.
  rewrite (int_digits_spaces _ _ _ Hws) in Hdig. rewrite E in *.
  assert (Hsp : int_space c = false).
  { unfold int_space. assert ((c <? 127) = true) as -> by lia. unfold SPACE. lia. }
  assert (Hp : (c =? PLUS) = false) by (unfold PLUS; lia).
  assert (Hm : (c =? MINUS) = false) by (unfold MINUS; lia).
  assert (Hu : (c =? UNDERSCORE) = false) by (unfold UNDERSCORE; lia).
  cbn [app] in *. cbn [Nat.add length] in *.
  split.
  - unfold py_int. rewrite !(lstrip_stop int_space c) by done.
    rewrite Hp, Hm, Hu, Hdig.
    rewrite (lstrip_all _ _ Hws). by rewrite (limit_ok _ Hlen).
  - unfold py_int. rewrite !(lstrip_stop int_space MINUS) by done.
    change (MINUS =? PLUS) with false. change (MINUS =? MINUS) with true. cbv iota.
    rewrite Hu, Hdig.
    rewrite (lstrip_all _ _ Hws). by rewrite (limit_ok _ Hlen).
Qed.

Lemma py_int_str_of_Z (z : Z) (ws : str) :
  (length (str_of_Z z) <= INT_MAX_STR_DIGITS_THRESHOLD)%nat ->
  Forall (fun c => int_space c = true) ws ->
  py_int (str_of_Z z ++ ws) = Some z.
Proof.
  intros Hlen Hws. revert Hlen.
  unfold str_of_Z. destruct z as [|p|p]; cbn [Z.to_int].
  - intros _.
    change (pystr _) with (pystr (NilEmpty.string_of_uint (Decimal.D0 Decimal.Nil))).
    by destruct (py_int_uint (Decimal.D0 Decimal.Nil) ws) as [-> _];
      [|cbn; unfold INT_MAX_STR_DIGITS_THRESHOLD; lia| |].
  - pose proof (DecimalPos.Unsigned.to_uint_nonnil p) as Hn.
    unfold NilZero.string_of_int, NilZero.string_of_uint.
    destruct (Pos.to_uint p) as [| | | | | | | | | |] eqn:E; [done|..];
      rewrite <- E in *; intros Hlen;
      destruct (py_int_uint (Pos.to_uint p) ws Hn Hlen Hws) as [-> _];
      rewrite uint_value_of_uint, DecimalPos.Unsigned.of_to; done.
  - pose proof (DecimalPos.Unsigned.to_uint_nonnil p) as Hn.
    unfold NilZero.string_of_int, NilZero.string_of_uint.
    destruct (Pos.to_uint p) as [| | | | | | | | | |] eqn:E; [done|..];
      rewrite <- E in *; cbn [pystr length]; intros Hlen;
      (destruct (py_int_uint (Pos.to_uint p) ws Hn) as [_ H]; [lia|done|]);
      change (N_of_ascii "-") with MINUS; cbn [app]; rewrite H;
      rewrite uint_value_of_uint, DecimalPos.Unsigned.of_to; done.
Qed.

(** What the digit loop consumed: digits and underscores, with a digit among
    them when the count went up. *)
Lemma int_digits_inv (s : str) :
  forall prev acc n v n' rest,
    int_digits s prev acc n = Some (v, n', rest) ->
    exists pre, s = pre ++ rest
      /\ Forall (fun c => is_digit c = true \/ c = UNDERSCORE) pre
      /\ (n <= n')%nat
      /\ ((n < n')%nat -> Exists (fun c => is_digit c = true) pre).
Proof.
  induction s as [|c s IH]; intros prev acc n v n' rest; cbn [int_digits].
  - destruct prev; [done|]. intros [= <- <- <-]. exists []. repeat split; [done|lia|lia].
  - destruct (c =? UNDERSCORE) eqn:Eu.
    + destruct prev; [done|]. intros H. apply IH in H as (pre & -> & Hpre & Hle & Hex).
      exists (c :: pre). repeat split; [|done|].
      * constructor; [right; unfold UNDERSCORE in *; lia|done].
      * intros Hlt. apply Exists_cons. right. auto.
    + destruct (digit_value c) as [d|] eqn:Ed.
      * intros H. apply IH in H as (pre & -> & Hpre & Hle & Hex).
        assert (Hc : is_digit c = true) by (unfold is_digit; by rewrite Ed).
        exists (c :: pre). repeat split; [|lia|].
        -- constructor; [by left|done].
        -- intros _. apply Exists_cons. by left.
      * destruct prev; [done|]. intros [= <- <- <-]. exists [].
        repeat split; [done|lia|lia].
Qed.

Lemma lstrip_nil_all (p : N -> bool) (s : str) :
  lstrip p s = [] -> Forall (fun c => p c = true) s.
Proof.
  unfold lstrip. induction s as [|c s IH]; [done|]. cbn [drop_while].
  destruct (p c) eqn:E; [|done]. intros H. constructor; auto.
Qed.

(** ** [_to_int] *)

(** X4.  [_to_int] reads back the decimal form of every integer below the digit
    limit of the interpreter, with any whitespace around it. *)
Theorem to_int_round_trip (z : Z) (before after : str)
    (Hlen : (length (str_of_Z z) <= INT_MAX_STR_DIGITS_THRESHOLD)%nat)
    (Hbefore : Forall (fun c => int_space c = true) before)
    (Hafter : Forall (fun c => int_space c = true) after) :
  _to_int (Some (before ++ str_of_Z z ++ after)) = Some z.
Proof.
  unfold _to_int. rewrite (py_int_lstrip _ _ Hbefore).
  by apply py_int_str_of_Z.
Qed.

(** X5.  A field that [_to_int] turns into a number holds a digit, and nothing but
    digits, signs, underscores and whitespace; every other field, like a
    missing one, gives [None]. *)
Theorem to_int_accepts (x : option str) (z : Z)
    (Hz : _to_int x = Some z) :
  exists s, x = Some s
    /\ Forall int_char s
    /\ Exists (fun c => is_digit c = true) s.
Proof.
  destruct x as [s|]; [|done]. exists s. split; [done|].
  unfold _to_int, py_int in Hz.
  pose proof (take_drop_while int_space s) as Hs.
  pose proof (take_while_Forall int_space s) as Hws.
  change (lstrip int_space s) with (drop_while int_space s) in Hz.
  set (ws := take_while int_space s) in *.
  set (s1 := drop_while int_space s) in *. clearbody ws s1. subst s.
  assert (Hsign : exists sg s2, s1 = sg ++ s2 /\ Forall int_char sg
     /\ exists v n rest, int_digits s2 false 0 0 = Some (v, n, rest)
        /\ (0 < n)%nat /\ lstrip int_space rest = []).
  { destruct s1 as [|c r]; [done|]. cbv beta iota zeta in Hz.
    destruct (c =? PLUS) eqn:Ep; [|destruct (c =? MINUS) eqn:Em].
    - exists [c], r. split; [done|]. split.
      { constructor; [|done]. right; right; left. unfold PLUS in *. lia. }
      destruct r as [|c2 r2]; [done|]. destruct (c2 =? UNDERSCORE); [done|].
      destruct (int_digits (c2 :: r2) false 0 0) as [[[v n] rest]|]; [|done].
      destruct n; [done|]. destruct (lstrip int_space rest) eqn:El; [|done].
      exists v, (S n), rest. repeat split; [lia|done].
    - exists [c], r. split; [done|]. split.
      { constructor; [|done]. right; right; right; left. unfold MINUS in *. lia. }
      destruct r as [|c2 r2]; [done|]. destruct (c2 =? UNDERSCORE); [done|].
      destruct (int_digits (c2 :: r2) false 0 0) as [[[v n] rest]|]; [|done].
      destruct n; [done|]. destruct (lstrip int_space rest) eqn:El; [|done].
      exists v, (S n), rest. repeat split; [lia|done].
    - exists [], (c :: r). split; [done|]. split; [done|].
      destruct (c =? UNDERSCORE); [done|].
      destruct (int_digits (c :: r) false 0 0) as [[[v n] rest]|]; [|done].
      destruct n; [done|]. destruct (lstrip int_space rest) eqn:El; [|done].
      exists v, (S n), rest. repeat split; [lia|done]. }
  destruct Hsign as (sg & s2 & -> & Hsg & v & n & rest & Hd & Hn & Hrest).
  apply int_digits_inv in Hd as (pre & -> & Hpre & _ & Hex).
  apply lstrip_nil_all in Hrest. split.
  - repeat apply Forall_app_2.
    + eapply Forall_impl; [exact Hws|]. intros c Hc. by left.
    + done.
    + eapply Forall_impl; [exact Hpre|]. intros c [Hc| ->]; [by right; left|].
      by right; right; right; right.
    + eapply Forall_impl; [exact Hrest|]. intros c Hc. by left.
  - apply Exists_app. right. apply Exists_app. right. apply Exists_app. left. auto.
Qed.

End with_runtime.

Lemma to_int_round_trip_witness :
  _to_int (RT:=basic_runtime) (Some ([SPACE] ++ str_of_Z (-443) ++ [10])) = Some (-443)%Z.
Proof.
  apply (to_int_round_trip (RT:=basic_runtime) (-443) [SPACE] [10]).
  - vm_compute. lia.
  - repeat constructor.
  - repeat constructor.
Defined.

Lemma to_int_accepts_witness :
  _to_int (RT:=basic_runtime) (Some (pystr "+4_43 ")) = Some 443%Z
  /\ exists s, Some (pystr "+4_43 ") = Some s
       /\ Forall (int_char (RT:=basic_runtime)) s
       /\ Exists (fun c => is_digit (RT:=basic_runtime) c = true) s.
Proof.
  assert (H : _to_int (RT:=basic_runtime) (Some (pystr "+4_43 ")) = Some 443%Z)
    by (vm_compute; reflexivity).
  exact (conj H (to_int_accepts (RT:=basic_runtime) _ _ H)).
Defined.

End IntFacts.

(** * Events, dead letters and the fallback timestamp *)
Module EventFacts.
Import Py PyFacts parser_fgt_v1 ParserSpec ParserFacts KvSpec KvFacts Examples MoreExamples.

Section with_runtime.
Context `{RT : Runtime}.

Lemma envelope_nonempty (line mon day time host body : str) :
  envelope line mon day time host body -> line <> [].
Proof.
  intros (ws1 & ws2 & ws3 & ws4 & nl & -> & (a & b & c & -> & _) & _). done.
Qed.

Lemma MONTHS_canonical (mon : str) :
  In mon canonical_months -> exists mon_i, MONTHS !! mon = Some mon_i /\ mon_i <> 0%Z.
Proof.
  intros H. destruct (MONTHS !! mon) as [v|] eqn:E.
  - exists v. split; [done|]. apply MONTHS_range in E. lia.
  - apply MONTHS_lookup_None in E. done.
Qed.

(** ** Events *)

(** X6.  A line of the envelope grammar with a canonical month gives the event
    built from its groups: the host of the envelope, the mapping read from
    the body, and the timestamp resolved from that mapping with the month,
    day and time of the envelope as fallback.  The body is the part after
    the last separator taken as long as possible. *)
Theorem parse_event_of_envelope (raw_line mon day time host body : str) (now_year : Z)
    (Henv : envelope (trimmed raw_line) mon day time host body)
    (Hbody : match body with [] => True | c :: _ => is_space c = false end)
    (Htext : ~ non_text (trimmed raw_line))
    (Hmon : In mon canonical_months) :
  exists kv mon_i day_i,
    parse_kv body = Return kv /\ MONTHS !! mon = Some mon_i /\ py_int day = Some day_i
    /\ parse_fortigate_line raw_line now_year
       = Return (Some (build_event raw_line host
                         (parse_event_ts kv now_year mon_i day_i time) kv), None).
Proof.
  pose proof (envelope_nonempty _ _ _ _ _ _ Henv) as Hne.
  pose proof (SYSLOG_RE_match_greedy _ _ _ _ _ _ Henv Hbody) as Hm.
  destruct (SYSLOG_RE_match_day _ _ Hm) as [day_i Hday]. cbn [g_day] in Hday.
  destruct (MONTHS_canonical mon Hmon) as (mon_i & Hmi & Hnz).
  destruct (parse_kv_returns body) as [kv Hkv].
  exists kv, mon_i, day_i. repeat (split; [done|]).
  unfold parse_fortigate_line. unfold trimmed in *.
  destruct (rstrip (N.eqb LF) raw_line) as [|c line'] eqn:El; [done|].
  destruct (_has_binary_garbage (c :: line')) eqn:Eg.
  { apply has_binary_garbage_iff in Eg. done. }
  rewrite Hm. cbn [g_day g_mon g_body g_host g_time]. rewrite Hday. cbn [of_option bind].
  rewrite Hmi. assert ((mon_i =? 0)%Z = false) as -> by lia.
  by rewrite Hkv.
Qed.

(** X7.  Whatever the line, an event that the parser returns comes alone, carries
    the raw line unchanged (its line feed included) with the identifier
    computed from it and schema version 1, has a host without whitespace,
    and is marked [ok] exactly when type, subtype and action are all
    present. *)
Theorem parse_event_invariants (raw_line : str) (now_year : Z) (e : Event)
    (dl : option Dlq)
    (He : parse_fortigate_line raw_line now_year = Return (Some e, dl)) :
  dl = None
  /\ schema_version e = 1%Z
  /\ raw e = raw_line
  /\ event_id e = stable_event_id raw_line
  /\ host_shape (host e)
  /\ (parse_status e = ok <->
      is_Some (type e) /\ is_Some (subtype e) /\ is_Some (action e)).
Proof.
  unfold parse_fortigate_line in He.
  destruct (rstrip (N.eqb LF) raw_line) as [|c line'] eqn:El; [done|].
  destruct (_has_binary_garbage (c :: line')); [done|].
  destruct (SYSLOG_RE_match (c :: line')) as [m|] eqn:Em; [|done].
  destruct (SYSLOG_RE_match_day _ _ Em) as [z Hz]. rewrite Hz in He.
  cbn [of_option bind] in He.
  destruct (MONTHS !! g_mon m) as [mon_i|]; [|done].
  destruct (mon_i =? 0)%Z; [done|].
  destruct (parse_kv_returns (g_body m)) as [kv Hkv]. rewrite Hkv in He.
  injection He as <- <-.
  apply SYSLOG_RE_match_sound in Em
    as (ws1 & ws2 & ws3 & ws4 & nl & _ & _ & _ & _ & _ & _ & _ & Hh & _).
  repeat (split; [done|]). cbn [parse_status type subtype action build_event].
  destruct (kv !! pystr "type"), (kv !! pystr "subtype"), (kv !! pystr "action");
    cbn [is_None orb]; split; try done;
    intros (H1 & H2 & H3); by (inversion H1 || inversion H2 || inversion H3).
Qed.

(** X8.  A dead-letter record that the parser returns comes alone, carries the
    raw line unchanged, and has one of four reasons: the reason
    [kv_parse_exception] is never produced, since the key/value reader
    raises on no input. *)
Theorem parse_dead_letter_invariants (raw_line : str) (now_year : Z)
    (ev : option Event) (d : Dlq)
    (Hd : parse_fortigate_line raw_line now_year = Return (ev, Some d)) :
  ev = None
  /\ dlq_raw d = raw_line
  /\ reason d <> kv_parse_exception
  /\ In (reason d) [empty_line; non_text_or_binary; syslog_header_parse_fail;
                    invalid_month].
Proof.
  unfold parse_fortigate_line in Hd.
  destruct (rstrip (N.eqb LF) raw_line) as [|c line'] eqn:El.
  { injection Hd as <- <-. cbn. repeat split; try discriminate; auto 6. }
  destruct (_has_binary_garbage (c :: line')).
  { injection Hd as <- <-. cbn. repeat split; try discriminate; auto 6. }
  destruct (SYSLOG_RE_match (c :: line')) as [m|] eqn:Em.
  2: { injection Hd as <- <-. cbn. repeat split; try discriminate; auto 6. }
  destruct (SYSLOG_RE_match_day _ _ Em) as [z Hz]. rewrite Hz in Hd.
  cbn [of_option bind] in Hd.
  destruct (MONTHS !! g_mon m) as [mon_i|].
  2: { injection Hd as <- <-. cbn. repeat split; try discriminate; auto 6. }
  destruct (mon_i =? 0)%Z.
  { injection Hd as <- <-. cbn. repeat split; try discriminate; auto 6. }
  destruct (parse_kv_returns (g_body m)) as [kv Hkv]. rewrite Hkv in Hd. done.
Qed.

(** ** The fallback timestamp *)

Lemma digit_not_colon (c v : N) : digit_value c = Some v -> (c =? COLON) = false.
Proof.
  intros H. destruct (c =? COLON) eqn:E; [|done].
  apply N.eqb_eq in E. subst c. done.
Qed.

Lemma unpack_hms_digits (h1 h2 m1 m2 s1 s2 vh1 vh2 vm1 vm2 vs1 vs2 : N) :
  digit_value h1 = Some vh1 -> digit_value h2 = Some vh2 ->
  digit_value m1 = Some vm1 -> digit_value m2 = Some vm2 ->
  digit_value s1 = Some vs1 -> digit_value s2 = Some vs2 ->
  unpack_hms [h1; h2; COLON; m1; m2; COLON; s1; s2]
  = Some (Z.of_N (10 * vh1 + vh2), Z.of_N (10 * vm1 + vm2), Z.of_N (10 * vs1 + vs2)).
Proof.
  intros Hh1 Hh2 Hm1 Hm2 Hs1 Hs2. unfold unpack_hms. cbn [split_on].
  rewrite (digit_not_colon _ _ Hh1), (digit_not_colon _ _ Hh2),
    (digit_not_colon _ _ Hm1), (digit_not_colon _ _ Hm2),
    (digit_not_colon _ _ Hs1), (digit_not_colon _ _ Hs2).
  change (COLON =? COLON) with true. cbv iota.
  rewrite (py_int_two_digits _ _ _ _ Hh1 Hh2), (py_int_two_digits _ _ _ _ Hm1 Hm2),
    (py_int_two_digits _ _ _ _ Hs1 Hs2).
  reflexivity.
Qed.

(** X9.  When the mapping gives no usable [date] and [time] pair (one of them is
    missing or empty, or the runtime does not read them as a timestamp) and
    has no [tz], the timestamp is the contextual year with the month, day
    and time of the envelope; it is absent when these do not denote a date
    and time of the calendar. *)
Theorem parse_event_ts_fallback (kv : gmap str str) (default_year mon_i day_i : Z)
    (h1 h2 m1 m2 s1 s2 vh1 vh2 vm1 vm2 vs1 vs2 : N)
    (Hexplicit : forall d t,
        kv !! pystr "date" = Some d -> kv !! pystr "time" = Some t ->
        d <> [] -> t <> [] -> fromisoformat (d ++ [84] ++ t) = None)
    (Htz : kv !! pystr "tz" = None)
    (Hh1 : digit_value h1 = Some vh1) (Hh2 : digit_value h2 = Some vh2)
    (Hm1 : digit_value m1 = Some vm1) (Hm2 : digit_value m2 = Some vm2)
    (Hs1 : digit_value s1 = Some vs1) (Hs2 : digit_value s2 = Some vs2) :
  parse_event_ts kv default_year mon_i day_i [h1; h2; COLON; m1; m2; COLON; s1; s2]
  = isoformat <$> mk_datetime default_year mon_i day_i
                    (Z.of_N (10 * vh1 + vh2)) (Z.of_N (10 * vm1 + vm2))
                    (Z.of_N (10 * vs1 + vs2)).
Proof.
  unfold parse_event_ts. rewrite Htz. cbn [tz_norm_of].
  rewrite (unpack_hms_digits _ _ _ _ _ _ _ _ _ _ _ _ Hh1 Hh2 Hm1 Hm2 Hs1 Hs2).
  assert (Hnone : match kv !! pystr "date", kv !! pystr "time" with
                  | Some ((_ :: _) as d), Some ((_ :: _) as t) =>
                      dt ← fromisoformat (d ++ [84] ++ t); with_tz dt None
                  | _, _ => None
                  end = None).
  { destruct (kv !! pystr "date") as [[|c d]|] eqn:Ed; try done.
    destruct (kv !! pystr "time") as [[|c' t]|] eqn:Et; try done.
    by rewrite (Hexplicit (c :: d) (c' :: t)). }
  rewrite Hnone. cbn [mbind option_bind].
  by destruct (mk_datetime _ _ _ _ _ _).
Qed.

End with_runtime.

Lemma parse_event_of_envelope_witness :
  exists kv mon_i day_i,
    parse_kv (pystr "type=traffic subtype=forward action=accept srcip=10.0.0.1 dstip=8.8.8.8 srcport=5000 dstport=443 proto=6")
    = Return kv
    /\ MONTHS !! pystr "Jan" = Some mon_i
    /\ py_int (RT:=basic_runtime) (pystr "5") = Some day_i
    /\ parse_fortigate_line (RT:=basic_runtime) ok_line 2024
       = Return (Some (build_event (RT:=basic_runtime) ok_line (pystr "fw01")
                         (parse_event_ts (RT:=basic_runtime) kv 2024 mon_i day_i
                            (pystr "03:04:05")) kv), None).
Proof.
  apply (parse_event_of_envelope (RT:=basic_runtime) ok_line (pystr "Jan") (pystr "5")
           (pystr "03:04:05") (pystr "fw01")).
  - exists (pystr "  "), [SPACE], [SPACE], [SPACE], [].
    split; [vm_compute; reflexivity|].
    split; [exists 74, 97, 110; repeat split|].
    split; [split; [discriminate|repeat constructor]|].
    split; [split; [cbn; lia|repeat constructor]|].
    split; [split; [discriminate|repeat constructor]|].
    split; [exists 48, 51, 48, 52, 48, 53; split; [reflexivity|repeat constructor]|].
    split; [split; [discriminate|repeat constructor]|].
    split; [split; [discriminate|repeat constructor]|].
    split; [split; [discriminate|repeat constructor]|].
    split; [|by left].
    unfold body_shape. cbn. repeat constructor; discriminate.
  - reflexivity.
  - intros H. apply has_binary_garbage_iff in H. vm_compute in H. discriminate H.
  - cbn. tauto.
Defined.

Lemma parse_event_invariants_witness :
  exists e,
    parse_fortigate_line (RT:=basic_runtime) ok_line 2024 = Return (Some e, None)
    /\ raw e = ok_line
    /\ event_id e = stable_event_id (RT:=basic_runtime) ok_line
    /\ host_shape (host e)
    /\ (parse_status e = ok <->
        is_Some (type e) /\ is_Some (subtype e) /\ is_Some (action e)).
Proof.
  eexists. split; [vm_compute; reflexivity|].
  refine (proj2 (proj2 (parse_event_invariants (RT:=basic_runtime) ok_line 2024 _ None _))).
  vm_compute. reflexivity.
Defined.

Lemma parse_dead_letter_invariants_witness :
  parse_fortigate_line (RT:=basic_runtime) bad_line 2024
  = Return (None, Some {| reason := syslog_header_parse_fail; dlq_raw := bad_line |})
  /\ syslog_header_parse_fail <> kv_parse_exception.
Proof.
  assert (H : parse_fortigate_line (RT:=basic_runtime) bad_line 2024
              = Return (None, Some {| reason := syslog_header_parse_fail;
                                      dlq_raw := bad_line |}))
    by (vm_compute; reflexivity).
  exact (conj H (proj1 (proj2 (proj2
           (parse_dead_letter_invariants (RT:=basic_runtime) bad_line 2024 None _ H))))).
Defined.

Lemma parse_event_ts_fallback_witness :
  parse_event_ts (RT:=basic_runtime) (<[pystr "date" := pystr "2023-12-31"]> ∅)
    2024 2 29 (pystr "23:04:05")
  = isoformat <$> mk_datetime 2024 2 29 23 4 5.
Proof.
  apply (parse_event_ts_fallback (RT:=basic_runtime)
           (<[pystr "date" := pystr "2023-12-31"]> ∅) 2024 2 29
           50 51 48 52 48 53 2 3 0 4 0 5); try reflexivity.
  intros d t _ Ht. vm_compute in Ht. discriminate Ht.
Defined.

End EventFacts.

(** * The completed ledger and its keys *)
Module LedgerFacts.
Import Py PyFacts checkpoint LedgerSpec IdentitySpec CheckpointFacts Examples MoreExamples.

(** ** The key of a rotated file *)

Lemma pystr_inj (s t : string) : pystr s = pystr t -> s = t.
Proof.
  revert t. induction s as [|a s IH]; intros [|b t]; cbn [pystr]; try done.
  intros [= H1 H2]. f_equal; [|by apply IH].
  by rewrite <- (ascii_N_embedding a), <- (ascii_N_embedding b), H1.
Qed.

Lemma to_int_proper (z : Z) :
  Z.to_int z <> Decimal.Pos Decimal.Nil /\ Z.to_int z <> Decimal.Neg Decimal.Nil.
Proof.
  destruct z as [|p|p]; cbn [Z.to_int]; split; try done;
    intros [= H]; by apply (DecimalPos.Unsigned.to_uint_nonnil p).
Qed.

Lemma str_of_Z_inj (a b : Z) : str_of_Z a = str_of_Z b -> a = b.
Proof.
  unfold str_of_Z. intros H%pystr_inj.
  apply (f_equal NilZero.int_of_string) in H.
  destruct (to_int_proper a) as [Ha1 Ha2], (to_int_proper b) as [Hb1 Hb2].
  rewrite !NilZero.isi in H by done.
  injection H as H. by apply DecimalZ.to_int_inj.
Qed.

Lemma uint_chars (d : Decimal.uint) :
  Forall (fun c => 48 <= c <= 57) (pystr (NilEmpty.string_of_uint d)).
Proof.
  induction d; cbn [NilEmpty.string_of_uint pystr]; constructor; try done;
    cbn; lia.
Qed.

(** The decimal form of an integer has no [|]. *)
Lemma str_of_Z_no_pipe (z : Z) : Forall (fun c => c <> PIPE) (str_of_Z z).
Proof.
  assert (Hu : forall d, Forall (fun c => c <> PIPE)
                           (pystr (NilZero.string_of_uint d))).
  { intros d. unfold NilZero.string_of_uint.
    assert (H : Forall (fun c => c <> PIPE) (pystr (NilEmpty.string_of_uint d))).
    { eapply Forall_impl; [apply uint_chars|]. unfold PIPE. cbv beta. lia. }
    destruct d; try exact H. by repeat constructor. }
  unfold str_of_Z. destruct (Z.to_int z) as [d|d]; cbn [NilZero.string_of_int pystr].
  - apply Hu.
  - constructor; [done|apply Hu].
Qed.

(** Two texts that end in a [|] and a part without [|] are equal only when
    both parts are. *)
Lemma app_pipe_inj (x1 x2 a1 a2 : str) :
  Forall (fun c => c <> PIPE) a1 -> Forall (fun c => c <> PIPE) a2 ->
  x1 ++ [PIPE] ++ a1 = x2 ++ [PIPE] ++ a2 -> x1 = x2 /\ a1 = a2.
Proof.
  intros H1 H2 E.
  assert (Hr : forall (r1 r2 y1 y2 : str),
             Forall (fun c => c <> PIPE) r1 -> Forall (fun c => c <> PIPE) r2 ->
             r1 ++ PIPE :: y1 = r2 ++ PIPE :: y2 -> r1 = r2 /\ y1 = y2).
  { induction r1 as [|c r1 IH]; intros [|c2 r2] y1 y2 Hr1 Hr2; cbn [app].
    - by intros [= ->].
    - intros [= <- _]. by apply Forall_cons in Hr2 as [? _].
    - intros [= -> _]. by apply Forall_cons in Hr1 as [? _].
    - intros [= -> H]. apply Forall_cons in Hr1 as [_ Hr1].
      apply Forall_cons in Hr2 as [_ Hr2].
      destruct (IH r2 y1 y2 Hr1 Hr2 H) as [-> ->]. done. }
  apply (f_equal (@rev N)) in E. rewrite !rev_app_distr in E. cbn [rev app] in E.
  rewrite <- !app_assoc in E. cbn [app] in E.
  apply Hr in E as [Ea Ex]; [| by apply Forall_rev | by apply Forall_rev].
  split.
  - by rewrite <- (rev_involutive x1), <- (rev_involutive x2), Ex.
  - by rewrite <- (rev_involutive a1), <- (rev_involutive a2), Ea.
Qed.

Lemma completed_key_fields (path1 path2 : str) (inode1 size1 mtime1 inode2 size2 mtime2 : Z) :
  completed_key path1 inode1 size1 mtime1 = completed_key path2 inode2 size2 mtime2 ->
  path1 = path2 /\ inode1 = inode2 /\ size1 = size2 /\ mtime1 = mtime2.
Proof.
  assert (Hk : forall p i s m,
             completed_key p i s m
             = ((p ++ [PIPE] ++ str_of_Z i) ++ [PIPE] ++ str_of_Z s)
               ++ [PIPE] ++ str_of_Z m).
  { intros. unfold completed_key. by rewrite <- !app_assoc. }
  rewrite !Hk. intros E.
  apply app_pipe_inj in E as [E ->%str_of_Z_inj]; try apply str_of_Z_no_pipe.
  apply app_pipe_inj in E as [E ->%str_of_Z_inj]; try apply str_of_Z_no_pipe.
  apply app_pipe_inj in E as [-> ->%str_of_Z_inj]; try apply str_of_Z_no_pipe.
  done.
Qed.

(** X10.  The key tells the identities apart: two keys are equal exactly when
    path, inode, size and mtime all are, also for a path that holds the
    separator or digits. *)
Theorem completed_key_inj (path1 path2 : str) (inode1 size1 mtime1 inode2 size2 mtime2 : Z) :
  completed_key path1 inode1 size1 mtime1 = completed_key path2 inode2 size2 mtime2
  <-> path1 = path2 /\ inode1 = inode2 /\ size1 = size2 /\ mtime1 = mtime2.
Proof.
  split.
  - apply completed_key_fields.
  - intros (Hp & Hi & Hs & Hm). by rewrite Hp, Hi, Hs, Hm.
Qed.

(** ** What the ledger remembers *)

Lemma ledger_mark_all_nonempty (ck : Checkpoint) (c : MarkCall) (calls : list MarkCall) :
  ledger (mark_all ck (c :: calls))
  = last_n LEDGER_CAP (ledger ck ++ map record_of (c :: calls)).
Proof.
  cbn [mark_all fold_left map]. fold (mark_all (mark ck c) calls).
  rewrite ledger_mark_all.
  - unfold mark. rewrite ledger_mark_completed. fold (record_of c).
    by rewrite last_n_app_last_n, <- app_assoc.
  - unfold mark. rewrite ledger_mark_completed, last_n_length. lia.
Qed.

Lemma record_of_key (c : MarkCall) (path : str) (inode size mtime : Z) :
  c_key (record_of c) = Some (completed_key path inode size mtime)
  <-> marks c path inode size mtime.
Proof.
  unfold record_of, new_record, marks. cbn [c_key]. split.
  - intros [= H]. by apply completed_key_fields in H.
  - intros (<- & <- & <- & <-). done.
Qed.

Lemma In_last_n {A} (n : nat) (l : list A) (x : A) : In x (last_n n l) -> In x l.
Proof.
  unfold last_n. intros H. rewrite <- (take_drop (length l - n) l).
  apply in_or_app. by right.
Qed.

(** X11.  While the ledger has room, a file counts as completed after a run of
    [mark_completed] calls exactly when it did before or one of the calls was
    for its own path, inode, size and mtime: marking one file never makes
    another one completed. *)
Theorem is_completed_after_marks (ck : Checkpoint) (calls : list MarkCall)
    (path : str) (inode size mtime : Z)
    (Hroom : (length (ledger ck) + length calls <= LEDGER_CAP)%nat) :
  is_completed (mark_all ck calls) path inode size mtime = true
  <-> is_completed ck path inode size mtime = true
      \/ Exists (fun c => marks c path inode size mtime) calls.
Proof.
  rewrite !is_completed_iff, ledger_mark_all by lia.
  rewrite last_n_short by (rewrite length_app, length_map; lia).
  rewrite Exists_exists. split.
  - intros (item & Hin & Hk). apply in_app_or in Hin as [Hin|Hin]; [left; eauto|].
    right. apply in_map_iff in Hin as (c & <- & Hc).
    exists c. split; [by apply list_elem_of_In|]. by apply record_of_key.
  - intros [(item & Hin & Hk)|(c & Hc & Hm)].
    + exists item. split; [|done]. apply in_or_app. by left.
    + exists (record_of c). split; [|by apply record_of_key].
      apply in_or_app. right. apply in_map. by apply list_elem_of_In.
Qed.

(** X12.  The ledger forgets: after as many calls for other files as the ledger
    holds, a file no longer counts as completed, whatever the ledger held
    before. *)
Theorem is_completed_forgotten (ck : Checkpoint) (calls : list MarkCall)
    (path : str) (inode size mtime : Z)
    (Hmany : (LEDGER_CAP <= length calls)%nat)
    (Hother : Forall (fun c => ~ marks c path inode size mtime) calls) :
  is_completed (mark_all ck calls) path inode size mtime = false.
Proof.
  destruct (is_completed _ _ _ _ _) eqn:E; [|done]. exfalso.
  apply is_completed_iff in E as (item & Hin & Hk).
  destruct calls as [|c calls]; [by apply Nat.le_0_r in Hmany|].
  rewrite ledger_mark_all_nonempty in Hin.
  set (cs := c :: calls) in *.
  unfold last_n in Hin. rewrite drop_app_ge in Hin by (rewrite length_app, length_map; lia).
  assert (Hin' : In item (map record_of cs)).
  { rewrite <- (take_drop (length (ledger ck ++ map record_of cs) - LEDGER_CAP
                           - length (ledger ck)) (map record_of cs)).
    apply in_or_app. by right. }
  apply in_map_iff in Hin' as (c' & <- & Hc').
  apply record_of_key in Hk.
  rewrite Forall_forall in Hother. apply (Hother c'); [|done].
  by apply list_elem_of_In.
Qed.

Lemma is_completed_after_marks_witness :
  (length (ledger (default_checkpoint 0)) + length [call_a; call_b] <= LEDGER_CAP)%nat
  /\ (is_completed (mark_all (default_checkpoint 0) [call_a; call_b])
        (mc_path call_b) 100 11 21 = true
      <-> is_completed (default_checkpoint 0) (mc_path call_b) 100 11 21 = true
          \/ Exists (fun c => marks c (mc_path call_b) 100 11 21) [call_a; call_b]).
Proof.
  assert (H : (length (ledger (default_checkpoint 0)) + length [call_a; call_b]
               <= LEDGER_CAP)%nat) by (cbn; unfold LEDGER_CAP; lia).
  exact (conj H (is_completed_after_marks (default_checkpoint 0) [call_a; call_b]
                   (mc_path call_b) 100 11 21 H)).
Defined.

Lemma is_completed_forgotten_witness :
  is_completed (mark (default_checkpoint 0) call_a) (mc_path call_a) 99 11 20 = true
  /\ is_completed (mark_all (mark (default_checkpoint 0) call_a) many_calls)
       (mc_path call_a) 99 11 20 = false.
Proof.
  split; [vm_compute; reflexivity|].
  apply is_completed_forgotten.
  - assert (H : length many_calls = S LEDGER_CAP) by (vm_compute; reflexivity).
    rewrite H. apply Nat.le_succ_diag_r.
  - apply Forall_forall. intros c Hc. apply list_elem_of_In in Hc.
    unfold many_calls in Hc. apply in_map_iff in Hc as (i & <- & _).
    intros (_ & _ & Hs & _). discriminate Hs.
Defined.

End LedgerFacts.

(** * Following the active file *)
Module FollowFacts.
Import Py PyFacts source_file SourceSpec LineSpec SourceFacts Examples MoreExamples.

(** ** The follower of the active file *)

(** Bytes without a line feed only grow the line being collected. *)
Lemma scan_buf_unfinished (bs : bytes) :
  unfinished bs -> forall cur offset, scan_buf bs cur offset = ([], cur ++ bs, offset).
Proof.
  induction 1 as [|b bs Hb _ IH]; intros cur offset; cbn [scan_buf].
  - by rewrite app_nil_r.
  - assert ((b =? LF) = false) as -> by (unfold LF in *; lia).
    rewrite IH. by rewrite <- app_assoc.
Qed.

(** A line feed closes the line being collected. *)
Lemma scan_buf_line (body rest cur : bytes) (offset : Z) :
  unfinished body ->
  scan_buf (body ++ [LF] ++ rest) cur offset
  = let line := cur ++ body ++ [LF] in
    let offset' := (offset + Z.of_nat (length line))%Z in
    let '(ys, rem, off) := scan_buf rest [] offset' in
    ((utf8_decode line, offset') :: ys, rem, off).
Proof.
  intros H. revert cur. induction H as [|b body Hb _ IH]; intros cur; cbn [scan_buf app].
  - change (LF =? LF) with true. cbv iota. reflexivity.
  - assert ((b =? LF) = false) as -> by (unfold LF in *; lia).
    rewrite IH. cbv zeta. by rewrite <- !app_assoc.
Qed.

Lemma scan_buf_lines (lines : list bytes) (partial : bytes) :
  Forall complete_line lines -> unfinished partial ->
  forall offset,
    scan_buf (concat lines ++ partial) [] offset
    = (with_ends lines offset, partial,
       (offset + Z.of_nat (length (concat lines)))%Z).
Proof.
  intros Hl Hp. induction Hl as [|l lines (body & -> & Hb) _ IH]; intros offset.
  - cbn [concat app with_ends length]. rewrite scan_buf_unfinished by done.
    cbn [app]. by rewrite Z.add_0_r.
  - cbn [concat with_ends]. rewrite <- !app_assoc.
    rewrite scan_buf_line by done. cbv zeta. cbn [app].
    rewrite IH. rewrite !length_app. f_equal. cbn [length]. lia.
Qed.

(** Scanning is compositional: the bytes can be handed over in two parts. *)
Lemma scan_buf_app (a b : bytes) :
  forall cur offset,
    scan_buf (a ++ b) cur offset
    = let '(ys1, rem1, off1) := scan_buf a cur offset in
      let '(ys2, rem2, off2) := scan_buf b rem1 off1 in
      (ys1 ++ ys2, rem2, off2).
Proof.
  induction a as [|x a IH]; intros cur offset; cbn [scan_buf app].
  - by destruct (scan_buf b cur offset) as [[ys2 rem2] off2].
  - destruct (x =? LF).
    + rewrite IH.
      destruct (scan_buf a [] _) as [[ys1 rem1] off1].
      by destruct (scan_buf b rem1 off1) as [[ys2 rem2] off2].
    + apply IH.
Qed.

(** What is left in the buffer holds no line feed. *)
Lemma scan_buf_rem (bs : bytes) :
  forall cur offset, unfinished cur -> unfinished (scan_buf bs cur offset).1.2.
Proof.
  induction bs as [|x bs IH]; intros cur offset Hcur; cbn [scan_buf]; [done|].
  destruct (x =? LF) eqn:E.
  - specialize (IH [] (offset + Z.of_nat (length (cur ++ [x])))%Z (Forall_nil_2 _)).
    by destruct (scan_buf bs [] _) as [[ys rem] off].
  - apply IH. apply Forall_app. split; [done|]. constructor; [|done].
    unfold LF in *. lia.
Qed.

(** Leftover bytes may as well be scanned again with the next chunk, as the
    source does. *)
Lemma scan_buf_cur (bs cur : bytes) (offset : Z) :
  unfinished cur -> scan_buf (cur ++ bs) [] offset = scan_buf bs cur offset.
Proof.
  intros H. rewrite scan_buf_app, scan_buf_unfinished by done. cbn [app].
  by destruct (scan_buf bs cur offset) as [[ys rem] off].
Qed.

Lemma follow_reads_scan (reads : list bytes) :
  forall buf offset, unfinished buf ->
    follow_reads reads buf offset = (scan_buf (concat reads) buf offset).1.1.
Proof.
  induction reads as [|chunk reads IH]; intros buf offset Hbuf;
    cbn [follow_reads concat]; [done|].
  rewrite scan_buf_cur by done. rewrite scan_buf_app.
  pose proof (scan_buf_rem chunk buf offset Hbuf) as Hrem.
  destruct (scan_buf chunk buf offset) as [[ys rem] off]. cbn [fst snd] in Hrem.
  rewrite IH by done.
  by destruct (scan_buf (concat reads) rem off) as [[ys2 rem2] off2].
Qed.

Lemma chunks_concat (fuel : nat) :
  forall data, (length data <= fuel)%nat -> concat (chunks fuel data) = data.
Proof.
  induction fuel as [|fuel IH]; intros data Hlen.
  - destruct data; [done|simpl in Hlen; lia].
  - destruct data as [|b data]; [done|]. cbn [chunks concat].
    rewrite IH; [apply take_drop|].
    rewrite length_drop. simpl in *.
    assert (1 <= CHUNK)%nat by (vm_compute; lia). lia.
Qed.

(** X13.  The pairs that the follower yields depend on the bytes of the file from
    the seek position on only, not on how [read] cuts them into chunks. *)
Theorem follow_reads_chunking (reads1 reads2 : list bytes) (offset : Z)
    (Hsame : concat reads1 = concat reads2) :
  follow_reads reads1 [] offset = follow_reads reads2 [] offset.
Proof.
  rewrite !follow_reads_scan by constructor. by rewrite Hsame.
Qed.

Lemma follow_active_binary_scan (data : bytes) (offset : Z) :
  follow_active_binary data offset
  = (scan_buf (drop (Z.to_nat offset) data) [] offset).1.1.
Proof.
  unfold follow_active_binary.
  rewrite follow_reads_scan by constructor. by rewrite chunks_concat.
Qed.

Lemma follow_active_binary_from (before rest : bytes) :
  follow_active_binary (before ++ rest) (Z.of_nat (length before))
  = (scan_buf rest [] (Z.of_nat (length before))).1.1.
Proof. by rewrite follow_active_binary_scan, Nat2Z.id, drop_app_length. Qed.

(** X14.  From a position [offset] in the file, the follower yields every complete
    line that follows, decoded, each with the byte position just after its
    line feed, and nothing for the bytes after the last line feed. *)
Theorem follow_active_binary_lines (before : bytes) (lines : list bytes) (partial : bytes)
    (Hlines : Forall complete_line lines) (Hpartial : unfinished partial) :
  follow_active_binary (before ++ concat lines ++ partial) (Z.of_nat (length before))
  = with_ends lines (Z.of_nat (length before)).
Proof.
  rewrite follow_active_binary_from. by rewrite scan_buf_lines.
Qed.

(** Every byte sequence is a run of complete lines and an unfinished rest. *)
Lemma lines_exist (data : bytes) :
  exists lines partial,
    data = concat lines ++ partial /\ Forall complete_line lines /\ unfinished partial.
Proof.
  induction data as [|b data (lines & partial & -> & Hl & Hp)].
  - exists [], []. repeat split; constructor.
  - destruct (decide (b = LF)) as [->|Hb].
    + exists ([LF] :: lines), partial. repeat split; [|done].
      constructor; [|done]. exists []. split; [done|constructor].
    + destruct lines as [|l lines].
      * exists [], (b :: partial). repeat split; [done|]. by constructor.
      * apply Forall_cons in Hl as [(body & -> & Hbody) Hl].
        exists ((b :: body ++ [LF]) :: lines), partial. repeat split; [|done].
        constructor; [|done]. exists (b :: body). split; [done|]. by constructor.
Qed.

Lemma with_ends_lookup (lines : list bytes) :
  forall offset i line off,
    with_ends lines offset !! i = Some (line, off) ->
    (i < length lines)%nat
    /\ off = (offset + Z.of_nat (length (concat (take (S i) lines))))%Z
    /\ with_ends (drop (S i) lines) off = drop (S i) (with_ends lines offset).
Proof.
  induction lines as [|l lines IH]; intros offset i line off; [done|].
  destruct i as [|i]; cbn [with_ends lookup list_lookup].
  - intros [= <- <-]. split; [simpl; lia|]. split; [|done].
    simpl. rewrite app_nil_r. lia.
  - intros H. apply IH in H as (Hi & -> & Hd). split; [simpl; lia|]. split; [|done].
    cbn [take concat]. rewrite length_app. lia.
Qed.

(** X15.  The position yielded with a line is where to resume: following again
    from it yields exactly the lines that came after. *)
Theorem follow_active_binary_resume (data : bytes) (offset : Z) (i : nat)
    (line : str) (off : Z)
    (Hoffset : (0 <= offset)%Z)
    (Hi : follow_active_binary data offset !! i = Some (line, off)) :
  follow_active_binary data off = drop (S i) (follow_active_binary data offset).
Proof.
  destruct (decide (Z.to_nat offset <= length data)%nat) as [Hle|Hgt].
  2: { unfold follow_active_binary in Hi. rewrite drop_ge in Hi by lia. done. }
  destruct (lines_exist (drop (Z.to_nat offset) data)) as (lines & partial & E & Hl & Hp).
  assert (Hd : data = take (Z.to_nat offset) data ++ concat lines ++ partial)
    by (by rewrite <- E, take_drop).
  set (before := take (Z.to_nat offset) data) in *.
  assert (Hb : offset = Z.of_nat (length before)).
  { unfold before. rewrite length_take. lia. }
  rewrite Hd, Hb in Hi |- *.
  rewrite follow_active_binary_from, scan_buf_lines in Hi |- * by done.
  cbn [fst] in Hi |- *.
  apply with_ends_lookup in Hi as (Hlt & Hoff & Hdrop). rewrite <- Hdrop.
  replace (before ++ concat lines ++ partial)
    with ((before ++ concat (take (S i) lines)) ++ concat (drop (S i) lines) ++ partial).
  2: { rewrite <- (take_drop (S i) lines) at 3. by rewrite concat_app, <- !app_assoc. }
  assert (Hoff' : off = Z.of_nat (length (before ++ concat (take (S i) lines)))).
  { rewrite Hoff, length_app. lia. }
  rewrite Hoff', follow_active_binary_from, scan_buf_lines; [done| |done].
  by apply Forall_drop.
Qed.

Lemma follow_reads_chunking_witness :
  follow_reads [[97; LF; 98]; [LF]] [] 5 = follow_reads [[97]; [LF; 98; LF]] [] 5.
Proof. apply follow_reads_chunking. reflexivity. Defined.

Lemma follow_active_binary_lines_witness :
  follow_active_binary ([120; LF] ++ concat [[97; LF]; [LF]] ++ [98])
    (Z.of_nat (length [120; LF]))
  = with_ends [[97; LF]; [LF]] (Z.of_nat (length [120; LF])).
Proof.
  apply (follow_active_binary_lines [120; LF] [[97; LF]; [LF]] [98]).
  - repeat constructor.
    + exists [97]. split; [reflexivity|]. by repeat constructor.
    + exists []. split; [reflexivity|]. constructor.
  - by repeat constructor.
Defined.

Lemma follow_active_binary_resume_witness :
  follow_active_binary [97; LF; 98; 98; LF; 99] 0 !! 0%nat = Some ([97; LF], 2%Z)
  /\ follow_active_binary [97; LF; 98; 98; LF; 99] 2
     = drop 1 (follow_active_binary [97; LF; 98; 98; LF; 99] 0).
Proof.
  assert (H : follow_active_binary [97; LF; 98; 98; LF; 99] 0 !! 0%nat
              = Some ([97; LF], 2%Z)) by (vm_compute; reflexivity).
  exact (conj H (follow_active_binary_resume [97; LF; 98; 98; LF; 99] 0 0 [97; LF] 2
                   (Z.le_refl 0) H)).
Defined.

End FollowFacts.

(** * The listing of rotated files *)
Module RotatedFacts.
Import Py PyFacts parser_fgt_v1 ParserFacts source_file SourceSpec LineSpec SourceFacts Examples MoreExamples.

(** ** The order of strings *)

Lemma str_ltb_asym (a : str) : forall b, str_ltb a b = true -> str_ltb b a = false.
Proof.
  induction a as [|x a IH]; intros [|y b]; cbn [str_ltb]; try done.
  intros H. apply orb_true_iff in H as [H|H].
  - assert ((y <? x) = false) as -> by lia. assert ((y =? x) = false) as -> by lia. done.
  - apply andb_true_iff in H as [H1 H2]. apply IH in H2. rewrite H2.
    assert ((y <? x) = false) as -> by lia. by rewrite andb_false_r.
Qed.

Lemma str_le_trans (a : str) :
  forall b c, str_ltb b a = false -> str_ltb c b = false -> str_ltb c a = false.
Proof.
  induction a as [|x a IH]; intros [|y b] [|z c]; cbn [str_ltb]; try done.
  intros H1 H2.
  apply orb_false_iff in H1 as [H1 H1']. apply orb_false_iff in H2 as [H2 H2'].
  apply orb_false_iff. split; [lia|].
  destruct (z =? x) eqn:Ezx; [|done]. cbn [andb].
  assert (y = x) by lia. subst y. assert (z = x) by lia. subst z.
  rewrite N.eqb_refl in *. cbn [andb] in *. by apply (IH b c).
Qed.

Section sorting.
Context {A : Type} (key : A -> str).

Lemma insert_by_perm (x : A) (l : list A) : insert_by key x l ≡ₚ x :: l.
Proof.
  induction l as [|y l IH]; cbn [insert_by]; [done|].
  destruct (str_ltb (key y) (key x)); [|done].
  by rewrite IH, Permutation_swap.
Qed.

Lemma sort_by_perm (l : list A) : sort_by key l ≡ₚ l.
Proof.
  induction l as [|x l IH]; cbn [sort_by]; [done|].
  by rewrite insert_by_perm, IH.
Qed.

Lemma insert_by_sorted (x : A) (l : list A) :
  StronglySorted (fun x y => str_ltb (key y) (key x) = false) l -> StronglySorted (fun x y => str_ltb (key y) (key x) = false) (insert_by key x l).
Proof.
  induction 1 as [|y l Hl IH Hy]; cbn [insert_by].
  - by repeat constructor.
  - destruct (str_ltb (key y) (key x)) eqn:E.
    + constructor; [done|]. rewrite insert_by_perm. constructor; [|done].
      by apply str_ltb_asym.
    + constructor; [by constructor|]. constructor; [done|].
      eapply Forall_impl; [exact Hy|]. intros z Hz. cbv beta in *.
      by apply (str_le_trans _ (key y)).
Qed.

Lemma sort_by_sorted (l : list A) : StronglySorted (fun x y => str_ltb (key y) (key x) = false) (sort_by key l).
Proof.
  induction l as [|x l IH]; cbn [sort_by]; [constructor|]. by apply insert_by_sorted.
Qed.

Lemma sorted_lookup (l : list A) :
  StronglySorted (fun x y => str_ltb (key y) (key x) = false) l ->
  forall i j x y, (i < j)%nat -> l !! i = Some x -> l !! j = Some y ->
                  str_ltb (key y) (key x) = false.
Proof.
  induction 1 as [|z l Hl IH Hz]; intros i j x y Hij Hi Hj; [done|].
  destruct j as [|j]; [lia|]. cbn in Hj. destruct i as [|i].
  - injection Hi as <-. rewrite Forall_forall in Hz. apply Hz.
    by apply list_elem_of_lookup_2 in Hj.
  - cbn in Hi. apply (IH i j); [lia|done|done].
Qed.

End sorting.

Section with_runtime.
Context `{RT : Runtime}.

(** ** Names of rotated files *)

Lemma is_digit_not_slash (c : N) : is_digit c = true -> c <> 47.
Proof. intros H ->. done. Qed.

Lemma strip_prefix_Some (pre s r : str) : strip_prefix pre s = Some r -> s = pre ++ r.
Proof.
  unfold strip_prefix. destruct (bool_decide _) eqn:E; [|done].
  apply bool_decide_eq_true in E. intros [= <-].
  rewrite <- (take_drop (length pre) s) at 1. by rewrite E.
Qed.

Lemma at_end_no_slash (s : str) : at_end s = true -> Forall (fun c => c <> 47) s.
Proof.
  destruct s as [|c [|? ?]]; try done. cbn [at_end]. intros H.
  constructor; [|done]. unfold LF in H. lia.
Qed.

(** A name that [ROTATED_RE] matches holds no [/]. *)
Lemma ROTATED_RE_match_no_slash (name stamp : str) :
  ROTATED_RE_match name = Some stamp -> Forall (fun c => c <> 47) name.
Proof.
  unfold ROTATED_RE_match.
  destruct (strip_prefix (pystr "fortigate.log-") name) as [r|] eqn:Ep; [|done].
  apply strip_prefix_Some in Ep. subst name. cbn [mbind option_bind].
  destruct (_ && _) eqn:E; [|done]. intros _.
  repeat (apply andb_true_iff in E as [E ?]).
  apply Forall_app. split; [by repeat constructor|].
  rewrite <- (take_drop 15 r). apply Forall_app. split.
  - rewrite <- (take_drop 8 (take 15 r)). apply Forall_app. split.
    + apply Forall_forall. intros c Hc. apply is_digit_not_slash.
      match goal with H : forallb is_digit (take 8 _) = true |- _ =>
        rewrite forallb_forall in H; apply H end. by apply list_elem_of_In.
    + rewrite <- (take_drop 1 (drop 8 (take 15 r))). apply Forall_app. split.
      * match goal with H : bool_decide (take 1 _ = _) = true |- _ =>
          apply bool_decide_eq_true in H; rewrite H end. by repeat constructor.
      * rewrite drop_drop. apply Forall_forall. intros c Hc. apply is_digit_not_slash.
        match goal with H : forallb is_digit (drop 9 _) = true |- _ =>
          rewrite forallb_forall in H; apply H end. by apply list_elem_of_In.
  - match goal with H : (at_end _ || _) = true |- _ =>
      apply orb_true_iff in H as [H|H] end; [by apply at_end_no_slash|].
    destruct (strip_prefix (pystr ".gz") (drop 15 r)) as [rest'|] eqn:Eg; [|done].
    apply strip_prefix_Some in Eg. rewrite Eg.
    apply Forall_app. split; [by repeat constructor|by apply at_end_no_slash].
Qed.

Lemma basename_join (dir name : str) :
  Forall (fun c => c <> 47) name -> basename (dir ++ [47] ++ name) = name.
Proof.
  intros H. unfold basename. rewrite !rev_app_distr. cbn [rev app].
  rewrite <- app_assoc. cbn [app].
  destruct (take_while_app_stop (fun c => negb (c =? 47)) (rev name) 47 (rev dir))
    as [-> _]; [|reflexivity|apply rev_involutive].
  apply Forall_rev. eapply Forall_impl; [exact H|]. intros c Hc.
  by apply negb_true_iff, N.eqb_neq.
Qed.

(** X16.  [list_rotated_files] returns the names of the directory that
    [ROTATED_RE] matches, each joined to the directory and as often as it is
    listed, in ascending order of their time stamps. *)
Theorem list_rotated_files_sorted (names : list str) :
  let out := list_rotated_files names in
  out ≡ₚ map (fun name => DIR ++ [47] ++ name)
            (filter (fun name => is_Some (ROTATED_RE_match name)) names)
  /\ (forall i j p q, (i < j)%nat -> out !! i = Some p -> out !! j = Some q ->
        str_ltb (key_fn q) (key_fn p) = false)
  /\ (forall p, In p out ->
        exists name, In name names /\ p = DIR ++ [47] ++ name
                     /\ ROTATED_RE_match name = Some (key_fn p)).
Proof.
  cbv zeta. unfold list_rotated_files.
  split; [apply sort_by_perm|]. split.
  - intros i j p q. apply sorted_lookup, sort_by_sorted.
  - intros p Hp. apply list_elem_of_In in Hp. rewrite sort_by_perm in Hp.
    apply list_elem_of_fmap in Hp as (name & -> & Hn).
    apply list_elem_of_filter in Hn as [[stamp Hs] Hn].
    exists name. split; [by apply list_elem_of_In|]. split; [done|].
    unfold key_fn. rewrite basename_join by (by eapply ROTATED_RE_match_no_slash).
    by rewrite Hs.
Qed.

End with_runtime.

End RotatedFacts.

(** * The pattern of rotated names *)
Module RotatedNameFacts.
Import Py PyFacts parser_fgt_v1 ParserFacts source_file RotatedSpec RotatedFacts.

Section with_runtime.
Context `{RT : Runtime}.

Lemma at_end_cases (s : str) : at_end s = true <-> s = [] \/ s = [LF].
Proof.
  destruct s as [|c [|? ?]]; cbn [at_end]; split; try done; try tauto.
  - intros H. right. f_equal. unfold LF in *. lia.
  - intros [H|H]; [done|]. by injection H as ->.
  - intros [H|H]; done.
Qed.

Lemma forallb_is_digit (s : str) :
  forallb is_digit s = true <-> Forall (fun c => is_digit c = true) s.
Proof.
  rewrite forallb_forall, Forall_forall. split; intros H c Hc; apply H;
    by apply list_elem_of_In.
Qed.

(** X17.  [ROTATED_RE] matches exactly the names of the form that its pattern
    describes, and its group is the time stamp in them. *)
Theorem ROTATED_RE_match_iff (name stamp : str) :
  ROTATED_RE_match name = Some stamp <-> rotated_name name stamp.
Proof.
  split.
  - unfold ROTATED_RE_match.
    destruct (strip_prefix (pystr "fortigate.log-") name) as [r|] eqn:Ep; [|done].
    apply strip_prefix_Some in Ep. subst name. cbn [mbind option_bind].
    destruct (_ && _) eqn:E; [|done]. intros [= <-].
    repeat (apply andb_true_iff in E as [E ?]).
    apply bool_decide_eq_true in E.
    match goal with H : bool_decide (take 1 _ = _) = true |- _ =>
      apply bool_decide_eq_true in H; rename H into Hsep end.
    match goal with H : forallb is_digit (take 8 _) = true |- _ =>
      apply forallb_is_digit in H; rename H into Hdate end.
    match goal with H : forallb is_digit (drop 9 _) = true |- _ =>
      apply forallb_is_digit in H; rename H into Htime end.
    match goal with H : (at_end _ || _) = true |- _ => rename H into Hend end.
    set (stamp := take 15 r) in *.
    assert (Hstamp : stamp = take 8 stamp ++ [MINUS] ++ drop 9 stamp).
    { rewrite <- (take_drop 8 stamp) at 1. f_equal.
      rewrite <- (take_drop 1 (drop 8 stamp)) at 1. by rewrite Hsep, drop_drop. }
    assert (Hsuffix : exists suffix nl,
               drop 15 r = suffix ++ nl /\ (suffix = [] \/ suffix = pystr ".gz")
               /\ (nl = [] \/ nl = [LF])).
    { apply orb_true_iff in Hend as [Hend|Hend].
      - exists [], (drop 15 r). split; [done|]. split; [by left|]. by apply at_end_cases.
      - destruct (strip_prefix (pystr ".gz") (drop 15 r)) as [rest'|] eqn:Eg; [|done].
        apply strip_prefix_Some in Eg. exists (pystr ".gz"), rest'.
        split; [done|]. split; [by right|]. by apply at_end_cases. }
    destruct Hsuffix as (suffix & nl & Hrest & Hsuf & Hnl).
    exists (take 8 stamp), (drop 9 stamp), suffix, nl.
    split.
    { rewrite <- (take_drop 15 r) at 1. fold stamp. rewrite Hrest, Hstamp at 1.
      by rewrite <- !app_assoc. }
    split; [rewrite length_take; lia|]. split; [rewrite length_drop; lia|].
    done.
  - intros (date & time & suffix & nl & -> & Hd & Ht & HFd & HFt & Hsuf & Hnl & ->).
    destruct date as [|d1 [|d2 [|d3 [|d4 [|d5 [|d6 [|d7 [|d8 [|? ?]]]]]]]]]; try done.
    destruct time as [|t1 [|t2 [|t3 [|t4 [|t5 [|t6 [|? ?]]]]]]]; try done.
    repeat (apply Forall_cons in HFd as [? HFd]).
    repeat (apply Forall_cons in HFt as [? HFt]).
    unfold ROTATED_RE_match, strip_prefix.
    rewrite bool_decide_eq_true_2 by reflexivity.
    cbn [mbind option_bind].
    assert (Hif : forall (b : bool) (x : str), b = true ->
                    (if b then Some x else None) = Some x) by (by intros ? ? ->).
    destruct Hsuf as [-> | ->], Hnl as [-> | ->]; cbn; apply Hif;
      repeat match goal with H : is_digit _ = true |- _ => rewrite H; clear H end;
      reflexivity.
Qed.

End with_runtime.

End RotatedNameFacts.

(** * Whole files read as text *)
Module TextFacts.
Import Py PyFacts parser_fgt_v1 source_file SourceSpec LineSpec SourceFacts Examples MoreExamples.

(** ** UTF-8 *)

Lemma utf8_decode_encode_char (c : N) (rest : bytes) :
  scalar c -> utf8_decode (utf8_encode_char c ++ rest) = c :: utf8_decode rest.
Proof.
  intros [Hmax Hsur]. unfold utf8_encode_char.
  destruct (c <? 128) eqn:E1.
  { cbn [app utf8_decode]. by rewrite E1. }
  pose proof (N.div_mod' c 64) as D1. pose proof (N.mod_lt c 64) as M1.
  destruct (c <? 2048) eqn:E2.
  { set (q := c / 64) in *. set (r := c mod 64) in *. clearbody q r.
    cbn [app utf8_decode]. unfold is_cont.
    assert ((192 + q <? 128) = false) as -> by lia.
    assert (((192 + q <? 194) || (244 <? 192 + q)) = false) as -> by lia.
    assert ((192 + q <? 224) = true) as -> by lia.
    assert (((128 <=? 128 + r) && (128 + r <=? 191)) = true) as -> by lia.
    f_equal. lia. }
  assert (Hs : ((55296 <=? c) && (c <=? 57343)) = false) by lia. rewrite Hs.
  pose proof (N.div_mod' (c / 64) 64) as D2. pose proof (N.mod_lt (c / 64) 64) as M2.
  assert (E64 : c / 4096 = c / 64 / 64) by (by rewrite N.Div0.div_div).
  destruct (c <? 65536) eqn:E3.
  { rewrite E64. set (q := c / 64) in *. set (r := c mod 64) in *.
    set (q2 := q / 64) in *. set (r2 := q mod 64) in *. clearbody q r q2 r2.
    cbn [app utf8_decode]. unfold second_ok, is_cont.
    assert ((224 + q2 <? 128) = false) as -> by lia.
    assert (((224 + q2 <? 194) || (244 <? 224 + q2)) = false) as -> by lia.
    assert ((224 + q2 <? 224) = false) as -> by lia.
    assert ((224 + q2 <? 240) = true) as -> by lia.
    match goal with |- context [negb ?b] =>
      assert (b = true) as -> by lia end. cbn [negb].
    assert (((128 <=? 128 + r) && (128 + r <=? 191)) = true) as -> by lia.
    cbn [negb]. f_equal. lia. }
  pose proof (N.div_mod' (c / 4096) 64) as D3. pose proof (N.mod_lt (c / 4096) 64) as M3.
  assert (E4 : c / 262144 = c / 4096 / 64) by (by rewrite N.Div0.div_div).
  rewrite E4. rewrite E64 in *.
  set (q := c / 64) in *. set (r := c mod 64) in *.
  set (q2 := q / 64) in *. set (r2 := q mod 64) in *.
  set (q3 := q2 / 64) in *. set (r3 := q2 mod 64) in *. clearbody q r q2 r2 q3 r3.
  cbn [app utf8_decode]. unfold second_ok, is_cont.
  assert ((240 + q3 <? 128) = false) as -> by lia.
  assert (((240 + q3 <? 194) || (244 <? 240 + q3)) = false) as -> by lia.
  assert ((240 + q3 <? 224) = false) as -> by lia.
  assert ((240 + q3 <? 240) = false) as -> by lia.
  match goal with |- context [negb ?b] =>
    assert (b = true) as -> by lia end. cbn [negb].
  assert (((128 <=? 128 + r2) && (128 + r2 <=? 191)) = true) as -> by lia.
  assert (((128 <=? 128 + r) && (128 + r <=? 191)) = true) as -> by lia.
  cbn [negb]. f_equal. lia.
Qed.

Lemma utf8_decode_encode (s : str) : Forall scalar s -> utf8_decode (utf8_encode s) = s.
Proof.
  induction 1 as [|c s Hc _ IH]; [done|].
  unfold utf8_encode in *. cbn [map concat].
  by rewrite utf8_decode_encode_char, IH.
Qed.

Lemma utf8_encode_app (s t : str) : utf8_encode (s ++ t) = utf8_encode s ++ utf8_encode t.
Proof. unfold utf8_encode. by rewrite map_app, concat_app. Qed.

(** ** Whole files *)

Lemma with_offsets_fst (path : str) (inode size mtime : Z) (lines : list str) :
  forall offset, map fst (with_offsets path inode size mtime lines offset) = lines.
Proof. induction lines as [|l lines IH]; intros offset; cbn; [done|]. by rewrite IH. Qed.

Lemma with_offsets_fields (path : str) (inode size mtime : Z) (lines : list str) :
  forall offset,
    Forall (fun y => s_path y.2 = path /\ s_inode y.2 = Some inode
                     /\ s_size y.2 = Some size /\ s_mtime y.2 = Some mtime)
           (with_offsets path inode size mtime lines offset).
Proof.
  induction lines as [|l lines IH]; intros offset; cbn [with_offsets]; constructor;
    [done|apply IH].
Qed.

Section with_runtime.
Context `{RT : Runtime}.

(** X18.  For a plain file that holds the UTF-8 encoding of a text without
    carriage returns, [read_whole_file_lines] yields the lines of that text,
    and the offset yielded with the line of index [i] is exactly the byte
    position where that line starts in the file: the file is the encoding
    of the [i] lines before it, then the encoding of the line, then the
    encoding of the lines after it, and the offset is the length of the
    first of these three parts.  Path, inode, size and mtime are those of
    the file. *)
Theorem read_whole_file_lines_text (disk : Disk) (path : str) (f : File) (text : str)
    (Hfile : disk !! path = Some f)
    (Hplain : endswith path (pystr ".gz") = false)
    (Hdata : f_data f = utf8_encode text)
    (Hscalar : Forall scalar text)
    (Hcr : Forall (fun c => c <> CR) text) :
  exists ys,
    read_whole_file_lines disk path = Return ys
    /\ concat (map fst ys) = text
    /\ forall i line src, ys !! i = Some (line, src) ->
         f_data f = utf8_encode (concat (take i (map fst ys))) ++ utf8_encode line
                    ++ utf8_encode (concat (drop (S i) (map fst ys)))
         /\ s_offset src
            = Some (Z.of_nat (length (utf8_encode (concat (take i (map fst ys))))))
         /\ s_path src = path /\ s_inode src = Some (f_inode f)
         /\ s_size src = Some (f_size f) /\ s_mtime src = Some (f_mtime f).
Proof.
  unfold read_whole_file_lines, stat_file. rewrite Hfile. cbn [bind]. rewrite Hplain.
  eexists. split; [reflexivity|].
  assert (Hlines : concat (text_lines (f_data f)) = text).
  { unfold text_lines. rewrite Hdata, utf8_decode_encode by done.
    rewrite universal_newlines_no_cr by done. apply iter_lines_concat. }
  rewrite with_offsets_fst.
  split; [exact Hlines|].
  intros i line src Hi.
  pose proof (with_offsets_fields path (f_inode f) (f_size f) (f_mtime f)
                (text_lines (f_data f)) 0) as HF.
  rewrite Forall_forall in HF.
  pose proof (HF (line, src) (list_elem_of_lookup_2 _ _ _ Hi)) as Hfields.
  apply with_offsets_spec in Hi as [Hl Ho].
  split; [|split; [by rewrite Ho|exact Hfields]].
  rewrite <- !utf8_encode_app. rewrite Hdata at 1. f_equal.
  rewrite <- Hlines at 1.
  rewrite <- (take_drop_middle _ _ _ Hl) at 1.
  by rewrite concat_app.
Qed.

(** ** Lines of a text file *)

Lemma universal_newlines_cr (s : str) : Forall (fun c => c <> CR) (universal_newlines s).
Proof.
  assert (H : forall n s, (length s <= n)%nat ->
                          Forall (fun c => c <> CR) (universal_newlines s)).
  { clear s. induction n as [|n IH]; intros s Hn.
    - destruct s; [constructor|simpl in Hn; lia].
    - destruct s as [|c r]; [constructor|]. cbn [universal_newlines]. simpl in Hn.
      destruct (c =? CR) eqn:E.
      + constructor; [done|]. destruct r as [|d r']; [constructor|]. simpl in Hn.
        destruct (d =? LF); apply IH; simpl; lia.
      + constructor; [unfold CR in *; lia|]. apply IH. lia. }
  by apply (H (length s)).
Qed.

Lemma iter_lines_shape (s : str) :
  forall cur,
    Forall (fun c => c <> CR) s ->
    Forall (fun c => c <> LF /\ c <> CR) cur ->
    Forall text_line (iter_lines s cur)
    /\ forall i line, (S i < length (iter_lines s cur))%nat ->
                      iter_lines s cur !! i = Some line -> last line = Some LF.
Proof.
  induction s as [|c s IH]; intros cur Hs Hcur; cbn [iter_lines].
  - destruct cur as [|x cur]; [split; [constructor|done]|].
    split; [|simpl; intros; lia].
    constructor; [|constructor]. exists (x :: cur). split; [done|]. by right.
  - apply Forall_cons in Hs as [Hc Hs]. destruct (c =? LF) eqn:E.
    + apply N.eqb_eq in E. subst c.
      destruct (IH [] Hs (Forall_nil_2 _)) as [IH1 IH2]. split.
      * constructor; [|done]. exists cur. split; [done|]. by left.
      * intros [|i] line Hlen Hi; cbn in Hi.
        -- injection Hi as <-. by rewrite last_snoc.
        -- apply (IH2 i); [simpl in Hlen; lia|done].
    + apply IH; [done|]. apply Forall_app. split; [done|].
      constructor; [|done]. split; [unfold LF in *; lia|done].
Qed.

(** X19.  Whatever bytes a rotated file holds, plain or compressed, every line
    that [read_whole_file_lines] yields is a line of text: it is not empty,
    holds no carriage return, and holds a line feed at its end only; every
    line but the last one has that line feed. *)
Theorem read_whole_file_lines_shape (disk : Disk) (path : str) (ys : list (str * Source))
    (Hread : read_whole_file_lines disk path = Return ys) :
  Forall text_line (map fst ys)
  /\ forall i line, (S i < length ys)%nat -> map fst ys !! i = Some line ->
                    last line = Some LF.
Proof.
  assert (Ht : forall data,
             Forall text_line (text_lines data)
             /\ forall i line, (S i < length (text_lines data))%nat ->
                               text_lines data !! i = Some line -> last line = Some LF).
  { intros data. apply iter_lines_shape; [apply universal_newlines_cr|constructor]. }
  unfold read_whole_file_lines, stat_file in Hread.
  destruct (disk !! path) as [f|]; [|done]. cbn [bind] in Hread.
  destruct (endswith path (pystr ".gz")).
  - destruct (gzip_decompress (f_data f)) as [data|]; [|done].
    cbn [of_option bind] in Hread. injection Hread as <-.
    rewrite map_map. cbn [fst]. rewrite map_id, length_map. apply Ht.
  - injection Hread as <-. rewrite with_offsets_fst.
    rewrite <- (length_map fst), with_offsets_fst. apply Ht.
Qed.

End with_runtime.

Lemma read_whole_file_lines_text_witness :
  exists ys,
    read_whole_file_lines (RT:=basic_runtime) accent_disk accent_path = Return ys
    /\ concat (map fst ys) = accent_text
    /\ forall i line src, ys !! i = Some (line, src) ->
         f_data accent_file
         = utf8_encode (concat (take i (map fst ys))) ++ utf8_encode line
           ++ utf8_encode (concat (drop (S i) (map fst ys)))
         /\ s_offset src
            = Some (Z.of_nat (length (utf8_encode (concat (take i (map fst ys))))))
         /\ s_path src = accent_path /\ s_inode src = Some (f_inode accent_file)
         /\ s_size src = Some (f_size accent_file)
         /\ s_mtime src = Some (f_mtime accent_file).
Proof.
  apply (read_whole_file_lines_text (RT:=basic_runtime) accent_disk accent_path
           accent_file accent_text).
  - vm_compute. reflexivity.
  - vm_compute. reflexivity.
  - reflexivity.
  - unfold accent_text, scalar, LF. repeat constructor; lia.
  - unfold accent_text, LF, CR. repeat constructor; lia.
Defined.

Lemma read_whole_file_lines_shape_witness :
  read_whole_file_lines (RT:=basic_runtime) crlf_disk garbled_path
  = Return [([97; LF], plain_source crlf_file 0); ([98; LF], plain_source crlf_file 2)]
  /\ Forall text_line [[97; LF]; [98; LF]].
Proof.
  assert (H : read_whole_file_lines (RT:=basic_runtime) crlf_disk garbled_path
              = Return [([97; LF], plain_source crlf_file 0);
                        ([98; LF], plain_source crlf_file 2)])
    by (vm_compute; reflexivity).
  exact (conj H (proj1 (read_whole_file_lines_shape (RT:=basic_runtime)
                          crlf_disk garbled_path _ H))).
Defined.

End TextFacts.

(** * The router and its counters *)
Module RouterFacts.
Import Py PyFacts parser_fgt_v1 ParserFacts checkpoint CheckpointFacts source_file main.
Import MainSpec RouterSpec LineSpec MainFacts FollowFacts Examples MoreExamples.






Section with_env.
Context `{RT : Runtime} (env : Env).







(** ** Draining rotated files twice *)

Lemma is_completed_ledger (ck ck' : Checkpoint) (path : str) (inode size mtime : Z) :
  (forall item, In item (ledger ck) -> In item (ledger ck')) ->
  is_completed ck path inode size mtime = true ->
  is_completed ck' path inode size mtime = true.
Proof.
  intros Hsub. rewrite !is_completed_iff. intros (item & Hin & Hk). eauto.
Qed.

Lemma ledger_mark_world_room (w : World) (path : str) (inode size mtime : Z) :
  (length (ledger (w_ck w)) < LEDGER_CAP)%nat ->
  ledger (w_ck (mark_world env w path inode size mtime))
  = ledger (w_ck w) ++ [new_record path inode size mtime
                          (now_epoch env (length (w_trace w)))].
Proof.
  intros H. unfold mark_world. cbn [w_ck]. rewrite ledger_mark_completed.
  apply last_n_short. rewrite length_app. simpl. lia.
Qed.

Lemma process_rotated_files_skip (disk : Disk) (paths : list str) (w : World) :
  Forall (fun p => forall f, disk !! p = Some f ->
            is_completed (w_ck w) p (f_inode f) (f_size f) (f_mtime f) = true) paths ->
  process_rotated_files env disk paths w = Return w.
Proof.
  induction 1 as [|path paths Hp _ IH]; cbn [process_rotated_files]; [done|].
  unfold stat_file. destruct (disk !! path) as [f|]; [|exact IH].
  by rewrite (Hp f eq_refl).
Qed.

Lemma process_rotated_files_marks (disk : Disk) (paths : list str) :
  forall w w',
    (length (ledger (w_ck w)) + length paths <= LEDGER_CAP)%nat ->
    process_rotated_files env disk paths w = Return w' ->
    (forall item, In item (ledger (w_ck w)) -> In item (ledger (w_ck w')))
    /\ Forall (fun p => forall f, disk !! p = Some f ->
                 is_completed (w_ck w') p (f_inode f) (f_size f) (f_mtime f) = true)
              paths.
Proof.
  induction paths as [|path paths IH]; intros w w' Hroom; cbn [process_rotated_files].
  - intros [= <-]. split; [done|constructor].
  - cbn [length] in Hroom. unfold stat_file.
    destruct (disk !! path) as [f|] eqn:Ef.
    2: { intros H. apply IH in H as [H1 H2]; [|lia]. split; [done|].
         constructor; [intros f' Hf'; congruence|exact H2]. }
    destruct (is_completed (w_ck w) path (f_inode f) (f_size f) (f_mtime f)) eqn:Ec.
    { intros H. apply IH in H as [H1 H2]; [|lia]. split; [done|].
      constructor; [|exact H2]. intros f' Hf'. rewrite Ef in Hf'. injection Hf' as <-.
      by apply (is_completed_ledger (w_ck w)). }
    destruct (read_whole_file_lines disk path) as [lines|e|]; try done. cbn [bind].
    destruct (ingest_lines_returns env lines w) as (w1 & xs & -> & _ & _ & _ & _ & Hc & _).
    cbn [bind].
    assert (Hl1 : ledger (w_ck w1) = ledger (w_ck w)) by (unfold ledger; by rewrite Hc).
    pose proof (ledger_mark_world_room w1 path (f_inode f) (f_size f) (f_mtime f)) as Hm.
    rewrite Hl1 in Hm. specialize (Hm ltac:(lia)).
    intros H. apply IH in H as [H1 H2]; [|rewrite Hm, length_app; simpl; lia].
    split.
    + intros item Hin. apply H1. rewrite Hm. apply in_or_app. by left.
    + constructor; [|exact H2]. intros f' Hf'. rewrite Ef in Hf'. injection Hf' as <-.
      apply (is_completed_ledger (w_ck (mark_world env w1 path (f_inode f) (f_size f)
                                         (f_mtime f)))); [exact H1|].
      apply is_completed_mark_world.
Qed.

(** X20.  While the ledger has room for them, draining the rotated files a second
    time does nothing: no line is routed again, no counter moves and no
    record is added, since every file that was found is marked. *)
Theorem process_rotated_files_idempotent (disk : Disk) (paths : list str) (w w' : World)
    (Hroom : (length (ledger (w_ck w)) + length paths <= LEDGER_CAP)%nat)
    (Hrun : process_rotated_files env disk paths w = Return w') :
  process_rotated_files env disk paths w' = Return w'.
Proof.
  apply process_rotated_files_skip.
  by apply (process_rotated_files_marks disk paths w w' Hroom).
Qed.

(** ** One slice of the active tail *)

Lemma tail_loop_lines (tenv : TailEnv) (inode : Z) (lines : list bytes) :
  (forall k, t_probe tenv k = None \/ t_probe tenv k = Some inode) ->
  forall (before : bytes) (k0 : nat) (w : World),
    a_inode (ck_active (w_ck w)) = Some inode ->
    a_offset (ck_active (w_ck w)) = Z.of_nat (length before) ->
    exists w' st n new,
      tail_loop env tenv (with_ends lines (Z.of_nat (length before))) k0 w
      = Return (w', st)
      /\ (n <= length lines)%nat
      /\ w_trace w' = w_trace w ++ new
      /\ map raw_of new = map utf8_decode (take n lines)
      /\ a_inode (ck_active (w_ck w')) = Some inode
      /\ a_offset (ck_active (w_ck w'))
         = Z.of_nat (length (before ++ concat (take n lines)))
      /\ (st = polling -> n = length lines)
      /\ ((forall k, t_expired tenv k = false) -> st = polling).
Proof.
  intros Hquiet. induction lines as [|l lines IH]; intros before k0 w Hino Hoff;
    cbn [with_ends tail_loop].
  - exists w, polling, 0%nat, []. rewrite !app_nil_r. cbn. repeat split; done.
  - rewrite Hino.
    assert (Hprobe : inode_changed (t_probe tenv k0) (Some inode) = None).
    { unfold inode_changed. destruct (Hquiet k0) as [-> | ->]; [done|].
      by rewrite bool_decide_eq_true_2. }
    rewrite Hprobe.
    match goal with |- context [ingest_line env w ?line ?src] =>
      destruct (ingest_line_returns env w line src)
        as (w1 & x & -> & _ & Ht & Hraw & _ & _ & Hino1 & _) end.
    cbn [bind]. rewrite Hino1, Hino.
    set (w2 := with_ck w1 _).
    assert (Hino2 : a_inode (ck_active (w_ck w2)) = Some inode) by done.
    assert (Hoff2 : a_offset (ck_active (w_ck w2))
                    = Z.of_nat (length (before ++ l))).
    { unfold w2. cbn. rewrite length_app. lia. }
    assert (Ht2 : w_trace w2 = w_trace w ++ [x]) by exact Ht.
    destruct (t_expired tenv k0) eqn:Ee.
    + exists w2, returned, 1%nat, [x]. split; [done|].
      split; [simpl; lia|]. split; [done|]. split; [cbn; by rewrite Hraw|].
      split; [done|]. split; [by cbn; rewrite app_nil_r|].
      split; [done|]. intros H. by rewrite H in Ee.
    + replace (Z.of_nat (length before) + Z.of_nat (length l))%Z
        with (Z.of_nat (length (before ++ l))) by (rewrite length_app; lia).
      destruct (IH (before ++ l) (S k0) w2 Hino2 Hoff2)
        as (w' & st & n & new & -> & Hn & Htr & Hr & Hi' & Ho' & Hp & Hq).
      exists w', st, (S n), (x :: new). split; [done|].
      split; [simpl; lia|]. split; [by rewrite Htr, Ht2, <- app_assoc|].
      split; [cbn; by rewrite Hraw, Hr|]. split; [done|].
      split; [by rewrite Ho'; cbn; rewrite <- app_assoc|].
      split; [intros H; simpl; by rewrite (Hp H)|done].
Qed.

(** X21.  A slice of the active tail without rotation: with the stored offset at
    the end of [before] and complete lines and an unfinished rest after it,
    the slice routes the first [n] of those lines, in order and each once,
    and leaves the offset just after the last routed line, always at a line
    boundary.  The unfinished rest is never routed.  A slice that is left
    polling has routed every complete line, and a slice whose time budget
    never runs out is left polling. *)
Theorem process_active_tail_lines (tenv : TailEnv) (w : World) (inode : Z)
    (before : bytes) (lines : list bytes) (partial : bytes)
    (Hstored : a_inode (ck_active (w_ck w)) = Some inode)
    (Hcur : t_inode tenv = Some inode)
    (Hquiet : forall k, t_probe tenv k = None \/ t_probe tenv k = Some inode)
    (Hoffset : a_offset (ck_active (w_ck w)) = Z.of_nat (length before))
    (Hdata : t_data tenv = Some (before ++ concat lines ++ partial))
    (Hlines : Forall complete_line lines) (Hpartial : unfinished partial) :
  exists w' st n new,
    process_active_tail env tenv w = Return (w', st)
    /\ (n <= length lines)%nat
    /\ w_trace w' = w_trace w ++ new
    /\ map raw_of new = map utf8_decode (take n lines)
    /\ a_inode (ck_active (w_ck w')) = Some inode
    /\ a_offset (ck_active (w_ck w')) = Z.of_nat (length (before ++ concat (take n lines)))
    /\ (st = polling -> n = length lines)
    /\ ((forall k, t_expired tenv k = false) -> st = polling).
Proof.
  unfold process_active_tail. rewrite Hcur, Hdata.
  assert (Hsync : sync_active (w_ck w) inode = w_ck w).
  { unfold sync_active. rewrite Hstored. by rewrite bool_decide_eq_true_2. }
  rewrite Hsync.
  assert (Hw : with_ck w (w_ck w) = w) by (by destruct w).
  rewrite Hw, Hoffset, follow_active_binary_from, scan_buf_lines by done.
  cbn [fst].
  by apply (tail_loop_lines tenv inode lines Hquiet before 0 w).
Qed.

End with_env.

Section with_loop.
Context `{RT : Runtime} `{JS : Json} `{MT : Metrics} (env : Env).




(** ** The books of the loop *)


End with_loop.


Lemma process_rotated_files_idempotent_witness :
  exists w',
    process_rotated_files (RT:=basic_runtime) quiet_env disk_after_rotation
      [rotated_path] mid_world = Return w'
    /\ process_rotated_files (RT:=basic_runtime) quiet_env disk_after_rotation
         [rotated_path] w' = Return w'.
Proof.
  eexists. split; [vm_compute; reflexivity|].
  apply (process_rotated_files_idempotent (RT:=basic_runtime) quiet_env
           disk_after_rotation [rotated_path] mid_world).
  - cbn. unfold LEDGER_CAP. lia.
  - vm_compute. reflexivity.
Defined.

Lemma process_active_tail_lines_witness :
  exists w' st n new,
    process_active_tail (RT:=basic_runtime) quiet_env tail_of_a mid_world
    = Return (w', st)
    /\ (n <= length [bad_line])%nat
    /\ w_trace w' = w_trace mid_world ++ new
    /\ map raw_of new = map utf8_decode (take n [bad_line])
    /\ a_inode (ck_active (w_ck w')) = Some inode_a
    /\ a_offset (ck_active (w_ck w'))
       = Z.of_nat (length (ok_line ++ concat (take n [bad_line])))
    /\ (st = polling -> n = length [bad_line])
    /\ ((forall k, t_expired tail_of_a k = false) -> st = polling).
Proof.
  apply (process_active_tail_lines (RT:=basic_runtime) quiet_env tail_of_a mid_world
           inode_a ok_line [bad_line] []).
  - reflexivity.
  - reflexivity.
  - intros k. by right.
  - reflexivity.
  - vm_compute. reflexivity.
  - repeat constructor. exists (pystr "not a syslog line").
    split; [reflexivity|]. cbn. by repeat constructor.
  - constructor.
Defined.

End RouterFacts.

(** * The sinks *)
Module SinkFacts.
Import Py PyFacts checkpoint sink_jsonl SinkSpec.

Lemma _path_for_events (hour_key : str) :
  _path_for EVENTS_PREFIX hour_key
  = pystr "/data/fortigate/parsed/events-" ++ hour_key ++ pystr ".jsonl".
Proof. reflexivity. Qed.

Lemma _path_for_dlq (hour_key : str) :
  _path_for DLQ_PREFIX hour_key
  = pystr "/data/fortigate/parsed/dlq-" ++ hour_key ++ pystr ".jsonl".
Proof. reflexivity. Qed.

Lemma differ_at (n : nat) (a b : str) : a !! n <> b !! n -> a <> b.
Proof. by intros H ->. Qed.

Lemma events_not_dlq (hour_key1 hour_key2 : str) :
  _path_for EVENTS_PREFIX hour_key1 <> _path_for DLQ_PREFIX hour_key2.
Proof. rewrite _path_for_events, _path_for_dlq. apply (differ_at 23). discriminate. Qed.

Lemma events_not_metrics (hour_key : str) :
  _path_for EVENTS_PREFIX hour_key <> METRICS_PATH.
Proof. rewrite _path_for_events. apply (differ_at 23). discriminate. Qed.

(** ** The files of the sinks *)

(** X23.  Whatever the hours are, events, dead-letter records and metrics go to
    three different files, and none of them is the checkpoint file or the
    temporary file that [save_checkpoint] writes. *)
Theorem sink_paths_apart (hour_key1 hour_key2 : str) (pid : Z) :
  let events := _path_for EVENTS_PREFIX hour_key1 in
  let dlq := _path_for DLQ_PREFIX hour_key2 in
  let tmp := CHECKPOINT_PATH ++ pystr ".tmp." ++ str_of_Z pid in
  events <> dlq /\ events <> METRICS_PATH /\ dlq <> METRICS_PATH
  /\ events <> CHECKPOINT_PATH /\ dlq <> CHECKPOINT_PATH
  /\ METRICS_PATH <> CHECKPOINT_PATH
  /\ events <> tmp /\ dlq <> tmp /\ METRICS_PATH <> tmp.
Proof.
  cbv zeta. rewrite _path_for_events, _path_for_dlq.
  repeat split; apply (differ_at 23); discriminate.
Qed.

Lemma _path_for_events_inj (hk1 hk2 : str) :
  _path_for EVENTS_PREFIX hk1 = _path_for EVENTS_PREFIX hk2 -> hk1 = hk2.
Proof.
  rewrite !_path_for_events. intros H. apply app_inv_head in H.
  by apply app_inv_tail in H.
Qed.

Section with_surroundings.
Context (localtime : Z -> struct_time) {Obj : Type} (dumps : Obj -> str).

Lemma append_text_other (path line p : str) (fs fs' : Files) :
  append_text path line true fs = Return fs' -> p <> path -> fs' !! p = fs !! p.
Proof. intros [= <-] H. by rewrite lookup_insert_ne. Qed.

Lemma append_text_same (path line : str) (fs fs' : Files) :
  append_text path line true fs = Return fs' ->
  default [] (fs' !! path) = default [] (fs !! path) ++ line.
Proof. intros [= <-]. by rewrite lookup_insert_eq. Qed.

(** X24.  After any run of sink calls, the event file of an hour holds what it
    held before, followed by the lines of the event calls of that hour that
    did not raise, in the order of the calls: the sink only ever appends,
    and calls for other hours, for dead letters and for metrics leave the
    file alone. *)
Theorem sink_event_file (calls : list (SinkCall (Obj:=Obj))) (fs : Files)
    (hour_key : str) :
  default [] (run localtime dumps calls fs !! _path_for EVENTS_PREFIX hour_key)
  = default [] (fs !! _path_for EVENTS_PREFIX hour_key)
    ++ concat (map (event_line localtime dumps hour_key) calls).
Proof.
  revert fs. induction calls as [|c calls IH]; intros fs; cbn [run map concat].
  { by rewrite app_nil_r. }
  pose proof (events_not_metrics hour_key) as Hm.
  destruct c as [ts obj [|] | ts obj [|] | obj [|]]; cbn [call event_line];
    try (cbn; apply IH).
  - unfold append_event, append_jsonl.
    destruct (append_text _ _ true fs) as [fs'| |] eqn:E; try done.
    rewrite IH. destruct (bool_decide _) eqn:Eh.
    + apply bool_decide_eq_true in Eh. rewrite Eh in E.
      by rewrite (append_text_same _ _ _ _ E), <- app_assoc.
    + apply bool_decide_eq_false in Eh. cbn [app].
      rewrite (append_text_other _ _ _ _ _ E); [done|].
      intros H. apply _path_for_events_inj in H. congruence.
  - unfold append_dlq, append_jsonl.
    destruct (append_text _ _ true fs) as [fs'| |] eqn:E; try done.
    rewrite IH. cbn [app]. rewrite (append_text_other _ _ _ _ _ E); [done|].
    apply events_not_dlq.
  - unfold append_metrics.
    destruct (append_text _ _ true fs) as [fs'| |] eqn:E; try done.
    rewrite IH. cbn [app]. by rewrite (append_text_other _ _ _ _ _ E).
Qed.

End with_surroundings.

End SinkFacts.

(** * Rotated files and the active file read alike *)
Module ReaderFacts.
Import Py PyFacts parser_fgt_v1 source_file SourceSpec LineSpec SourceFacts FollowFacts TextFacts Examples MoreExamples.

(** ** The two readers on the same bytes *)

(** No byte of the encoding of a character other than line feed is a line
    feed. *)
Lemma utf8_encode_char_no_lf (c : N) :
  c <> LF -> Forall (fun b => b <> LF) (utf8_encode_char c).
Proof.
  intros Hc. unfold utf8_encode_char, LF in *.
  destruct (c <? 128) eqn:E1; [by repeat constructor|].
  destruct (c <? 2048); [repeat constructor; lia|].
  destruct ((55296 <=? c) && (c <=? 57343)); [by repeat constructor|].
  destruct (c <? 65536); repeat constructor; lia.
Qed.

Lemma utf8_encode_no_lf (s : str) :
  Forall (fun c => c <> LF) s -> unfinished (utf8_encode s).
Proof.
  induction 1 as [|c s Hc _ IH]; [constructor|].
  unfold utf8_encode in *. cbn [map concat].
  apply Forall_app. split; [by apply utf8_encode_char_no_lf|exact IH].
Qed.

Lemma utf8_encode_concat (ls : list str) :
  utf8_encode (concat ls) = concat (map utf8_encode ls).
Proof.
  induction ls as [|l ls IH]; [done|]. cbn [concat map].
  by rewrite utf8_encode_app, IH.
Qed.

Lemma iter_lines_body (body : str) :
  Forall (fun c => c <> LF) body ->
  forall rest cur,
    iter_lines (body ++ LF :: rest) cur = (cur ++ body ++ [LF]) :: iter_lines rest [].
Proof.
  induction 1 as [|c body Hc _ IH]; intros rest cur; cbn [iter_lines app].
  - change (LF =? LF) with true. cbv iota. reflexivity.
  - assert ((c =? LF) = false) as -> by (unfold LF in *; lia).
    rewrite IH. by rewrite <- !app_assoc.
Qed.

Lemma iter_lines_closed (tlines : list str) :
  Forall (fun l => exists body, l = body ++ [LF] /\ Forall (fun c => c <> LF) body) tlines ->
  iter_lines (concat tlines) [] = tlines.
Proof.
  induction 1 as [|l tlines (body & -> & Hb) _ IH]; [done|].
  cbn [concat]. rewrite <- app_assoc. cbn [app]. rewrite iter_lines_body by done.
  by rewrite IH.
Qed.

Lemma with_ends_fst (lines : list bytes) :
  forall offset, map fst (with_ends lines offset) = map utf8_decode lines.
Proof. induction lines as [|l lines IH]; intros offset; cbn; [done|]. by rewrite IH. Qed.

Lemma with_ends_offset (lines : list bytes) :
  forall offset i y,
    with_ends lines offset !! i = Some y ->
    y.2 = (offset + Z.of_nat (length (concat (take (S i) lines))))%Z.
Proof.
  intros offset i [line off] H. by apply with_ends_lookup in H as (_ & -> & _).
Qed.

Lemma with_ends_line (lines : list bytes) :
  forall offset i y,
    with_ends lines offset !! i = Some y ->
    exists l, lines !! i = Some l /\ y.1 = utf8_decode l.
Proof.
  induction lines as [|l lines IH]; intros offset i y; [done|].
  destruct i as [|i]; cbn [with_ends lookup list_lookup].
  - intros [= <-]. by exists l.
  - apply IH.
Qed.

Section with_runtime.
Context `{RT : Runtime}.

(** X25.  On the bytes of a text of closed lines, encoded in UTF-8 and without
    carriage returns, the reader of rotated files and the follower of the
    active file yield the same lines in the same order, so that a line read
    again from the rotated copy is the same raw line; the offset that the
    reader gives is the start of the line, the one that the follower gives
    is its end. *)
Theorem readers_agree (disk : Disk) (path : str) (f : File) (tlines : list str)
    (Hfile : disk !! path = Some f)
    (Hplain : endswith path (pystr ".gz") = false)
    (Hdata : f_data f = utf8_encode (concat tlines))
    (Hclosed : Forall (fun l => exists body, l = body ++ [LF]
                                 /\ Forall (fun c => c <> LF) body) tlines)
    (Hscalar : Forall (Forall scalar) tlines)
    (Hcr : Forall (Forall (fun c => c <> CR)) tlines) :
  exists ys,
    read_whole_file_lines disk path = Return ys
    /\ map fst ys = tlines
    /\ map fst (follow_active_binary (f_data f) 0) = tlines
    /\ forall i line src y,
         ys !! i = Some (line, src) -> follow_active_binary (f_data f) 0 !! i = Some y ->
         y.1 = line
         /\ s_offset src = Some (y.2 - Z.of_nat (length (utf8_encode line)))%Z.
Proof.
  assert (Hs : Forall scalar (concat tlines)) by (by apply Forall_concat).
  assert (Hc : Forall (fun c => c <> CR) (concat tlines)) by (by apply Forall_concat).
  assert (Htext : text_lines (f_data f) = tlines).
  { unfold text_lines. rewrite Hdata, utf8_decode_encode by done.
    rewrite universal_newlines_no_cr by done. by apply iter_lines_closed. }
  assert (Hbytes : Forall complete_line (map utf8_encode tlines)).
  { apply Forall_fmap. eapply Forall_impl; [exact Hclosed|].
    intros l (body & -> & Hb). exists (utf8_encode body).
    split; [by rewrite utf8_encode_app|by apply utf8_encode_no_lf]. }
  assert (Hdec : map utf8_decode (map utf8_encode tlines) = tlines).
  { rewrite map_map. rewrite <- (map_id tlines) at 2. apply map_ext_Forall.
    eapply Forall_impl; [exact Hscalar|]. intros l Hl. by apply utf8_decode_encode. }
  assert (Hfollow : follow_active_binary (f_data f) 0
                    = with_ends (map utf8_encode tlines) 0).
  { rewrite Hdata, utf8_encode_concat.
    pose proof (follow_active_binary_from [] (concat (map utf8_encode tlines))) as H.
    cbn [app length] in H. change (Z.of_nat 0) with 0%Z in H. rewrite H.
    rewrite <- (app_nil_r (concat _)).
    by rewrite scan_buf_lines by (done || constructor). }
  unfold read_whole_file_lines, stat_file. rewrite Hfile. cbn [bind]. rewrite Hplain.
  eexists. split; [reflexivity|]. rewrite Htext.
  split; [apply with_offsets_fst|]. rewrite Hfollow.
  split; [by rewrite with_ends_fst|].
  intros i line src y Hi Hy.
  apply with_offsets_spec in Hi as [Hl Ho].
  pose proof (with_ends_offset _ _ _ _ Hy) as Hoff.
  assert (Hy1 : y.1 = line).
  { destruct (with_ends_line _ _ _ _ Hy) as (l & Hlk & ->).
    change (map utf8_encode tlines) with (utf8_encode <$> tlines) in Hlk.
    rewrite list_lookup_fmap, Hl in Hlk. injection Hlk as <-.
    apply utf8_decode_encode. rewrite Forall_forall in Hscalar.
    apply Hscalar. by apply list_elem_of_lookup_2 in Hl. }
  split; [exact Hy1|]. rewrite Ho, Hoff. f_equal.
  rewrite (take_S_r _ _ (utf8_encode line))
    by (change (map utf8_encode tlines) with (utf8_encode <$> tlines);
        by rewrite list_lookup_fmap, Hl).
  rewrite concat_app, length_app. cbn [concat]. rewrite app_nil_r.
  rewrite utf8_encode_concat.
  change (map utf8_encode (take i tlines)) with (utf8_encode <$> take i tlines).
  rewrite fmap_take. change (utf8_encode <$> tlines) with (map utf8_encode tlines). lia.
Qed.

End with_runtime.

Lemma readers_agree_witness :
  exists ys,
    read_whole_file_lines (RT:=basic_runtime) accent_disk accent_path = Return ys
    /\ map fst ys = [[233; LF]; [8364; 97; LF]]
    /\ map fst (follow_active_binary (f_data accent_file) 0) = [[233; LF]; [8364; 97; LF]]
    /\ forall i line src y,
         ys !! i = Some (line, src) ->
         follow_active_binary (f_data accent_file) 0 !! i = Some y ->
         y.1 = line
         /\ s_offset src = Some (y.2 - Z.of_nat (length (utf8_encode line)))%Z.
Proof.
  apply (readers_agree (RT:=basic_runtime) accent_disk accent_path accent_file
           [[233; LF]; [8364; 97; LF]]).
  - vm_compute. reflexivity.
  - vm_compute. reflexivity.
  - reflexivity.
  - repeat constructor.
    + exists [233]. split; [reflexivity|]. by repeat constructor.
    + exists [8364; 97]. split; [reflexivity|]. by repeat constructor.
  - unfold scalar, LF. repeat constructor; lia.
  - unfold LF, CR. repeat constructor; lia.
Defined.

End ReaderFacts.

(** * The remembered event timestamp *)
Module SeenFacts.
Import Py PyFacts parser_fgt_v1 ParserFacts checkpoint CheckpointFacts source_file main.
Import MainSpec RouterSpec MainFacts Examples MoreExamples.

Lemma remembers_refl (w : World) : remembers w w [].
Proof. split; [by rewrite app_nil_r|done]. Qed.

Lemma remembers_trans (a b c : World) (n1 n2 : list Write) :
  remembers a b n1 -> remembers b c n2 -> remembers a c (n1 ++ n2).
Proof.
  intros [T1 H1] [T2 H2]. split; [by rewrite T2, T1, <- app_assoc|].
  by rewrite H2, H1, fold_left_app.
Qed.

Lemma remembers_silent (w w' : World) :
  w_trace w' = w_trace w ->
  a_last_event_ts_seen (ck_active (w_ck w')) = a_last_event_ts_seen (ck_active (w_ck w)) ->
  remembers w w' [].
Proof. intros T H. split; [by rewrite T, app_nil_r|done]. Qed.

Section with_env.
Context `{RT : Runtime} (env : Env).

Lemma ingest_line_remembers (w : World) (raw_line : str) (src : Source) :
  exists w' x, ingest_line env w raw_line src = Return w' /\ remembers w w' [x].
Proof.
  unfold ingest_line.
  destruct (parse_fortigate_line_cases raw_line (now_year env (length (w_trace w))))
    as [[r ->] | (e & -> & Hraw)]; cbn [bind].
  - unfold _write_dlq. cbn [w_trace w_ck].
    destruct (sink_ok env _); eexists _, _; (split; [reflexivity|]);
      (split; [reflexivity|done]).
  - unfold _write_event. cbn [w_trace w_ck].
    destruct (sink_ok env _) eqn:Es; [destruct (truthy (event_ts e)) eqn:Et|];
      eexists _, _; (split; [reflexivity|]); (split; [reflexivity|]);
      cbn; rewrite ?Et; done.
Qed.

Lemma ingest_lines_remembers (lines : list (str * Source)) :
  forall w, exists w' new, ingest_lines env lines w = Return w' /\ remembers w w' new.
Proof.
  induction lines as [|[line src] lines IH]; intros w; cbn [ingest_lines].
  - exists w, []. split; [done|apply remembers_refl].
  - destruct (ingest_line_remembers w line src) as (w1 & x & -> & H1). cbn [bind].
    destruct (IH w1) as (w2 & new & -> & H2).
    eexists _, _. split; [done|]. exact (remembers_trans _ _ _ _ _ H1 H2).
Qed.

Lemma mark_world_remembers (w : World) (path : str) (inode size mtime : Z) :
  remembers w (mark_world env w path inode size mtime) [].
Proof.
  apply remembers_silent; [done|]. unfold mark_world, mark_completed. cbn [w_ck].
  by destruct (_ <? _)%nat.
Qed.

Lemma process_rotated_files_remembers (disk : Disk) (paths : list str) :
  forall w w', process_rotated_files env disk paths w = Return w' ->
               exists new, remembers w w' new.
Proof.
  induction paths as [|path paths IH]; intros w w'; cbn [process_rotated_files].
  - intros [= <-]. exists []. apply remembers_refl.
  - destruct (stat_file disk path) as [[[inode size] mtime]|e|] eqn:Es.
    + destruct (is_completed (w_ck w) path inode size mtime); [apply IH|].
      destruct (read_whole_file_lines disk path) as [lines|e|]; try done. cbn [bind].
      destruct (ingest_lines_remembers lines w) as (w1 & new1 & -> & H1). cbn [bind].
      intros H. apply IH in H as [new2 H2].
      pose proof (remembers_trans _ _ _ _ _ H1
                    (mark_world_remembers w1 path inode size mtime)) as H1'.
      eexists. exact (remembers_trans _ _ _ _ _ H1' H2).
    + destruct e; try done. apply IH.
    + done.
Qed.

Lemma tail_loop_remembers (tenv : TailEnv) (ys : list (str * Z)) :
  forall k w w' st, tail_loop env tenv ys k w = Return (w', st) ->
                    exists new, remembers w w' new.
Proof.
  induction ys as [|[line new_offset] ys IH]; intros k w w' st; cbn [tail_loop].
  - intros [= <- _]. exists []. apply remembers_refl.
  - destruct (inode_changed _ _).
    + intros [= <- _]. exists []. by apply remembers_silent.
    + match goal with |- context [ingest_line env w line ?src] =>
        destruct (ingest_line_remembers w line src) as (w1 & x & -> & H1) end.
      cbn [bind].
      set (w2 := with_ck w1 _).
      assert (H2 : remembers w1 w2 []) by (by apply remembers_silent).
      pose proof (remembers_trans _ _ _ _ _ H1 H2) as H12.
      destruct (t_expired tenv k).
      * intros [= <- _]. eauto.
      * intros H. apply IH in H as [new H3].
        eexists. exact (remembers_trans _ _ _ _ _ H12 H3).
Qed.

Lemma sync_active_seen (ck : Checkpoint) (cur : Z) :
  a_last_event_ts_seen (ck_active (sync_active ck cur))
  = a_last_event_ts_seen (ck_active ck).
Proof.
  unfold sync_active. destruct (a_inode (ck_active ck)); simpl;
    destruct (bool_decide _); done.
Qed.

Lemma process_active_tail_remembers (tenv : TailEnv) (w w' : World) (st : TailStatus) :
  process_active_tail env tenv w = Return (w', st) -> exists new, remembers w w' new.
Proof.
  unfold process_active_tail. destruct (t_inode tenv) as [cur|].
  - destruct (t_data tenv) as [data|]; [|done].
    intros H. apply tail_loop_remembers in H as [new H].
    assert (H0 : remembers w (with_ck w (sync_active (w_ck w) cur)) []).
    { apply remembers_silent; [done|]. cbn [with_ck w_ck]. apply sync_active_seen. }
    eexists. exact (remembers_trans _ _ _ _ _ H0 H).
  - intros [= <- _]. exists []. apply remembers_refl.
Qed.

End with_env.

Section with_loop.
Context `{RT : Runtime} `{JS : Json} `{MT : Metrics} (env : Env).

Lemma flush_checkpoint_remembers (it : Iter) (l : Loop) (w : World) :
  remembers w (flush_checkpoint it l w).1.1 [].
Proof.
  unfold flush_checkpoint. destruct (_ <=? _)%Z; [|apply remembers_refl].
  unfold save_checkpoint.
  destruct (_atomic_write_json _ _ _ _ _); by apply remembers_silent.
Qed.

Lemma emit_metrics_remembers (it : Iter) (l : Loop) (w : World) :
  remembers w (emit_metrics it l w).1.1.1 [].
Proof.
  unfold emit_metrics. destruct (_ <=? _)%Z; [|apply remembers_refl].
  destruct (build_metrics _ _ _) as [mw metric].
  destruct (i_metrics_ok it); [apply remembers_refl|by apply remembers_silent].
Qed.

Lemma main_iteration_remembers (it : Iter) (l l' : Loop) (st : TailStatus) :
  main_iteration env it l = Return (l', st) ->
  exists new, remembers (l_world l) (l_world l') new.
Proof.
  unfold main_iteration.
  destruct (process_rotated_files env (i_disk it) _ (l_world l)) as [w1|e|] eqn:E1;
    try done. cbn [bind].
  apply process_rotated_files_remembers in E1 as [new1 H1].
  destruct (process_active_tail env (i_tail it) w1) as [[w2 st2]|e|] eqn:E2; try done.
  cbn [bind]. apply process_active_tail_remembers in E2 as [new2 H2].
  pose proof (remembers_trans _ _ _ _ _ H1 H2) as H12.
  destruct st2.
  - pose proof (flush_checkpoint_remembers it l w2) as H3.
    destruct (flush_checkpoint it l w2) as [[w3 fs] last_flush]. cbn [fst] in H3.
    pose proof (emit_metrics_remembers it l w3) as H4.
    destruct (emit_metrics it l w3) as [[[w4 mw] sink] last_metrics]. cbn [fst] in H4.
    intros [= <- _]. cbn [l_world].
    pose proof (remembers_trans _ _ _ _ _ H12 H3) as H123.
    eexists. exact (remembers_trans _ _ _ _ _ H123 H4).
  - intros [= <- _]. cbn [l_world]. eauto.
Qed.

(** ** The last event timestamp *)

(** X26.  Over any number of turns of the loop of [main], the timestamp kept in
    [last_event_ts_seen] is that of the last event that was appended with a
    timestamp, and the one kept before when there was none: dead-letter
    records, events whose append raised and events without a timestamp do
    not touch it, and neither do rotation resets, ledger marks and
    checkpoint or metrics writes. *)
Theorem main_loop_last_event_ts (its : list Iter) (l l' : Loop) (st : TailStatus)
    (Hrun : main_loop env its l = Return (l', st)) :
  exists new,
    w_trace (l_world l') = w_trace (l_world l) ++ new
    /\ a_last_event_ts_seen (ck_active (w_ck (l_world l')))
       = fold_left seen_after new (a_last_event_ts_seen (ck_active (w_ck (l_world l)))).
Proof.
  change (exists new, remembers (l_world l) (l_world l') new).
  revert l l' st Hrun.
  induction its as [|it its IH]; intros l l' st; cbn [main_loop].
  - intros [= <- _]. exists []. apply remembers_refl.
  - destruct (main_iteration env it l) as [[l1 st1]|e|] eqn:E1; try done. cbn [bind].
    apply main_iteration_remembers in E1 as (new1 & H1).
    destruct st1.
    + intros H. apply IH in H as (new2 & H2).
      eexists. exact (remembers_trans _ _ _ _ _ H1 H2).
    + intros [= <- _]. eauto.
Qed.

End with_loop.

Lemma main_loop_last_event_ts_witness :
  main_loop (RT:=basic_runtime) (JS:=json_ref.codec) (MT:=counters_metrics) quiet_env
    [first_turn; second_turn] start_loop
  = Return (after_second_turn, returned)
  /\ exists new,
       w_trace (l_world after_second_turn) = w_trace (l_world start_loop) ++ new
       /\ a_last_event_ts_seen (ck_active (w_ck (l_world after_second_turn)))
          = fold_left seen_after new
              (a_last_event_ts_seen (ck_active (w_ck (l_world start_loop)))).
Proof.
  assert (Hrun : main_loop (RT:=basic_runtime) (JS:=json_ref.codec)
                   (MT:=counters_metrics) quiet_env [first_turn; second_turn] start_loop
                 = Return (after_second_turn, returned))
    by (vm_compute; reflexivity).
  exact (conj Hrun (main_loop_last_event_ts (RT:=basic_runtime) (JS:=json_ref.codec)
                      (MT:=counters_metrics) quiet_env _ _ _ _ Hrun)).
Defined.

End SeenFacts.

(** * The files written by the checkpoint timer *)
Module FilesFacts.
Import Py PyFacts parser_fgt_v1 checkpoint CheckpointFacts source_file main.
Import MainSpec MainFacts Examples MoreExamples.

Section with_loop.
Context `{RT : Runtime} `{JS : Json} `{MT : Metrics} (env : Env).

(** What one visit of the checkpoint timer does to the files: the
    checkpoint file stays as it is or becomes a serialized checkpoint, and no
    other file changes but the temporary one, which is gone afterwards. *)
Lemma flush_checkpoint_files (it : Iter) (l : Loop) (w : World) :
  let fs' := (flush_checkpoint it l w).1.2 in
  (fs' !! CHECKPOINT_PATH = l_files l !! CHECKPOINT_PATH
   \/ exists ck, fs' !! CHECKPOINT_PATH = Some (json_dumps ck ++ [LF]))
  /\ forall p, p <> CHECKPOINT_PATH ->
               p <> CHECKPOINT_PATH ++ pystr ".tmp." ++ str_of_Z (i_pid it) ->
               fs' !! p = l_files l !! p.
Proof.
  cbv zeta. unfold flush_checkpoint.
  destruct (_ <=? _)%Z; [|split; [by left|done]].
  unfold save_checkpoint, _atomic_write_json, os_replace.
  destruct (i_checkpoint_writable it); [|split; [by left|done]].
  rewrite lookup_insert_eq. cbn [fst snd]. split.
  - right. eexists. apply lookup_insert_eq.
  - intros p Hp Htmp.
    by rewrite lookup_insert_ne, lookup_delete_ne, lookup_insert_ne.
Qed.

Lemma main_iteration_files (it : Iter) (l l' : Loop) (st : TailStatus) :
  main_iteration env it l = Return (l', st) ->
  (l_files l' !! CHECKPOINT_PATH = l_files l !! CHECKPOINT_PATH
   \/ exists ck, l_files l' !! CHECKPOINT_PATH = Some (json_dumps ck ++ [LF]))
  /\ forall p, p <> CHECKPOINT_PATH ->
               p <> CHECKPOINT_PATH ++ pystr ".tmp." ++ str_of_Z (i_pid it) ->
               l_files l' !! p = l_files l !! p.
Proof.
  unfold main_iteration.
  destruct (process_rotated_files env (i_disk it) _ (l_world l)) as [w1|e|]; try done.
  cbn [bind].
  destruct (process_active_tail env (i_tail it) w1) as [[w2 st2]|e|]; try done.
  cbn [bind]. destruct st2.
  - pose proof (flush_checkpoint_files it l w2) as H3.
    destruct (flush_checkpoint it l w2) as [[w3 fs] last_flush]. cbn [fst snd] in H3.
    destruct (emit_metrics it l w3) as [[[w4 mw] sink] last_metrics].
    intros [= <- _]. exact H3.
  - intros [= <- _]. cbn [l_files]. split; [by left|done].
Qed.

(** ** The files of the loop *)

(** X27.  Over any number of turns of the loop of [main], the checkpoint
    writes ([save_checkpoint] through [_atomic_write_json]) leave every file
    untouched but the checkpoint file and the temporary files named after
    the process ids of the turns; and the checkpoint file, when it changed
    at all, holds one serialized checkpoint closed by a line feed. *)
Theorem main_loop_files (its : list Iter) (l l' : Loop) (st : TailStatus)
    (Hrun : main_loop env its l = Return (l', st)) :
  (l_files l' !! CHECKPOINT_PATH = l_files l !! CHECKPOINT_PATH
   \/ exists ck, l_files l' !! CHECKPOINT_PATH = Some (json_dumps ck ++ [LF]))
  /\ forall p, p <> CHECKPOINT_PATH ->
               Forall (fun it => p <> CHECKPOINT_PATH ++ pystr ".tmp."
                                      ++ str_of_Z (i_pid it)) its ->
               l_files l' !! p = l_files l !! p.
Proof.
  revert l l' st Hrun.
  induction its as [|it its IH]; intros l l' st; cbn [main_loop].
  - intros [= <- _]. split; [by left|done].
  - destruct (main_iteration env it l) as [[l1 st1]|e|] eqn:E1; try done. cbn [bind].
    apply main_iteration_files in E1 as [H1 F1].
    destruct st1.
    + intros H. apply IH in H as [H2 F2]. split.
      * destruct H2 as [H2|H2]; [|by right]. rewrite H2. exact H1.
      * intros p Hp HF. apply Forall_cons in HF as [Hit HF].
        rewrite (F2 p Hp HF). by apply F1.
    + intros [= <- _]. split; [exact H1|].
      intros p Hp HF. apply Forall_cons in HF as [Hit HF]. by apply F1.
Qed.

End with_loop.

Lemma main_loop_files_witness :
  main_loop (RT:=basic_runtime) (JS:=json_ref.codec) (MT:=counters_metrics) quiet_env
    [first_turn; second_turn] start_loop
  = Return (after_second_turn, returned)
  /\ (l_files after_second_turn !! CHECKPOINT_PATH = l_files start_loop !! CHECKPOINT_PATH
      \/ exists ck, l_files after_second_turn !! CHECKPOINT_PATH
                    = Some (@json_dumps json_ref.codec ck ++ [LF])).
Proof.
  assert (Hrun : main_loop (RT:=basic_runtime) (JS:=json_ref.codec)
                   (MT:=counters_metrics) quiet_env [first_turn; second_turn] start_loop
                 = Return (after_second_turn, returned))
    by (vm_compute; reflexivity).
  exact (conj Hrun (proj1 (main_loop_files (RT:=basic_runtime) (JS:=json_ref.codec)
                             (MT:=counters_metrics) quiet_env _ _ _ _ Hrun))).
Defined.

End FilesFacts.

(** * The explicit timestamp of [parse_event_ts] *)
Module TimestampFacts.
Import Py PyFacts parser_fgt_v1 ParserSpec ParserFacts IntSpec IntFacts Examples.

(** *** Decimal digits written and read *)

Lemma digits_numeral (ds : str) :
  Forall ascii_digit ds -> exists d, ds = pystr (NilEmpty.string_of_uint d).
Proof.
  induction 1 as [|c ds Hc _ (d & ->)]; [by exists Decimal.Nil|].
  unfold ascii_digit in Hc.
  assert (Hcases : c = 48 \/ c = 49 \/ c = 50 \/ c = 51 \/ c = 52 \/ c = 53 \/ c = 54
                   \/ c = 55 \/ c = 56 \/ c = 57) by lia.
  destruct Hcases as [->|[->|[->|[->|[->|[->|[->|[->|[->| ->]]]]]]]]].
  - by exists (Decimal.D0 d).
  - by exists (Decimal.D1 d).
  - by exists (Decimal.D2 d).
  - by exists (Decimal.D3 d).
  - by exists (Decimal.D4 d).
  - by exists (Decimal.D5 d).
  - by exists (Decimal.D6 d).
  - by exists (Decimal.D7 d).
  - by exists (Decimal.D8 d).
  - by exists (Decimal.D9 d).
Qed.

Lemma number_numeral (d : Decimal.uint) :
  forall acc : N,
    fold_left (fun a c => (10 * a + Z.of_N (c - 48))%Z)
      (pystr (NilEmpty.string_of_uint d)) (Z.of_N acc)
    = Z.of_N (uint_value d acc).
Proof.
  induction d; intros acc;
    cbn [NilEmpty.string_of_uint pystr fold_left uint_value]; [done|..];
    rewrite <- IHd; f_equal; cbn; lia.
Qed.

(** Padding with zeros gives back the leading zeros that the value lost. *)
Lemma pad_unorm (d : Decimal.uint) :
  d <> Decimal.Nil ->
  repeat 48 (length (pystr (NilEmpty.string_of_uint d))
             - length (pystr (NilZero.string_of_uint (Decimal.unorm d))))
  ++ pystr (NilZero.string_of_uint (Decimal.unorm d))
  = pystr (NilEmpty.string_of_uint d).
Proof.
  induction d; intros Hd; [done| |..];
    try (cbn [Decimal.unorm Decimal.nzhead NilZero.string_of_uint];
         by rewrite Nat.sub_diag).
  change (Decimal.unorm (Decimal.D0 d)) with (Decimal.unorm d).
  cbn [NilEmpty.string_of_uint pystr length].
  assert (Hcase : d = Decimal.Nil \/ d <> Decimal.Nil) by (destruct d; auto).
  destruct Hcase as [->|Hne]; [reflexivity|].
  specialize (IHd Hne).
  set (u := pystr (NilZero.string_of_uint (Decimal.unorm d))) in *.
  set (s := pystr (NilEmpty.string_of_uint d)) in *.
  assert (Hlen : (length u <= length s)%nat).
  { apply (f_equal length) in IHd. rewrite length_app, repeat_length in IHd. lia. }
  replace (S (length s) - length u)%nat with (S (length s - length u)) by lia.
  cbn [repeat app]. by rewrite IHd.
Qed.

Lemma zpad_number (ds : str) :
  ds <> [] -> Forall ascii_digit ds -> zpad (length ds) (number ds) = ds.
Proof.
  intros Hne HF. destruct (digits_numeral ds HF) as [d ->].
  assert (Hd : d <> Decimal.Nil) by (by intros ->).
  pose proof (number_numeral d 0) as Hn. cbn [Z.of_N] in Hn.
  unfold number. rewrite Hn, uint_value_of_uint.
  unfold zpad. rewrite N2Z.id.
  change (Pos.of_uint d) with (N.of_uint d).
  rewrite DecimalN.Unsigned.to_of. by apply pad_unorm.
Qed.

(** A well-formed date and time is printed by [isoformat] as it was
    written, and the timestamp it denotes has no offset. *)
Lemma well_formed_isoformat (date time : str) (dt : datetime) :
  well_formed date time dt ->
  tzinfo dt = None
  /\ isoformat dt = date ++ [84] ++ time
  /\ forall off, isoformat (replace_tzinfo dt off)
                 = date ++ [84] ++ time ++ format_offset off.
Proof.
  intros (y & m & d & hh & mm & ss & -> & -> & Ly & Lm & Ld & Lh & Lmi & Ls & HF & Hmk).
  repeat (apply Forall_app in HF as [? HF]).
  unfold mk_datetime in Hmk. destruct (_ && _)%Z in Hmk; [|done].
  injection Hmk as <-.
  unfold isoformat, replace_tzinfo.
  cbn [year month day hour minute second microsecond tzinfo]. cbn [Z.eqb].
  assert (Hpad : forall (w : nat) (ds : str),
             length ds = S w -> Forall ascii_digit ds -> zpad (S w) (number ds) = ds).
  { intros w ds Hl Hds. rewrite <- Hl. apply zpad_number; [|done].
    intros ->. discriminate Hl. }
  rewrite (Hpad 3%nat y), (Hpad 1%nat m), (Hpad 1%nat d), (Hpad 1%nat hh),
    (Hpad 1%nat mm), (Hpad 1%nat ss) by done.
  split; [done|]. split.
  - rewrite <- !app_assoc. cbn [app]. by rewrite !app_nil_r.
  - intros off. rewrite <- !app_assoc. cbn [app]. done.
Qed.

(** The reference reader accepts every well-formed date and time, and
    reads the timestamp they denote. *)
Lemma fromisoformat_basic_well_formed (date time : str) (dt : datetime) :
  well_formed date time dt -> fromisoformat_basic (date ++ [84] ++ time) = Some dt.
Proof.
  intros (y & m & d & hh & mm & ss & -> & -> & Ly & Lm & Ld & Lh & Lmi & Ls & HF & Hmk).
  assert (Hfield : forall ds, Forall ascii_digit ds -> iso_field ds = Some (number ds)).
  { intros ds Hds. unfold iso_field.
    assert (forallb (fun c => (48 <=? c) && (c <=? 57)) ds = true) as ->; [|done].
    induction Hds as [|c ds Hc _ IH]; [done|].
    cbn [forallb]. rewrite IH. unfold ascii_digit in Hc. lia. }
  repeat (apply Forall_app in HF as [? HF]).
  destruct y as [|y1 [|y2 [|y3 [|y4 [|? ?]]]]]; try discriminate Ly.
  destruct m as [|m1 [|m2 [|? ?]]]; try discriminate Lm.
  destruct d as [|d1 [|d2 [|? ?]]]; try discriminate Ld.
  destruct hh as [|h1 [|h2 [|? ?]]]; try discriminate Lh.
  destruct mm as [|i1 [|i2 [|? ?]]]; try discriminate Lmi.
  destruct ss as [|s1 [|s2 [|? ?]]]; try discriminate Ls.
  cbn [app]. unfold fromisoformat_basic.
  change ((MINUS =? MINUS) && (MINUS =? MINUS) && (84 =? 84) && (COLON =? COLON)
          && (COLON =? COLON)) with true. cbv iota.
  rewrite !Hfield by done. exact Hmk.
Qed.

Section with_runtime.
Context `{RT : Runtime}.

(** An offset of a day or more is refused by [datetime.timezone]. *)
Lemma with_tz_refused (dt : datetime) (sg d1 d2 d3 d4 v1 v2 v3 v4 : N) :
  digit_value d1 = Some v1 -> digit_value d2 = Some v2 ->
  digit_value d3 = Some v3 -> digit_value d4 = Some v4 ->
  1440 <= (10 * v1 + v2) * 60 + (10 * v3 + v4) ->
  with_tz dt (Some ([sg; d1; d2] ++ [COLON] ++ [d3; d4])) = None.
Proof.
  intros H1 H2 H3 H4 Hge. unfold with_tz. cbn [app take drop].
  rewrite (py_int_two_digits d1 d2 v1 v2 H1 H2).
  rewrite (py_int_two_digits d3 d4 v3 v4 H3 H4).
  cbn [mbind option_bind]. unfold timezone.
  set (hh := Z.of_N (10 * v1 + v2)). set (mm := Z.of_N (10 * v3 + v4)).
  assert (0 <= hh /\ 0 <= mm /\ 1440 <= hh * 60 + mm)%Z as (? & ? & ?) by lia.
  destruct (sg =? PLUS).
  - assert (((-86400000000 <? (1 * hh * 3600 + 1 * mm * 60) * 1000000)
             && ((1 * hh * 3600 + 1 * mm * 60) * 1000000 <? 86400000000))%Z = false)
      as -> by lia.
    done.
  - assert (((-86400000000 <? (-1 * hh * 3600 + -1 * mm * 60) * 1000000)
             && ((-1 * hh * 3600 + -1 * mm * 60) * 1000000 <? 86400000000))%Z = false)
      as -> by lia.
    done.
Qed.

(** C5 (as amended).  When the mapping has a well-formed [date]
    (YYYY-MM-DD) and [time] (HH:MM:SS), ASCII digits that denote a date and
    a time of the calendar, which the interpreter reads as that timestamp,
    the resolved timestamp is built from them and from [tz] alone, whatever
    the envelope's month, day and time and the contextual year are: for
    [date=2023-12-31], [time=23:59:59], [tz=+0530] it is
    [2023-12-31T23:59:59+05:30]; a [tz] that, after stripping surrounding
    whitespace and then surrounding double quotes, is a sign and four
    digits is applied as a fixed UTC offset when it denotes less than 24
    hours, and leaves no timestamp at all when it denotes 24 hours or more;
    a [tz] that is absent, empty, or not of that form after stripping gives
    the date, a [T] and the time as they were written, with no offset. *)
Theorem C5_explicit_timestamp (kv : gmap str str) (date time : str) (dt : datetime)
    (default_year fallback_mon fallback_day : Z) (fallback_time : str)
    (Hdate : kv !! pystr "date" = Some date) (Htime : kv !! pystr "time" = Some time)
    (Hwell : well_formed date time dt)
    (Hiso : fromisoformat (date ++ [84] ++ time) = Some dt) :
  let resolved :=
    parse_event_ts kv default_year fallback_mon fallback_day fallback_time in
  (date = pystr "2023-12-31" -> time = pystr "23:59:59" ->
   kv !! pystr "tz" = Some (pystr "+0530") ->
   resolved = Some (pystr "2023-12-31T23:59:59+05:30"))
  /\ (forall tz sg d1 d2 d3 d4 v1 v2 v3 v4,
        kv !! pystr "tz" = Some tz -> tz <> [] ->
        tz_cleaned tz = [sg; d1; d2; d3; d4] -> sg = PLUS \/ sg = MINUS ->
        digit_value d1 = Some v1 -> digit_value d2 = Some v2 ->
        digit_value d3 = Some v3 -> digit_value d4 = Some v4 ->
        ((10 * v1 + v2) * 60 + (10 * v3 + v4) < 1440 ->
         resolved = Some (date ++ [84] ++ time
                          ++ format_offset (tz_offset sg v1 v2 v3 v4)))
        /\ (1440 <= (10 * v1 + v2) * 60 + (10 * v3 + v4) -> resolved = None))
  /\ (kv !! pystr "tz" = None \/ kv !! pystr "tz" = Some []
       \/ (exists t, kv !! pystr "tz" = Some t /\ ~ tz_pattern (tz_cleaned t)) ->
       resolved = Some (date ++ [84] ++ time)).
Proof.
  intros resolved.
  destruct (well_formed_isoformat date time dt Hwell) as (Hnaive & Hprint & Hoff).
  assert (Hd : date <> []).
  { destruct Hwell as (y & ? & ? & ? & ? & ? & -> & _ & Ly & _). by destruct y. }
  assert (Ht : time <> []).
  { destruct Hwell as (? & ? & ? & hh & ? & ? & _ & -> & _ & _ & _ & Lh & _).
    by destruct hh. }
  assert (Hgen : forall tz sg d1 d2 d3 d4 v1 v2 v3 v4,
        kv !! pystr "tz" = Some tz -> tz <> [] ->
        tz_cleaned tz = [sg; d1; d2; d3; d4] -> sg = PLUS \/ sg = MINUS ->
        digit_value d1 = Some v1 -> digit_value d2 = Some v2 ->
        digit_value d3 = Some v3 -> digit_value d4 = Some v4 ->
        ((10 * v1 + v2) * 60 + (10 * v3 + v4) < 1440 ->
         resolved = Some (date ++ [84] ++ time
                          ++ format_offset (tz_offset sg v1 v2 v3 v4)))
        /\ (1440 <= (10 * v1 + v2) * 60 + (10 * v3 + v4) -> resolved = None)).
  { intros tz sg d1 d2 d3 d4 v1 v2 v3 v4 Htz Hne Hcl Hsg H1 H2 H3 H4.
    assert (Hnorm : tz_norm_of (Some tz) = Some ([sg; d1; d2] ++ [COLON] ++ [d3; d4])).
    { apply (tz_norm_of_match tz sg d1 d2 d3 d4 Hne Hcl).
      unfold tz_fullmatch, is_digit. rewrite H1, H2, H3, H4.
      destruct Hsg as [-> | ->]; reflexivity. }
    unfold resolved, parse_event_ts. rewrite Hdate, Htime, Htz, Hnorm.
    destruct date as [|? ?]; [done|]. destruct time as [|? ?]; [done|].
    rewrite Hiso. cbn [mbind option_bind]. split.
    - intros Hlt. rewrite (with_tz_offset dt sg d1 d2 d3 d4 v1 v2 v3 v4) by done.
      by rewrite Hoff.
    - intros Hge. rewrite (with_tz_refused dt sg d1 d2 d3 d4 v1 v2 v3 v4) by done.
      destruct (unpack_hms fallback_time) as [[[hh mm] ss]|]; [|done].
      cbn [mbind option_bind].
      destruct (mk_datetime _ _ _ _ _ _) as [dt'|]; [|done].
      cbn [mbind option_bind].
      by rewrite (with_tz_refused dt' sg d1 d2 d3 d4 v1 v2 v3 v4). }
  split; [|split; [exact Hgen|]].
  - intros -> -> Htz.
    destruct (Hgen (pystr "+0530") PLUS 48 53 51 48 0 5 3 0) as [H _]; try done; auto.
    rewrite H by (vm_compute; reflexivity). vm_compute. reflexivity.
  - intros Hnone. apply tz_norm_of_None in Hnone.
    unfold resolved, parse_event_ts. rewrite Hdate, Htime, Hnone.
    destruct date as [|? ?]; [done|]. destruct time as [|? ?]; [done|].
    rewrite Hiso. cbn [mbind option_bind with_tz]. by rewrite Hprint.
Qed.

End with_runtime.

Lemma C5_explicit_timestamp_witness :
  ts_kv (pystr "+0530") !! pystr "date" = Some (pystr "2023-12-31")
  /\ ts_kv (pystr "+0530") !! pystr "time" = Some (pystr "23:59:59")
  /\ well_formed (pystr "2023-12-31") (pystr "23:59:59") ts_example_dt
  /\ @fromisoformat basic_runtime (pystr "2023-12-31" ++ [84] ++ pystr "23:59:59")
     = Some ts_example_dt
  /\ parse_event_ts (RT:=basic_runtime) (ts_kv (pystr "+0530")) 2024 1 5 (pystr "03:04:05")
     = Some (pystr "2023-12-31T23:59:59+05:30")
  /\ parse_event_ts (RT:=basic_runtime) (ts_kv (pystr "+0530")) 2024 1 5 (pystr "03:04:05")
     = Some (pystr "2023-12-31" ++ [84] ++ pystr "23:59:59"
             ++ format_offset (tz_offset PLUS 0 5 3 0)).
Proof.
  assert (H1 : ts_kv (pystr "+0530") !! pystr "date" = Some (pystr "2023-12-31"))
    by (vm_compute; reflexivity).
  assert (H2 : ts_kv (pystr "+0530") !! pystr "time" = Some (pystr "23:59:59"))
    by (vm_compute; reflexivity).
  assert (H3 : well_formed (pystr "2023-12-31") (pystr "23:59:59") ts_example_dt).
  { exists (pystr "2023"), (pystr "12"), (pystr "31"), (pystr "23"), (pystr "59"),
      (pystr "59").
    repeat (split; [reflexivity|]). split; [|vm_compute; reflexivity].
    unfold ascii_digit. cbn. repeat constructor; lia. }
  assert (H5 : @fromisoformat basic_runtime
                 (pystr "2023-12-31" ++ [84] ++ pystr "23:59:59") = Some ts_example_dt)
    by (vm_compute; reflexivity).
  assert (H6 : ts_kv (pystr "+0530") !! pystr "tz" = Some (pystr "+0530"))
    by (vm_compute; reflexivity).
  pose proof (C5_explicit_timestamp (RT:=basic_runtime) (ts_kv (pystr "+0530"))
                (pystr "2023-12-31") (pystr "23:59:59") ts_example_dt 2024 1 5
                (pystr "03:04:05") H1 H2 H3 H5) as (Hex & Hgen & _).
  destruct (Hgen (pystr "+0530") PLUS 48 53 51 48 0 5 3 0 H6 ltac:(discriminate)
              eq_refl (or_introl eq_refl) eq_refl eq_refl eq_refl eq_refl)
    as [Hlt _].
  exact (conj H1 (conj H2 (conj H3 (conj H5
           (conj (Hex eq_refl eq_refl H6) (Hlt eq_refl)))))).
Defined.

End TimestampFacts.

(** * The checkpoint file read back *)
Module JsonFacts.
Import Py PyFacts checkpoint json_ref JsonSpec ParserSpec IntSpec IntFacts TimestampFacts
  CheckpointFacts Examples.

Lemma read_value_S (f : nat) (s : str) :
  read_value (S f) s
  = match drop_while is_json_ws s with
    | [] => None
    | c :: r =>
        if c =? DQUOTE then '(x, r') ← read_string r []; Some (JStr x, r')
        else if c =? 91 then
          match drop_while is_json_ws r with
          | d :: r' => if d =? 93 then Some (JList [], r')
                       else '(l, r2) ← read_elements (read_value f) f r []; Some (JList l, r2)
          | [] => None
          end
        else if c =? 123 then
          match drop_while is_json_ws r with
          | d :: r' => if d =? 125 then Some (JObj [], r')
                       else '(l, r2) ← read_members (read_value f) f r []; Some (JObj l, r2)
          | [] => None
          end
        else if c =? 110 then
          match r with
          | 117 :: 108 :: 108 :: r' => Some (JNull, r')
          | _ => None
          end
        else '(z, r') ← read_int (c :: r); Some (JInt z, r')
    end.
Proof. reflexivity. Qed.


Lemma read_elements_S (rv : str -> option (json * str)) (n : nat) (s : str)
    (acc : list json) :
  read_elements rv (S n) s acc
  = '(v, r) ← rv s;
    match drop_while is_json_ws r with
    | c :: r' =>
        if c =? 44 then read_elements rv n r' (acc ++ [v])
        else if c =? 93 then Some (acc ++ [v], r')
        else None
    | [] => None
    end.
Proof. reflexivity. Qed.

Lemma read_members_S (rv : str -> option (json * str)) (n : nat) (s : str)
    (acc : list (str * json)) :
  read_members rv (S n) s acc
  = match drop_while is_json_ws s with
    | q :: r0 =>
        if q =? DQUOTE then
          '(k, r1) ← read_string r0 [];
          match drop_while is_json_ws r1 with
          | c :: r2 =>
              if c =? COLON then
                '(v, r3) ← rv r2;
                match drop_while is_json_ws r3 with
                | d :: r4 =>
                    if d =? 44 then read_members rv n r4 (acc ++ [(k, v)])
                    else if d =? 125 then Some (acc ++ [(k, v)], r4)
                    else None
                | [] => None
                end
              else None
          | [] => None
          end
        else None
    | [] => None
    end.
Proof. reflexivity. Qed.

(** *** Strings *)

Lemma hex_value_digit (n : N) : n < 16 -> hex_value (hex_digit n) = Some n.
Proof.
  intros Hn. unfold hex_value, hex_digit. destruct (n <? 10) eqn:E.
  - assert ((48 <=? 48 + n) && (48 + n <=? 57) = true) as -> by lia.
    f_equal. lia.
  - assert ((48 <=? 87 + n) && (87 + n <=? 57) = false) as -> by lia.
    assert ((97 <=? 87 + n) && (87 + n <=? 102) = true) as -> by lia.
    f_equal. lia.
Qed.

(** The reader undoes the escape of one character. *)
Lemma read_string_escape (c : N) (s acc : str) :
  read_string (escape_char c ++ s) acc = read_string s (acc ++ [c]).
Proof.
  unfold escape_char.
  destruct (c =? DQUOTE) eqn:E1; [apply N.eqb_eq in E1 as ->; reflexivity|].
  destruct (c =? BACKSLASH) eqn:E2; [apply N.eqb_eq in E2 as ->; reflexivity|].
  destruct (c =? 8) eqn:E3; [apply N.eqb_eq in E3 as ->; reflexivity|].
  destruct (c =? 9) eqn:E4; [apply N.eqb_eq in E4 as ->; reflexivity|].
  destruct (c =? 10) eqn:E5; [apply N.eqb_eq in E5 as ->; reflexivity|].
  destruct (c =? 12) eqn:E6; [apply N.eqb_eq in E6 as ->; reflexivity|].
  destruct (c =? 13) eqn:E7; [apply N.eqb_eq in E7 as ->; reflexivity|].
  destruct (c <? 32) eqn:E8.
  - cbn [app read_string].
    change (BACKSLASH =? DQUOTE) with false. change (BACKSLASH =? BACKSLASH) with true.
    change (117 =? 117) with true. cbv iota.
    change (hex_value 48) with (Some 0).
    rewrite !hex_value_digit.
    + do 3 f_equal. pose proof (N.div_mod c 16). lia.
    + apply N.mod_lt. lia.
    + apply N.Div0.div_lt_upper_bound. lia.
  - cbn [app read_string]. by rewrite E1, E2.
Qed.

Lemma read_string_quoted (s : str) (rest : str) :
  forall acc,
    read_string (concat (map escape_char s) ++ DQUOTE :: rest) acc
    = Some (acc ++ s, rest).
Proof.
  induction s as [|c s IH]; intros acc.
  - cbn. by rewrite app_nil_r.
  - cbn [map concat]. rewrite <- app_assoc, read_string_escape, IH.
    by rewrite <- app_assoc.
Qed.

(** *** Numbers *)

Lemma span_digits (ds rest : str) :
  Forall (fun c => 48 <= c <= 57) ds -> ends_number rest ->
  take_while (fun c => (48 <=? c) && (c <=? 57)) (ds ++ rest) = ds
  /\ drop_while (fun c => (48 <=? c) && (c <=? 57)) (ds ++ rest) = rest.
Proof.
  intros Hds Hrest. induction Hds as [|c ds Hc _ [IH1 IH2]].
  - destruct rest as [|c rest]; [done|]. cbn in *. by rewrite Hrest.
  - cbn [app take_while drop_while].
    assert ((48 <=? c) && (c <=? 57) = true) as -> by lia.
    by rewrite IH1, IH2.
Qed.

Lemma read_int_digits (ds rest : str) :
  ds <> [] -> Forall (fun c => 48 <= c <= 57) ds -> ends_number rest ->
  read_int (ds ++ rest) = Some (number ds, rest)
  /\ read_int ([MINUS] ++ ds ++ rest) = Some ((- number ds)%Z, rest).
Proof.
  intros Hne Hch Hrest.
  destruct (span_digits _ rest Hch Hrest) as [Ht Hdr].
  assert (Hminus : read_int ([MINUS] ++ ds ++ rest) = Some ((- number ds)%Z, rest)).
  { unfold read_int. cbn [app]. change (MINUS =? MINUS) with true. cbv iota.
    rewrite Ht, Hdr. by destruct ds. }
  split; [|exact Hminus].
  destruct ds as [|c ds]; [done|]. apply Forall_cons in Hch as [Hc _].
  unfold read_int.
  change ((c :: ds) ++ rest) with (c :: (ds ++ rest)) at 1. cbv iota.
  assert ((c =? MINUS) = false) as -> by (unfold MINUS; lia). cbv iota.
  by rewrite Ht, Hdr.
Qed.

Lemma read_int_uint (d : Decimal.uint) (rest : str) :
  d <> Decimal.Nil -> ends_number rest ->
  read_int (pystr (NilEmpty.string_of_uint d) ++ rest)
  = Some (Z.of_N (N.of_uint d), rest)
  /\ read_int ([MINUS] ++ pystr (NilEmpty.string_of_uint d) ++ rest)
     = Some ((- Z.of_N (N.of_uint d))%Z, rest).
Proof.
  intros Hd Hrest.
  assert (Hch : Forall (fun c => 48 <= c <= 57) (pystr (NilEmpty.string_of_uint d))).
  { clear. induction d; cbn [NilEmpty.string_of_uint pystr]; constructor; try done;
      cbn; lia. }
  pose proof (number_numeral d 0) as Hn. cbn [Z.of_N] in Hn.
  rewrite uint_value_of_uint in Hn. change (Pos.of_uint d) with (N.of_uint d) in Hn.
  destruct (uint_head_digit d Hd) as (c & r & Hcr & _).
  assert (Hne : pystr (NilEmpty.string_of_uint d) <> []) by (by rewrite Hcr).
  destruct (read_int_digits _ rest Hne Hch Hrest) as [H1 H2].
  unfold number in H1, H2. rewrite Hn in H1, H2. done.
Qed.

Lemma read_int_str_of_Z (z : Z) (rest : str) :
  ends_number rest -> read_int (str_of_Z z ++ rest) = Some (z, rest).
Proof.
  intros Hrest. unfold str_of_Z. destruct z as [|p|p]; cbn [Z.to_int].
  - assert (H0 : Forall (fun c => 48 <= c <= 57) [48]) by (constructor; [lia|done]).
    exact (proj1 (read_int_digits [48] rest ltac:(done) H0 Hrest)).
  - assert (Hp : Pos.to_uint p <> Decimal.Nil) by apply DecimalPos.Unsigned.to_uint_nonnil.
    destruct (read_int_uint (Pos.to_uint p) rest Hp Hrest) as [H _].
    assert (Hs : NilZero.string_of_uint (Pos.to_uint p)
                 = NilEmpty.string_of_uint (Pos.to_uint p))
      by (by destruct (Pos.to_uint p)).
    cbn [NilZero.string_of_int]. rewrite Hs, H.
    unfold N.of_uint. by rewrite DecimalPos.Unsigned.of_to.
  - assert (Hp : Pos.to_uint p <> Decimal.Nil) by apply DecimalPos.Unsigned.to_uint_nonnil.
    destruct (read_int_uint (Pos.to_uint p) rest Hp Hrest) as [_ H].
    assert (Hs : NilZero.string_of_uint (Pos.to_uint p)
                 = NilEmpty.string_of_uint (Pos.to_uint p))
      by (by destruct (Pos.to_uint p)).
    cbn [NilZero.string_of_int pystr]. rewrite Hs.
    change (N_of_ascii "-") with MINUS.
    change (read_int ([MINUS] ++ pystr (NilEmpty.string_of_uint (Pos.to_uint p)) ++ rest)
            = Some (Z.neg p, rest)).
    rewrite H. unfold N.of_uint. by rewrite DecimalPos.Unsigned.of_to.
Qed.


(** *** Documents *)

Lemma str_of_Z_head (z : Z) :
  exists c t, str_of_Z z = c :: t /\ (c = MINUS \/ 48 <= c <= 57).
Proof.
  unfold str_of_Z. destruct z as [|p|p]; cbn [Z.to_int NilZero.string_of_int].
  - exists 48, []. split; [reflexivity|right; lia].
  - assert (Hp : Pos.to_uint p <> Decimal.Nil) by apply DecimalPos.Unsigned.to_uint_nonnil.
    destruct (uint_head_digit _ Hp) as (c & r & Hcr & Hc).
    exists c, r. split; [|by right].
    rewrite <- Hcr. by destruct (Pos.to_uint p).
  - eexists _, _. split; [reflexivity|by left].
Qed.

Lemma print_head (j : json) : exists c t, print j = c :: t /\ opening c.
Proof.
  unfold opening. destruct j as [|z|s|l|ms]; cbn [print].
  - eexists _, _. split; [reflexivity|]. by left.
  - destruct (str_of_Z_head z) as (c & t & -> & Hc). exists c, t. split; [done|].
    destruct Hc; auto 10.
  - eexists _, _. split; [reflexivity|]. auto.
  - eexists _, _. split; [reflexivity|]. auto.
  - eexists _, _. split; [reflexivity|]. auto 10.
Qed.

Lemma opening_not_ws (c : N) (t : str) :
  opening c -> drop_while is_json_ws (c :: t) = c :: t.
Proof.
  intros Hc. cbn [drop_while].
  assert (is_json_ws c = false) as ->; [|done].
  unfold is_json_ws, opening, DQUOTE, MINUS in *. lia.
Qed.

Lemma need_pos (j : json) : (1 <= need j)%nat.
Proof. destruct j; cbn [need]; lia. Qed.

Lemma need_elements {A} (g : A -> json) (l : list A) (f : nat) :
  (fold_right (fun e n => Nat.max (need (g e)) n) 0%nat l <= f)%nat
  <-> Forall (fun e => (need (g e) <= f)%nat) l.
Proof.
  induction l as [|e l IH]; cbn [fold_right].
  - split; [constructor|lia].
  - rewrite Forall_cons, <- IH. lia.
Qed.

Section with_reader.
Variable f : nat.
Hypothesis IH : forall j rest,
  (need j <= f)%nat -> ends_number rest -> read_value f (print j ++ rest) = Some (j, rest).

Lemma read_elements_print (l : list json) :
  forall acc n rest,
    l <> [] -> (length l <= n)%nat -> Forall (fun e => (need e <= f)%nat) l ->
    read_elements (read_value f) n (join [44] (map print l) ++ 93 :: rest) acc
    = Some (acc ++ l, rest).
Proof using IH.
  induction l as [|e l IHl]; intros acc n rest Hne Hlen Hneed; [done|].
  apply Forall_cons in Hneed as [He Hl].
  destruct n as [|n]; [cbn in Hlen; lia|]. cbn [length] in Hlen.
  rewrite read_elements_S. destruct l as [|e' l].
  - cbn [map join]. rewrite IH by done. reflexivity.
  - change (join [44] (map print (e :: e' :: l)))
      with (print e ++ [44] ++ join [44] (map print (e' :: l))).
    rewrite <- !app_assoc. rewrite IH by done.
    cbn [mbind option_bind app drop_while].
    change (is_json_ws 44) with false. change (44 =? 44) with true. cbv iota.
    rewrite (IHl (acc ++ [e]) n rest) by (done || cbn [length] in *; lia).
    by rewrite <- app_assoc.
Qed.

Lemma read_members_print (ms : list (str * json)) :
  forall acc n rest,
    ms <> [] -> (length ms <= n)%nat -> Forall (fun kv => (need (snd kv) <= f)%nat) ms ->
    read_members (read_value f) n
      (join [44] (map (fun kv => quote (fst kv) ++ [COLON] ++ print (snd kv)) ms)
       ++ 125 :: rest) acc
    = Some (acc ++ ms, rest).
Proof using IH.
  induction ms as [|[k v] ms IHms]; intros acc n rest Hne Hlen Hneed; [done|].
  apply Forall_cons in Hneed as [He Hl]. cbn [snd] in He.
  destruct n as [|n]; [cbn in Hlen; lia|]. cbn [length] in Hlen.
  rewrite read_members_S. destruct ms as [|kv' ms].
  - cbn [map join fst snd]. unfold quote. rewrite <- !app_assoc.
    cbn [app drop_while]. change (is_json_ws DQUOTE) with false.
    change (DQUOTE =? DQUOTE) with true. cbv iota.
    rewrite (read_string_quoted k _ []).
    cbn [mbind option_bind app drop_while].
    change (is_json_ws COLON) with false. change (COLON =? COLON) with true. cbv iota.
    rewrite IH by done. reflexivity.
  - assert (Hj : join [44] (map (fun kv => quote (fst kv) ++ [COLON] ++ print (snd kv))
                              ((k, v) :: kv' :: ms))
                 = quote k ++ [COLON] ++ print v ++ [44]
                   ++ join [44] (map (fun kv => quote (fst kv) ++ [COLON] ++ print (snd kv))
                                   (kv' :: ms))).
    { cbn [map join fst snd]. by rewrite <- !app_assoc. }
    rewrite Hj. clear Hj.
    set (tail := join [44] (map _ (kv' :: ms))).
    unfold quote. rewrite <- !app_assoc.
    cbn [app drop_while]. change (is_json_ws DQUOTE) with false.
    change (DQUOTE =? DQUOTE) with true. cbv iota.
    rewrite (read_string_quoted k _ []).
    cbn [mbind option_bind app drop_while].
    change (is_json_ws COLON) with false. change (COLON =? COLON) with true. cbv iota.
    rewrite IH by done.
    cbn [mbind option_bind app drop_while].
    change (is_json_ws 44) with false. change (44 =? 44) with true. cbv iota.
    subst tail.
    rewrite (IHms (acc ++ [(k, v)]) n rest) by (done || cbn [length] in *; lia).
    by rewrite <- app_assoc.
Qed.

End with_reader.

(** The reader gives back a printed document and what follows it, when it
    has the fuel the document needs. *)
Lemma read_value_print (f : nat) :
  forall j rest,
    (need j <= f)%nat -> ends_number rest ->
    read_value f (print j ++ rest) = Some (j, rest).
Proof.
  induction f as [|f IH]; intros j rest Hneed Hrest.
  { pose proof (need_pos j). lia. }
  rewrite read_value_S. destruct j as [|z|s|l|ms].
  - reflexivity.
  - destruct (str_of_Z_head z) as (c & t & Hct & Hc). cbn [print].
    rewrite Hct at 1. cbn [app]. rewrite opening_not_ws by (unfold opening; tauto).
    assert ((c =? DQUOTE) = false) as -> by (unfold DQUOTE, MINUS in *; lia).
    assert ((c =? 91) = false) as -> by (unfold DQUOTE, MINUS in *; lia).
    assert ((c =? 123) = false) as -> by (unfold DQUOTE, MINUS in *; lia).
    assert ((c =? 110) = false) as -> by (unfold DQUOTE, MINUS in *; lia).
    change (c :: t ++ rest) with ((c :: t) ++ rest). rewrite <- Hct.
    by rewrite read_int_str_of_Z.
  - cbn [print]. unfold quote. rewrite <- !app_assoc. cbn [app drop_while].
    change (is_json_ws DQUOTE) with false. change (DQUOTE =? DQUOTE) with true. cbv iota.
    by rewrite (read_string_quoted s rest []).
  - cbn [print need] in *. rewrite <- !app_assoc. cbn [app drop_while].
    change (is_json_ws 91) with false. cbv iota. change (91 =? DQUOTE) with false.
    change (91 =? 91) with true. cbv iota.
    destruct l as [|e l]; [reflexivity|].
    assert (Hl : Forall (fun e => (need e <= f)%nat) (e :: l)).
    { apply (need_elements id). unfold id. lia. }
    match goal with |- context [drop_while is_json_ws ?b] => set (body := b) end.
    assert (Hbody : exists c t, drop_while is_json_ws body = c :: t /\ (c =? 93) = false).
    { destruct (print_head e) as (c & t & Hct & Hc). unfold body.
      assert (exists t', join [44] (map print (e :: l)) = c :: t') as [t' ->].
      { cbn [map join]. rewrite Hct. destruct (map print l); eexists; reflexivity. }
      exists c, (t' ++ 93 :: rest). split; [by apply opening_not_ws|].
      unfold opening, DQUOTE, MINUS in Hc. lia. }
    destruct Hbody as (c & t & -> & ->).
    unfold body. rewrite (read_elements_print f IH (e :: l) [] f rest); try done.
    cbn [length] in *. lia.
  - cbn [need] in Hneed. destruct ms as [|kv ms]; [reflexivity|].
    assert (Hl : Forall (fun kv => (need (snd kv) <= f)%nat) (kv :: ms)).
    { apply (need_elements snd). lia. }
    assert (Hm := read_members_print f IH (kv :: ms) [] f rest ltac:(done)
                    ltac:(cbn [length] in *; lia) Hl).
    set (body := join [44] (map (fun kv => quote (fst kv) ++ [COLON] ++ print (snd kv))
                              (kv :: ms)) ++ 125 :: rest) in Hm.
    assert (Hp : print (JObj (kv :: ms)) ++ rest = 123 :: body).
    { unfold body. cbn [print]. by rewrite <- !app_assoc. }
    rewrite Hp.
    assert (Hbody : exists t, drop_while is_json_ws body = DQUOTE :: t).
    { unfold body. cbn [map join]. unfold quote at 1.
      destruct (map _ ms); eexists; reflexivity. }
    destruct Hbody as (t & Ht).
    cbn [drop_while]. change (is_json_ws 123) with false. cbv iota.
    change (123 =? DQUOTE) with false. change (123 =? 91) with false.
    change (123 =? 123) with true. cbv iota.
    rewrite Ht. change (DQUOTE =? 125) with false. cbv iota.
    by rewrite Hm.
Qed.


(** *** The fuel of [read] *)

Lemma join_bounds (parts : list str) :
  Forall (fun p => (1 <= length p)%nat) parts ->
  (length parts <= length (join [44%N] parts))%nat
  /\ Forall (fun p => (length p <= length (join [44%N] parts))%nat) parts.
Proof.
  induction 1 as [|p parts Hp Hparts [IH1 IH2]]; [by split|].
  destruct parts as [|q parts].
  - cbn [join length]. split; [lia|]. by repeat constructor.
  - change (join [44%N] (p :: q :: parts)) with (p ++ [44%N] ++ join [44%N] (q :: parts)).
    rewrite !length_app. cbn [length] in *. split; [lia|].
    constructor; [lia|]. eapply Forall_impl; [exact IH2|]. cbv beta. intros; lia.
Qed.

(** A printed document is at least as long as the fuel it needs. *)
Lemma need_le_length (n : nat) :
  forall j, (need j <= n)%nat -> (need j <= length (print j))%nat.
Proof.
  induction n as [|n IH]; intros j Hn.
  { pose proof (need_pos j). lia. }
  destruct j as [|z|s|l|ms]; cbn [need] in *.
  - cbn. lia.
  - destruct (str_of_Z_head z) as (c & t & Hct & _). cbn [print]. rewrite Hct.
    cbn [length]. lia.
  - cbn [print]. unfold quote. rewrite !length_app. cbn [length]. lia.
  - assert (Hl : Forall (fun e => (need e <= n)%nat) l).
    { apply (need_elements id). unfold id. lia. }
    assert (Hlen : Forall (fun e => (need e <= length (print e))%nat) l).
    { eapply Forall_impl; [exact Hl|]. cbv beta. intros e He. by apply IH. }
    destruct (join_bounds (map print l)) as [B1 B2].
    { apply Forall_map. eapply Forall_impl; [exact Hlen|]. cbv beta.
      intros e He. pose proof (need_pos e). lia. }
    rewrite length_map in B1. apply Forall_map in B2.
    assert (B3 : (fold_right (fun e n => Nat.max (need e) n) 0%nat l
                  <= length (join [44%N] (map print l)))%nat).
    { apply (need_elements id). unfold id.
      apply Forall_forall. intros e He.
      pose proof (proj1 (Forall_forall _ _) Hlen e He).
      pose proof (proj1 (Forall_forall _ _) B2 e He). cbv beta in *. lia. }
    cbn [print]. rewrite !length_app. cbn [length]. lia.
  - assert (Hl : Forall (fun kv => (need (snd kv) <= n)%nat) ms).
    { apply (need_elements snd). lia. }
    set (g := fun kv : str * json => quote (fst kv) ++ [COLON] ++ print (snd kv)).
    assert (Hlen : Forall (fun kv => (need (snd kv) <= length (g kv))%nat) ms).
    { eapply Forall_impl; [exact Hl|]. cbv beta. intros kv He. apply IH in He.
      unfold g. rewrite !length_app. lia. }
    destruct (join_bounds (map g ms)) as [B1 B2].
    { apply Forall_map. eapply Forall_impl; [exact Hlen|]. cbv beta.
      intros kv He. pose proof (need_pos (snd kv)). lia. }
    rewrite length_map in B1. apply Forall_map in B2.
    assert (B3 : (fold_right (fun kv n => Nat.max (need (snd kv)) n) 0%nat ms
                  <= length (join [44%N] (map g ms)))%nat).
    { apply (need_elements snd).
      apply Forall_forall. intros kv He.
      pose proof (proj1 (Forall_forall _ _) Hlen kv He).
      pose proof (proj1 (Forall_forall _ _) B2 kv He). cbv beta in *. lia. }
    cbn [print]. fold g. rewrite !length_app. cbn [length]. lia.
Qed.

(** [read] gives back every document that [print] wrote, also with the
    line feed that the writer adds. *)
Lemma read_print (j : json) : read (print j ++ [LF]) = Some j.
Proof.
  unfold read. rewrite read_value_print; [reflexivity| |done].
  rewrite length_app. pose proof (need_le_length (need j) j). lia.
Qed.


(** *** Checkpoints *)

Lemma member_here (k : str) (v : json) (ms : list (str * json)) :
  member k ((k, v) :: ms) = Some v.
Proof. cbn [member]. by rewrite bool_decide_true. Qed.

Lemma member_next (k k' : str) (v : json) (ms : list (str * json)) :
  k' <> k -> member k ((k', v) :: ms) = member k ms.
Proof. intros H. cbn [member]. by rewrite bool_decide_false. Qed.

Ltac lookup :=
  repeat first
    [ rewrite member_here
    | rewrite member_next by (let H := fresh in intros H; vm_compute in H; discriminate H) ].

Lemma counters_of_to_json (c : Counters) :
  counters_of_json (counters_to_json c) = Some c.
Proof.
  destruct c. unfold counters_of_json, counters_to_json, get_int.
  cbn [lines_in_total bytes_in_total events_out_total dlq_out_total parse_fail_total
       write_fail_total checkpoint_fail_total].
  lookup. reflexivity.
Qed.

Lemma active_of_to_json (a : Active) : active_of_json (active_to_json a) = Some a.
Proof.
  destruct a as [p i o t].
  unfold active_of_json, active_to_json, get_int, get_str, get_opt_int, get_opt_str.
  cbn [a_path a_inode a_offset a_last_event_ts_seen].
  lookup. by destruct i, t.
Qed.

Lemma completed_of_to_json (c : Completed) :
  completed_of_json (completed_to_json c) = Some c.
Proof.
  destruct c as [k p i sz m t].
  unfold completed_of_json, completed_to_json, get_int, get_str, get_opt_str.
  cbn [c_key c_path c_inode c_size c_mtime c_completed_at].
  destruct k; cbn [app]; lookup; reflexivity.
Qed.

Lemma completed_list_of_to_json (l : list Completed) :
  mapM completed_of_json (map completed_to_json l) = Some l.
Proof.
  induction l as [|c l IH]; [done|].
  cbn [map mapM]. rewrite completed_of_to_json. cbn [mbind option_bind].
  by rewrite IH.
Qed.

Lemma of_to_json (ck : Checkpoint) : of_json (to_json ck) = Some ck.
Proof.
  destruct ck as [v a l c u]. unfold of_json, to_json, get_int.
  cbn [ck_schema_version ck_active ck_completed ck_counters ck_updated_at].
  destruct l as [l|]; cbn [app]; lookup; cbn [mbind option_bind];
    rewrite active_of_to_json, counters_of_to_json; cbn [mbind option_bind];
    [rewrite completed_list_of_to_json|]; reflexivity.
Qed.

(** The reference codec reads back every checkpoint it wrote. *)
Lemma codec_round_trip (ck : Checkpoint) :
  @json_load codec (@json_dumps codec ck ++ [LF]) = Some ck.
Proof.
  cbn [json_load json_dumps codec]. rewrite read_print. cbn [mbind option_bind].
  apply of_to_json.
Qed.

(** C7. For every checkpoint state, a successful [save_checkpoint]
    followed by [load_checkpoint] returns the saved state with every field
    (schema version, active pointer, completed ledger, counters) unchanged,
    except [updated_at], which is the time of saving; the canonical file
    then holds the serialized state and the temporary file is gone.  The
    [json] module is the codec [json_ref.codec]: [json.dumps] with the
    separators of the source and without ASCII escapes, and [json.load]. *)
Theorem C7_checkpoint_round_trip (ck : Checkpoint) (now pid : Z) (fs : Files) :
  exists fs' loaded,
    save_checkpoint (JS:=codec) ck now pid true fs = (set_updated_at ck now, Return fs')
    /\ fs' !! CHECKPOINT_PATH = Some (print (to_json (set_updated_at ck now)) ++ [LF])
    /\ (forall now', load_checkpoint (JS:=codec) now' fs' = Return loaded)
    /\ ck_schema_version loaded = ck_schema_version ck
    /\ ck_active loaded = ck_active ck
    /\ ck_completed loaded = ck_completed ck
    /\ ck_counters loaded = ck_counters ck
    /\ ck_updated_at loaded = now
    /\ fs' !! (CHECKPOINT_PATH ++ pystr ".tmp." ++ str_of_Z pid) = None.
Proof.
  destruct (save_then_load (JS:=codec) ck now pid fs (codec_round_trip _))
    as (fs' & Hsave & Hfile & Hload & Htmp).
  exists fs', (set_updated_at ck now).
  split; [exact Hsave|]. split; [exact Hfile|]. split; [exact Hload|].
  repeat (split; [reflexivity|]). exact Htmp.
Qed.

(** A checkpoint with a text that needs escapes, saved and loaded. *)
Example busy_checkpoint_round_trip :
  exists fs',
    save_checkpoint (JS:=codec) busy_checkpoint 1704000200 321 true ∅
    = (set_updated_at busy_checkpoint 1704000200, Return fs')
    /\ load_checkpoint (JS:=codec) 0 fs'
       = Return (set_updated_at busy_checkpoint 1704000200).
Proof. eexists. split; vm_compute; reflexivity. Qed.

End JsonFacts.

(** * A rotation between two turns of the loop *)
Module RotationFacts.
Import Py PyFacts parser_fgt_v1 checkpoint source_file main.
Import ParserFacts CheckpointFacts LedgerFacts MainSpec MainFacts RotatedFacts TextFacts
  Examples.

(** ** The ledger while records are added *)

Lemma survives_le (n m : nat) (ck : Checkpoint) (key : str) :
  (m <= n)%nat -> survives n ck key -> survives m ck key.
Proof.
  intros Hle (l1 & item & l2 & H1 & H2 & H3). exists l1, item, l2.
  repeat split; try done. lia.
Qed.

Lemma survives_ledger (n : nat) (ck ck' : Checkpoint) (key : str) :
  ledger ck' = ledger ck -> survives n ck key -> survives n ck' key.
Proof. intros E (l1 & item & l2 & H1 & H2 & H3). exists l1, item, l2. by rewrite E. Qed.

Lemma survives_is_completed (n : nat) (ck : Checkpoint) (path : str) (inode size mtime : Z) :
  survives n ck (completed_key path inode size mtime) ->
  is_completed ck path inode size mtime = true.
Proof.
  intros (l1 & item & l2 & H1 & H2 & _). apply is_completed_iff.
  exists item. split; [|done]. rewrite H1. apply in_or_app. right. by left.
Qed.

Lemma survives_mark (n : nat) (ck : Checkpoint) (key path : str)
    (inode size mtime now : Z) :
  survives (S n) ck key ->
  survives n (mark_completed ck path inode size mtime now) key.
Proof.
  intros (l1 & item & l2 & H1 & H2 & H3).
  rewrite <- Nat.add_succ_comm in H3. 
  exists (last_n (LEDGER_CAP - S (S (length l2))) l1), item,
    (l2 ++ [new_record path inode size mtime now]).
  split; [|split; [done|rewrite length_app; cbn [length]; lia]].
  rewrite ledger_mark_completed, H1. unfold last_n.
  rewrite <- app_assoc. cbn [app].
  rewrite !length_app. cbn [length]. rewrite length_app. cbn [length].
  destruct (decide (length l1 + S (length l2 + 1) <= LEDGER_CAP)%nat) as [Hs|Hl].
  - replace (length l1 + S (length l2 + 1) - LEDGER_CAP)%nat with 0%nat by lia.
    replace (length l1 - (LEDGER_CAP - S (S (length l2))))%nat with 0%nat by lia.
    done.
  - rewrite drop_app_le by lia. f_equal. f_equal. lia.
Qed.

Lemma survives_new (n : nat) (ck : Checkpoint) (path : str) (inode size mtime now : Z) :
  (n < LEDGER_CAP)%nat ->
  survives n (mark_completed ck path inode size mtime now)
    (completed_key path inode size mtime).
Proof.
  intros Hn.
  set (l := ledger ck).
  exists (last_n (LEDGER_CAP - 1) l), (new_record path inode size mtime now), [].
  split; [|split; [done|cbn [length]; lia]].
  rewrite ledger_mark_completed. fold l. unfold last_n.
  rewrite length_app. cbn [length].
  destruct (decide (length l + 1 <= LEDGER_CAP)%nat) as [Hs|Hl].
  - replace (length l + 1 - LEDGER_CAP)%nat with 0%nat by lia.
    replace (length l - (LEDGER_CAP - 1))%nat with 0%nat by lia. done.
  - rewrite drop_app_le by lia. f_equal. f_equal. lia.
Qed.

(** Marking another path does not make a file completed. *)
Lemma is_completed_mark_other (ck : Checkpoint) (p path : str)
    (i s m now inode size mtime : Z) :
  p <> path ->
  is_completed ck path inode size mtime = false ->
  is_completed (mark_completed ck p i s m now) path inode size mtime = false.
Proof.
  intros Hne Hc. apply not_true_is_false. intros H.
  apply is_completed_iff in H as (item & Hin & Hk).
  rewrite ledger_mark_completed in Hin. apply In_last_n in Hin.
  apply in_app_or in Hin as [Hin|[<-|[]]].
  - assert (is_completed ck path inode size mtime = true); [|congruence].
    apply is_completed_iff. eauto.
  - cbn [new_record c_key] in Hk. injection Hk as Hk.
    by apply completed_key_fields in Hk as [? _].
Qed.


Section with_env.
Context `{RT : Runtime} (env : Env).

(** ** The calls made for the lines of a file *)

Lemma ingest_line_call (w : World) (raw_line : str) (src : Source) :
  exists w' x,
    ingest_line env w raw_line src = Return w'
    /\ w_trace w' = w_trace w ++ [x]
    /\ raw_of x = raw_line /\ inode_of x = s_inode src /\ path_of x = s_path src
    /\ ck_completed (w_ck w') = ck_completed (w_ck w)
    /\ a_inode (ck_active (w_ck w')) = a_inode (ck_active (w_ck w))
    /\ a_offset (ck_active (w_ck w')) = a_offset (ck_active (w_ck w)).
Proof.
  unfold ingest_line.
  set (w1 := {| w_ck := _; w_trace := w_trace w |}).
  destruct (parse_fortigate_line_cases raw_line (now_year env (length (w_trace w))))
    as [[r ->] | (e & -> & Hraw)]; cbn [bind].
  - exists (_write_dlq env w1 (from_parser r) raw_line src).
    unfold _write_dlq. destruct (sink_ok env _); eexists; (split; [reflexivity|]); done.
  - exists (_write_event env w1 e src).
    unfold _write_event. destruct (sink_ok env _); eexists; (split; [reflexivity|]).
    + split; [reflexivity|]. split; [exact Hraw|]. split; [reflexivity|].
      split; [reflexivity|]. destruct (truthy (event_ts e)); done.
    + done.
Qed.

Lemma ingest_lines_calls (lines : list (str * Source)) :
  forall w, exists w' xs,
    ingest_lines env lines w = Return w'
    /\ w_trace w' = w_trace w ++ xs
    /\ map raw_of xs = map fst lines
    /\ map inode_of xs = map (fun y => s_inode y.2) lines
    /\ map path_of xs = map (fun y => s_path y.2) lines
    /\ ck_completed (w_ck w') = ck_completed (w_ck w)
    /\ a_inode (ck_active (w_ck w')) = a_inode (ck_active (w_ck w))
    /\ a_offset (ck_active (w_ck w')) = a_offset (ck_active (w_ck w)).
Proof.
  induction lines as [|[line src] lines IH]; intros w.
  - exists w, []. rewrite app_nil_r. repeat split; done.
  - destruct (ingest_line_call w line src)
      as (w1 & x & H1 & Ht1 & Hr1 & Hi1 & Hp1 & Hc1 & Ha1 & Ho1).
    destruct (IH w1) as (w2 & xs & H2 & Ht2 & Hr2 & Hi2 & Hp2 & Hc2 & Ha2 & Ho2).
    exists w2, (x :: xs). cbn [ingest_lines]. rewrite H1. cbn [bind].
    split; [exact H2|].
    split; [rewrite Ht2, Ht1, <- app_assoc; done|].
    cbn [map fst snd]. rewrite Hr1, Hi1, Hp1, Hr2, Hi2, Hp2.
    repeat split; congruence.
Qed.

(** What [read_whole_file_lines] yields for a file: the lines of its text,
    from the first one on, each with the path and the inode of the file. *)
Lemma read_whole_file_lines_sources (disk : Disk) (path : str) (f : File)
    (lines : list (str * Source)) :
  disk !! path = Some f ->
  read_whole_file_lines disk path = Return lines ->
  Forall (fun y => s_path y.2 = path /\ s_inode y.2 = Some (f_inode f)) lines
  /\ exists text,
       (if endswith path (pystr ".gz") then gzip_decompress (f_data f) = Some text
        else text = f_data f)
       /\ map fst lines = text_lines text.
Proof.
  intros Hf. unfold read_whole_file_lines, stat_file. rewrite Hf. cbn [bind].
  destruct (endswith path (pystr ".gz")).
  - destruct (gzip_decompress (f_data f)) as [text|]; [|done].
    cbn [of_option bind]. intros [= <-]. split.
    + apply Forall_map. by apply Forall_true.
    + exists text. split; [done|]. rewrite map_map. cbn [fst]. by rewrite map_id.
  - intros [= <-]. split.
    + eapply Forall_impl; [apply with_offsets_fields|]. cbv beta. tauto.
    + exists (f_data f). split; [done|]. apply with_offsets_fst.
Qed.

Lemma read_whole_file_lines_returns (disk : Disk) (path : str) (f : File) :
  disk !! path = Some f ->
  (endswith path (pystr ".gz") = true -> is_Some (gzip_decompress (f_data f))) ->
  exists lines, read_whole_file_lines disk path = Return lines.
Proof.
  intros Hf Hgz. unfold read_whole_file_lines, stat_file. rewrite Hf. cbn [bind].
  destruct (endswith path (pystr ".gz")); [|by eexists].
  destruct (Hgz eq_refl) as [text ->]. by eexists.
Qed.

(** ** The drain, file by file *)

Lemma process_rotated_files_app (disk : Disk) (paths rest : list str) :
  forall w w',
    process_rotated_files env disk paths w = Return w' ->
    process_rotated_files env disk (paths ++ rest) w
    = process_rotated_files env disk rest w'.
Proof.
  induction paths as [|p paths IH]; intros w w'; cbn [process_rotated_files app].
  - by intros [= <-].
  - destruct (stat_file disk p) as [[[inode size] mtime]|e|]; [|destruct e; try done; apply IH|done].
    destruct (is_completed (w_ck w) p inode size mtime); [apply IH|].
    destruct (read_whole_file_lines disk p) as [lines|e|]; try done. cbn [bind].
    destruct (ingest_lines env lines w) as [w1|e|]; try done. cbn [bind]. apply IH.
Qed.

(** The files of the other paths: their calls carry their own paths, and
    by them the file at [path] is neither completed nor forgotten. *)
Lemma process_rotated_files_others (disk : Disk) (path : str) (paths : list str) :
  ~ In path paths ->
  (forall p g, In p paths -> disk !! p = Some g ->
               endswith p (pystr ".gz") = true -> is_Some (gzip_decompress (f_data g))) ->
  forall w, exists w' ys,
    process_rotated_files env disk paths w = Return w'
    /\ w_trace w' = w_trace w ++ ys
    /\ Forall (fun x => path_of x <> path) ys
    /\ a_inode (ck_active (w_ck w')) = a_inode (ck_active (w_ck w))
    /\ a_offset (ck_active (w_ck w')) = a_offset (ck_active (w_ck w))
    /\ (forall inode size mtime,
          is_completed (w_ck w) path inode size mtime = false ->
          is_completed (w_ck w') path inode size mtime = false)
    /\ (forall n key, survives (length paths + n) (w_ck w) key -> survives n (w_ck w') key).
Proof.
  induction paths as [|p paths IH]; intros Hnot Hgz w.
  - exists w, []. rewrite app_nil_r. cbn [process_rotated_files length].
    repeat split; done.
  - assert (Hp : p <> path) by (intros ->; apply Hnot; by left).
    assert (Hnot' : ~ In path paths) by (intros H; apply Hnot; by right).
    assert (Hgz' : forall p g, In p paths -> disk !! p = Some g ->
                     endswith p (pystr ".gz") = true ->
                     is_Some (gzip_decompress (f_data g)))
      by (intros q g Hq; apply Hgz; by right).
    specialize (IH Hnot' Hgz').
    cbn [process_rotated_files length]. unfold stat_file.
    destruct (disk !! p) as [g|] eqn:Eg.
    2: { destruct (IH w) as (w' & ys & H1 & H2 & H3 & H4 & H5 & H6 & H7).
         exists w', ys. repeat (split; [done|]).
         intros n key Hs. apply H7. eapply survives_le; [|exact Hs]. lia. }
    destruct (is_completed (w_ck w) p (f_inode g) (f_size g) (f_mtime g)).
    { destruct (IH w) as (w' & ys & H1 & H2 & H3 & H4 & H5 & H6 & H7).
      exists w', ys. repeat (split; [done|]).
      intros n key Hs. apply H7. eapply survives_le; [|exact Hs]. lia. }
    destruct (read_whole_file_lines_returns disk p g Eg) as [lines Hl].
    { apply (Hgz p g); [by left|done]. }
    destruct (read_whole_file_lines_sources disk p g lines Eg Hl) as [Hsrc _].
    rewrite Hl. cbn [bind].
    destruct (ingest_lines_calls lines w)
      as (w1 & xs & -> & Ht1 & _ & _ & Hp1 & Hc1 & Ha1 & Ho1).
    cbn [bind].
    destruct (IH (mark_world env w1 p (f_inode g) (f_size g) (f_mtime g)))
      as (w' & ys & H1 & H2 & H3 & H4 & H5 & H6 & H7).
    assert (Hl1 : ledger (w_ck w1) = ledger (w_ck w)) by (unfold ledger; by rewrite Hc1).
    exists w', (xs ++ ys). split; [exact H1|].
    split; [rewrite H2; cbn [mark_world w_trace]; by rewrite Ht1, <- app_assoc|].
    split.
    { apply Forall_app. split; [|exact H3].
      apply List.Forall_forall. intros x Hx.
      apply (in_map path_of) in Hx. rewrite Hp1 in Hx.
      apply in_map_iff in Hx as (y & <- & Hy).
      apply (proj1 (List.Forall_forall _ _) Hsrc) in Hy as [-> _]. done. }
    split; [rewrite H4; cbn [mark_world w_ck]; unfold mark_completed;
            destruct (_ <? _)%nat; exact Ha1|].
    split; [rewrite H5; cbn [mark_world w_ck]; unfold mark_completed;
            destruct (_ <? _)%nat; exact Ho1|].
    split.
    + intros inode size mtime Hc. apply H6. cbn [mark_world w_ck].
      apply is_completed_mark_other; [done|].
      unfold is_completed in *. by rewrite Hl1.
    + intros n key Hs. apply H7. cbn [mark_world w_ck].
      apply survives_mark. apply (survives_ledger _ (w_ck w)); [done|].
      eapply survives_le; [|exact Hs]. lia.
Qed.


(** The drain of a list in which [path] stands once, for a file that is
    not completed: every line of the file is routed once, between the calls
    for the files before and after it. *)
Lemma process_rotated_files_file (disk : Disk) (path : str) (pre post : list str)
    (f : File) (w : World) :
  ~ In path pre -> ~ In path post ->
  (forall p g, In p (pre ++ path :: post) -> disk !! p = Some g ->
               endswith p (pystr ".gz") = true -> is_Some (gzip_decompress (f_data g))) ->
  disk !! path = Some f ->
  is_completed (w_ck w) path (f_inode f) (f_size f) (f_mtime f) = false ->
  exists text w1 ys xs zs,
    (if endswith path (pystr ".gz") then gzip_decompress (f_data f) = Some text
     else text = f_data f)
    /\ process_rotated_files env disk (pre ++ path :: post) w = Return w1
    /\ w_trace w1 = w_trace w ++ ys ++ xs ++ zs
    /\ map raw_of xs = text_lines text
    /\ Forall (fun x => path_of x = path /\ inode_of x = Some (f_inode f)) xs
    /\ Forall (fun x => path_of x <> path) (ys ++ zs)
    /\ a_inode (ck_active (w_ck w1)) = a_inode (ck_active (w_ck w))
    /\ a_offset (ck_active (w_ck w1)) = a_offset (ck_active (w_ck w))
    /\ (forall n, (length post + n < LEDGER_CAP)%nat ->
          survives n (w_ck w1) (completed_key path (f_inode f) (f_size f) (f_mtime f))).
Proof.
  intros Hpre Hpost Hgz Hf Hc.
  destruct (process_rotated_files_others disk path pre Hpre) with (w := w)
    as (w0 & ys & H0 & Ht0 & Hy0 & Ha0 & Ho0 & Hc0 & _).
  { intros p g Hp. apply Hgz. apply in_or_app. by left. }
  specialize (Hc0 _ _ _ Hc).
  destruct (read_whole_file_lines_returns disk path f Hf) as [lines Hl].
  { apply (Hgz path f); [|done]. apply in_or_app. right. by left. }
  destruct (read_whole_file_lines_sources disk path f lines Hf Hl)
    as [Hsrc (text & Htext & Hlines)].
  destruct (ingest_lines_calls lines w0)
    as (w1 & xs & Hi1 & Ht1 & Hr1 & Hn1 & Hp1 & Hc1 & Ha1 & Ho1).
  set (wm := mark_world env w1 path (f_inode f) (f_size f) (f_mtime f)).
  destruct (process_rotated_files_others disk path post Hpost) with (w := wm)
    as (w2 & zs & H2 & Ht2 & Hy2 & Ha2 & Ho2 & _ & Hs2).
  { intros p g Hp. apply Hgz. apply in_or_app. right. by right. }
  exists text, w2, ys, xs, zs. split; [exact Htext|].
  split.
  { rewrite (process_rotated_files_app disk pre (path :: post) w w0 H0).
    cbn [process_rotated_files]. unfold stat_file. rewrite Hf, Hc0, Hl. cbn [bind].
    rewrite Hi1. cbn [bind]. exact H2. }
  split; [rewrite Ht2; unfold wm; cbn [mark_world w_trace];
          by rewrite Ht1, Ht0, <- !app_assoc|].
  split; [by rewrite Hr1|].
  split.
  { apply List.Forall_forall. intros x Hx.
    pose proof (in_map path_of _ _ Hx) as Hxp. rewrite Hp1 in Hxp.
    apply in_map_iff in Hxp as (y & Ey & Hy).
    apply (proj1 (List.Forall_forall _ _) Hsrc) in Hy as Hy'. destruct Hy' as [Hyp _].
    split; [congruence|].
    clear Ey y Hy Hyp.
    apply In_nth_error in Hx as [i Hi].
    apply (f_equal (fun l => nth_error l i)) in Hn1.
    rewrite !nth_error_map, Hi in Hn1. cbn [option_map] in Hn1.
    destruct (nth_error lines i) as [y|] eqn:Ey; [|done].
    cbn [option_map] in Hn1. injection Hn1 as ->.
    apply nth_error_In in Ey.
    by apply (proj1 (List.Forall_forall _ _) Hsrc) in Ey as [_ ?]. }
  split; [apply Forall_app; by split|].
  split; [rewrite Ha2; unfold wm; cbn [mark_world w_ck]; unfold mark_completed;
          destruct (_ <? _)%nat; cbn; congruence|].
  split; [rewrite Ho2; unfold wm; cbn [mark_world w_ck]; unfold mark_completed;
          destruct (_ <? _)%nat; cbn; congruence|].
  intros n Hn. apply Hs2. unfold wm. cbn [mark_world w_ck].
  apply survives_new. lia.
Qed.

(** A later drain, of any directory: while the record of the file
    survives, none of its lines is routed again. *)
Lemma process_rotated_files_skips (disk : Disk) (path : str) (inode size mtime : Z)
    (paths : list str) :
  (forall g, disk !! path = Some g ->
             f_inode g = inode /\ f_size g = size /\ f_mtime g = mtime) ->
  forall w w',
    survives (length paths) (w_ck w) (completed_key path inode size mtime) ->
    process_rotated_files env disk paths w = Return w' ->
    exists ys,
      w_trace w' = w_trace w ++ ys
      /\ Forall (fun x => path_of x <> path) ys
      /\ survives 0 (w_ck w') (completed_key path inode size mtime).
Proof.
  intros Hid. induction paths as [|p paths IH]; intros w w' Hs;
    cbn [process_rotated_files length] in *.
  - intros [= <-]. exists []. by rewrite app_nil_r.
  - assert (Hs' : survives (length paths) (w_ck w) (completed_key path inode size mtime))
      by (eapply survives_le; [|exact Hs]; lia).
    unfold stat_file. destruct (disk !! p) as [g|] eqn:Eg; [|by apply IH].
    destruct (is_completed (w_ck w) p (f_inode g) (f_size g) (f_mtime g)) eqn:Ec;
      [by apply IH|].
    assert (Hp : p <> path).
    { intros ->. destruct (Hid g Eg) as (Hi & Hsz & Hm).
      rewrite Hi, Hsz, Hm in Ec.
      by rewrite (survives_is_completed _ _ _ _ _ _ Hs) in Ec. }
    destruct (read_whole_file_lines disk p) as [lines|e|] eqn:El; try done. cbn [bind].
    destruct (read_whole_file_lines_sources disk p g lines Eg El) as [Hsrc _].
    destruct (ingest_lines_calls lines w)
      as (w1 & xs & -> & Ht1 & _ & _ & Hp1 & Hc1 & _).
    cbn [bind]. intros Hrun.
    assert (Hl1 : ledger (w_ck w1) = ledger (w_ck w)) by (unfold ledger; by rewrite Hc1).
    apply IH in Hrun as (ys & Ht & Hy & Hs2).
    2: { cbn [mark_world w_ck]. apply survives_mark.
         by apply (survives_ledger _ (w_ck w)). }
    exists (xs ++ ys). split; [rewrite Ht; cbn [mark_world w_trace];
                               by rewrite Ht1, <- app_assoc|].
    split; [|exact Hs2]. apply Forall_app. split; [|exact Hy].
    apply List.Forall_forall. intros x Hx.
    apply (in_map path_of) in Hx. rewrite Hp1 in Hx.
    apply in_map_iff in Hx as (y & <- & Hy').
    apply (proj1 (List.Forall_forall _ _) Hsrc) in Hy' as [-> _]. done.
Qed.

(** ** The slice of the active tail *)

Lemma tail_loop_calls (tenv : TailEnv) (ys : list (str * Z)) :
  forall k w, exists w' st zs,
    tail_loop env tenv ys k w = Return (w', st)
    /\ w_trace w' = w_trace w ++ zs
    /\ Forall (fun x => path_of x = ACTIVE_PATH) zs
    /\ ck_completed (w_ck w') = ck_completed (w_ck w)
    /\ (forall b, (forall k, t_probe tenv k = None \/ t_probe tenv k = Some b) ->
          a_inode (ck_active (w_ck w)) = Some b ->
          a_inode (ck_active (w_ck w')) = Some b
          /\ Forall (fun x => inode_of x = Some b) zs).
Proof.
  induction ys as [|[line new_offset] ys IH]; intros k w; cbn [tail_loop].
  - exists w, polling, []. rewrite app_nil_r. repeat split; done.
  - destruct (inode_changed (t_probe tenv k) (a_inode (ck_active (w_ck w)))) as [c|] eqn:Ei.
    + eexists _, _, []. split; [reflexivity|]. cbn [with_ck w_trace w_ck].
      rewrite app_nil_r. repeat (split; [done|]).
      intros b Hprobe Hb. exfalso. unfold inode_changed in Ei.
      destruct (Hprobe k) as [E|E]; rewrite E in Ei; [done|].
      rewrite Hb in Ei. by rewrite bool_decide_eq_true_2 in Ei.
    + match goal with |- context [ingest_line env w line ?src] =>
        destruct (ingest_line_call w line src)
          as (w1 & x & -> & Ht1 & _ & Hn1 & Hp1 & Hc1 & Ha1 & _) end.
      cbn [bind]. cbn [s_path s_inode] in *.
      destruct (t_expired tenv k).
      * eexists _, _, [x]. split; [reflexivity|]. cbn [with_ck w_trace w_ck].
        split; [done|]. split; [by repeat constructor|]. split; [done|].
        intros b _ Hb. cbn. split; [congruence|]. repeat constructor. congruence.
      * match goal with |- context [tail_loop env tenv ys (S k) ?w2] =>
          destruct (IH (S k) w2) as (w' & st & zs & -> & Ht & Hz & Hc & Hb') end.
        cbn [with_ck w_trace w_ck set_offset set_active ck_completed ck_active a_inode]
          in *.
        exists w', st, (x :: zs). split; [reflexivity|].
        split; [by rewrite Ht, Ht1, <- app_assoc|].
        split; [by constructor|]. split; [congruence|].
        intros b Hprobe Hb. destruct (Hb' b Hprobe) as [H1 H2]; [congruence|].
        split; [done|]. constructor; [congruence|done].
Qed.


End with_env.

(** ** The listing *)

Section listing.
Context `{RT : Runtime}.

(** The name of a rotated file is not the name of the active file. *)
Lemma rotated_path_not_active (name : str) :
  is_Some (ROTATED_RE_match name) -> ACTIVE_PATH <> DIR ++ [47] ++ name.
Proof.
  intros [stamp H] E. unfold ROTATED_RE_match in H.
  destruct (strip_prefix (pystr "fortigate.log-") name) as [r|] eqn:Er; [|done].
  apply strip_prefix_Some in Er. subst name.
  apply (f_equal length) in E. rewrite !length_app in E. cbn in E. lia.
Qed.

(** A listed name that [ROTATED_RE] matches stands once in the result of
    [list_rotated_files], when the directory lists no name twice. *)
Lemma list_rotated_files_split (names : list str) (name : str) :
  NoDup names -> In name names -> is_Some (ROTATED_RE_match name) ->
  exists pre post,
    list_rotated_files names = pre ++ (DIR ++ [47] ++ name) :: post
    /\ ~ In (DIR ++ [47] ++ name) pre /\ ~ In (DIR ++ [47] ++ name) post
    /\ (length pre + S (length post) <= length names)%nat.
Proof.
  intros Hnd Hin Hm.
  set (files := map (fun name => DIR ++ [47] ++ name)
                  (filter (fun name => is_Some (ROTATED_RE_match name)) names)).
  assert (Hperm : list_rotated_files names ≡ₚ files) by apply sort_by_perm.
  assert (Hnd' : NoDup (list_rotated_files names)).
  { rewrite Hperm. unfold files. apply NoDup_fmap_2.
    - intros x y E. cbv beta in E. apply app_inv_head in E. by injection E.
    - by apply NoDup_filter. }
  assert (Hel : DIR ++ [47] ++ name ∈ list_rotated_files names).
  { rewrite Hperm. unfold files. apply list_elem_of_fmap. exists name. split; [done|].
    apply list_elem_of_filter. split; [done|]. by apply list_elem_of_In. }
  apply list_elem_of_split in Hel as (pre & post & E).
  exists pre, post. rewrite E in Hnd'. split; [done|].
  apply NoDup_app in Hnd' as (_ & H1 & H2). apply NoDup_cons in H2 as [H2 _].
  split; [|split].
  - intros H%list_elem_of_In. apply (H1 _ H). by left.
  - intros H%list_elem_of_In. by apply H2.
  - apply (f_equal length) in E. rewrite length_app in E. cbn [length] in E.
    rewrite <- E, Hperm. unfold files. rewrite length_map. apply length_filter.
Qed.

End listing.

Section with_loop.
Context `{RT : Runtime} `{JS : Json} `{MT : Metrics} (env : Env).

(** The timers of [main] leave the sink calls, the ledger and the inode of
    the pointer as they are. *)
Lemma flush_checkpoint_keeps (it : Iter) (l : Loop) (w : World) :
  w_trace (flush_checkpoint it l w).1.1 = w_trace w
  /\ ck_completed (w_ck (flush_checkpoint it l w).1.1) = ck_completed (w_ck w)
  /\ ck_active (w_ck (flush_checkpoint it l w).1.1) = ck_active (w_ck w).
Proof.
  unfold flush_checkpoint. destruct (_ <=? _)%Z; [|done].
  unfold save_checkpoint. destruct (_atomic_write_json _ _ _ _ _); done.
Qed.

Lemma emit_metrics_keeps (it : Iter) (l : Loop) (w : World) :
  w_trace (emit_metrics it l w).1.1.1 = w_trace w
  /\ ck_completed (w_ck (emit_metrics it l w).1.1.1) = ck_completed (w_ck w)
  /\ ck_active (w_ck (emit_metrics it l w).1.1.1) = ck_active (w_ck w).
Proof.
  unfold emit_metrics. destruct (_ <=? _)%Z; [|done].
  destruct (build_metrics _ _ _). destruct (i_metrics_ok it); done.
Qed.


Local Set Warnings "-abstract-large-number".

(** C2 (as amended).  The stored active inode is A, the active path is
    found to be B, and the directory lists the rotated copy of A, a file
    that is not yet completed (every listed [.gz] file can be read).  Then
    the next turn of the loop raises nothing: it runs to its end, or to the
    point where the follower waits for more bytes.  In that turn the drain
    routes every line of the rotated file once, in order and from its first
    byte, whatever the active offset was, each call with the path of that
    file and the inode A, and no other call of the turn carries that path:
    lines of A that the tail had routed before are routed again.  The drain
    leaves the pointer as it was; [process_active_tail] then resets it to
    inode B, offset 0, and follows B from byte 0, and its calls carry the
    active path and, while no further change is seen, the inode B (when a
    change is seen after a yield, the pointer is reset the same way, the
    yielded line is not routed and the slice ends).  The file is marked
    completed: in a directory of fewer than 5000 names its record is in the
    ledger at the end of the turn, and a later drain, of any directory,
    routes no line of that file for as long as the record survives in the
    ledger, which keeps the last 5000 records. *)
Theorem C2_rotation_reset_and_drain (it : Iter) (l : Loop) (a b : Z) (data : bytes)
    (name : str) (f : File)
    (Hstored : a_inode (ck_active (w_ck (l_world l))) = Some a)
    (Hcur : t_inode (i_tail it) = Some b) (Hne : a <> b)
    (Hdata : t_data (i_tail it) = Some data)
    (Hnames : NoDup (i_names it)) (Hname : In name (i_names it))
    (Hrot : is_Some (ROTATED_RE_match name))
    (Hfile : i_disk it !! (DIR ++ [47] ++ name) = Some f)
    (Hinode : f_inode f = a)
    (Hfresh : is_completed (w_ck (l_world l)) (DIR ++ [47] ++ name)
                (f_inode f) (f_size f) (f_mtime f) = false)
    (Hgz : forall p g, In p (list_rotated_files (i_names it)) ->
             i_disk it !! p = Some g -> endswith p (pystr ".gz") = true ->
             is_Some (gzip_decompress (f_data g))) :
  let path := DIR ++ [47] ++ name in
  let key := completed_key path (f_inode f) (f_size f) (f_mtime f) in
  exists text w1 pre xs post l' st zs,
    (if endswith path (pystr ".gz") then gzip_decompress (f_data f) = Some text
     else text = f_data f)
    /\ process_rotated_files env (i_disk it) (list_rotated_files (i_names it)) (l_world l)
       = Return w1
    /\ w_trace w1 = w_trace (l_world l) ++ pre ++ xs ++ post
    /\ map raw_of xs = text_lines text
    /\ Forall (fun x => path_of x = path /\ inode_of x = Some a) xs
    /\ Forall (fun x => path_of x <> path) (pre ++ post)
    /\ a_inode (ck_active (w_ck w1)) = Some a
    /\ a_offset (ck_active (w_ck w1)) = a_offset (ck_active (w_ck (l_world l)))
    /\ process_active_tail env (i_tail it) w1
       = tail_loop env (i_tail it) (follow_active_binary data 0) 0
           (with_ck w1 (set_offset (w_ck w1) (Some b) 0))
    /\ main_iteration env it l = Return (l', st)
    /\ w_trace (l_world l') = w_trace w1 ++ zs
    /\ Forall (fun x => path_of x = ACTIVE_PATH /\ path_of x <> path) zs
    /\ ((forall k, t_probe (i_tail it) k = None \/ t_probe (i_tail it) k = Some b) ->
        a_inode (ck_active (w_ck (l_world l'))) = Some b
        /\ Forall (fun x => inode_of x = Some b) zs)
    /\ (forall w line new_offset ys k,
          a_inode (ck_active (w_ck w)) = Some a -> t_probe (i_tail it) k = Some b ->
          tail_loop env (i_tail it) ((line, new_offset) :: ys) k w
          = Return (with_ck w (set_offset (w_ck w) (Some b) 0), returned))
    /\ (forall n, (length (i_names it) + n < 5000)%nat ->
          survives n (w_ck (l_world l')) key)
    /\ (forall n ck, survives n ck key ->
          is_completed ck path (f_inode f) (f_size f) (f_mtime f) = true)
    /\ (forall disk' paths' w' w'',
          (forall g, disk' !! path = Some g ->
                     f_inode g = f_inode f /\ f_size g = f_size f
                     /\ f_mtime g = f_mtime f) ->
          survives (length paths') (w_ck w') key ->
          process_rotated_files env disk' paths' w' = Return w'' ->
          exists ys, w_trace w'' = w_trace w' ++ ys
                     /\ Forall (fun x => path_of x <> path) ys
                     /\ survives 0 (w_ck w'') key).
Proof.
  intros path key. change 5000%nat with LEDGER_CAP.
  destruct (list_rotated_files_split (i_names it) name Hnames Hname Hrot)
    as (ppre & ppost & Hlist & Hpre & Hpost & Hlen).
  fold path in Hlist, Hpre, Hpost, Hfile, Hfresh.
  rewrite Hlist in Hgz.
  destruct (process_rotated_files_file env (i_disk it) path ppre ppost f (l_world l)
              Hpre Hpost Hgz Hfile Hfresh)
    as (text & w1 & pre & xs & post & Htext & Hdrain & Ht1 & Hraw & Hxs & Hothers
        & Ha1 & Ho1 & Hs1).
  rewrite Hstored in Ha1. rewrite Hinode in Hxs.
  pose proof (process_active_tail_reset env (i_tail it) w1 a b data Ha1 Hcur Hne Hdata)
    as Htail.
  destruct (tail_loop_calls env (i_tail it) (follow_active_binary data 0) 0%nat
              (with_ck w1 (set_offset (w_ck w1) (Some b) 0)))
    as (w2 & st & zs & Hloop & Ht2 & Hzs & Hc2 & Hb2).
  cbn [with_ck w_trace w_ck set_offset set_active ck_completed ck_active a_inode]
    in Ht2, Hc2, Hb2.
  assert (Hiter : exists l',
             main_iteration env it l = Return (l', st)
             /\ w_trace (l_world l') = w_trace w2
             /\ ck_completed (w_ck (l_world l')) = ck_completed (w_ck w2)
             /\ ck_active (w_ck (l_world l')) = ck_active (w_ck w2)).
  { unfold main_iteration. rewrite <- Hlist in Hdrain. rewrite Hdrain. cbn [bind].
    rewrite Htail, Hloop. cbn [bind]. destruct st.
    - destruct (flush_checkpoint_keeps it l w2) as (F1 & F2 & F3).
      destruct (flush_checkpoint it l w2) as [[w3 fs] last_flush].
      cbn [fst] in F1, F2, F3.
      destruct (emit_metrics_keeps it l w3) as (E1 & E2 & E3).
      destruct (emit_metrics it l w3) as [[[w4 mw] sink] last_metrics].
      cbn [fst] in E1, E2, E3.
      eexists. split; [reflexivity|]. cbn [l_world]. repeat split; congruence.
    - eexists. split; [reflexivity|]. done. }
  destruct Hiter as (l' & Hiter & Ht3 & Hc3 & Ha3).
  exists text, w1, pre, xs, post, l', st, zs.
  split; [exact Htext|]. split; [by rewrite Hlist|]. split; [exact Ht1|].
  split; [exact Hraw|]. split; [exact Hxs|]. split; [exact Hothers|].
  split; [exact Ha1|]. split; [exact Ho1|]. split; [exact Htail|].
  split; [exact Hiter|]. split; [by rewrite Ht3|].
  split.
  { eapply Forall_impl; [exact Hzs|]. cbv beta. intros x Hx. split; [done|].
    rewrite Hx. by apply rotated_path_not_active. }
  split.
  { intros Hprobe. rewrite Ha3. by apply Hb2. }
  split; [intros w line new_offset ys k Hw Hk; by eapply tail_loop_rotation|].
  split.
  { intros n Hn. apply (survives_ledger _ (w_ck w2)).
    - unfold ledger. by rewrite Hc3.
    - apply (survives_ledger _ (w_ck w1)); [unfold ledger; by rewrite Hc2|].
      apply Hs1. lia. }
  split; [intros n ck; apply survives_is_completed|].
  intros disk' paths' w' w'' Hid Hs Hrun.
  by apply (process_rotated_files_skips env disk' path (f_inode f) (f_size f) (f_mtime f)
              paths' Hid w' w'').
Qed.

Local Set Warnings "abstract-large-number".

End with_loop.

Local Set Warnings "-abstract-large-number".

Lemma C2_rotation_reset_and_drain_witness :
  a_inode (ck_active (w_ck (l_world after_first_turn))) = Some inode_a
  /\ a_offset (ck_active (w_ck (l_world after_first_turn))) = 144%Z
  /\ t_inode (i_tail second_turn) = Some inode_b
  /\ inode_a <> inode_b
  /\ NoDup (i_names second_turn) /\ In rotated_name (i_names second_turn)
  /\ is_Some (ROTATED_RE_match (RT:=basic_runtime) rotated_name)
  /\ i_disk second_turn !! (DIR ++ [47] ++ rotated_name) = Some rotated_a
  /\ is_completed (w_ck (l_world after_first_turn)) (DIR ++ [47] ++ rotated_name)
       (f_inode rotated_a) (f_size rotated_a) (f_mtime rotated_a) = false
  /\ exists w1 pre xs post l' st zs,
       process_rotated_files (RT:=basic_runtime) quiet_env (i_disk second_turn)
         (list_rotated_files (RT:=basic_runtime) (i_names second_turn))
         (l_world after_first_turn) = Return w1
       /\ w_trace w1 = w_trace (l_world after_first_turn) ++ pre ++ xs ++ post
       /\ map raw_of xs = [ok_line; bad_line]
       /\ Forall (fun x => path_of x = rotated_path /\ inode_of x = Some inode_a) xs
       /\ Forall (fun x => path_of x <> rotated_path) (pre ++ post)
       /\ a_offset (ck_active (w_ck w1)) = 144%Z
       /\ main_iteration (RT:=basic_runtime) (JS:=json_ref.codec) (MT:=counters_metrics)
            quiet_env second_turn after_first_turn = Return (l', st)
       /\ w_trace (l_world l') = w_trace w1 ++ zs
       /\ Forall (fun x => path_of x = ACTIVE_PATH /\ path_of x <> rotated_path) zs
       /\ a_inode (ck_active (w_ck (l_world l'))) = Some inode_b
       /\ Forall (fun x => inode_of x = Some inode_b) zs
       /\ is_completed (w_ck (l_world l')) rotated_path
            (f_inode rotated_a) (f_size rotated_a) (f_mtime rotated_a) = true.
Proof.
  assert (H1 : a_inode (ck_active (w_ck (l_world after_first_turn))) = Some inode_a)
    by (vm_compute; reflexivity).
  assert (H1' : a_offset (ck_active (w_ck (l_world after_first_turn))) = 144%Z)
    by (vm_compute; reflexivity).
  assert (H2 : t_inode (i_tail second_turn) = Some inode_b) by reflexivity.
  assert (H3 : inode_a <> inode_b) by discriminate.
  assert (H4 : t_data (i_tail second_turn) = Some file_b) by reflexivity.
  assert (H5 : NoDup (i_names second_turn)).
  { apply NoDup_singleton. }
  assert (H6 : In rotated_name (i_names second_turn)) by (by left).
  assert (H7 : is_Some (ROTATED_RE_match (RT:=basic_runtime) rotated_name)).
  { eexists. vm_compute. reflexivity. }
  assert (H8 : i_disk second_turn !! (DIR ++ [47] ++ rotated_name) = Some rotated_a)
    by (vm_compute; reflexivity).
  assert (H9 : f_inode rotated_a = inode_a) by reflexivity.
  assert (H10 : is_completed (w_ck (l_world after_first_turn)) (DIR ++ [47] ++ rotated_name)
                  (f_inode rotated_a) (f_size rotated_a) (f_mtime rotated_a) = false)
    by (vm_compute; reflexivity).
  assert (H11 : forall p g,
             In p (list_rotated_files (RT:=basic_runtime) (i_names second_turn)) ->
             i_disk second_turn !! p = Some g -> endswith p (pystr ".gz") = true ->
             is_Some (@gzip_decompress basic_runtime (f_data g))).
  { intros p g Hp _ _. by eexists. }
  destruct (C2_rotation_reset_and_drain (RT:=basic_runtime) (JS:=json_ref.codec)
              (MT:=counters_metrics) quiet_env second_turn after_first_turn
              inode_a inode_b file_b rotated_name rotated_a
              H1 H2 H3 H4 H5 H6 H7 H8 H9 H10 H11)
    as (text & w1 & pre & xs & post & l' & st & zs & Htext & Hdrain & Ht1 & Hraw & Hxs
        & Hothers & _ & Ho1 & _ & Hiter & Ht2 & Hzs & Hb & _ & Hs & Hdone & _).
  assert (E : endswith (DIR ++ [47] ++ rotated_name) (pystr ".gz") = false)
    by (vm_compute; reflexivity).
  rewrite E in Htext. subst text.
  assert (Hlines : text_lines (f_data rotated_a) = [ok_line; bad_line])
    by (vm_compute; reflexivity).
  rewrite Hlines in Hraw. rewrite H1' in Ho1.
  destruct Hb as [Hb1 Hb2]; [intros k; by right|].
  assert (Hfew : (length (i_names second_turn) + 0 < 5000)%nat)
    by (apply Nat.ltb_lt; vm_compute; reflexivity).
  pose proof (Hdone _ _ (Hs 0%nat Hfew)) as Hc.
  repeat (split; [assumption|]).
  exists w1, pre, xs, post, l', st, zs.
  repeat (split; [assumption|]). assumption.
Defined.

Local Set Warnings "abstract-large-number".

End RotationFacts.
